(** * totallylazy.js: dates and money, format-parts emulation and parsing

    A shallow embedding of the date formatter and parser (dates/format.ts and
    dates/parse.ts, which the sources at hand hold in one unnamed file) and of
    the money module (money/index.ts), with the properties the specification
    states about them.

    JavaScript strings are [string]: a character is a UTF-16 code unit, of
    which this development has those below 256.  A part type ('year',
    'literal', ...) is the string the source compares with [===]; a thrown
    [Error] is the [Throw] branch of [Result]; an array is a [list].  The
    host facilities ([Intl.DateTimeFormat], [Intl.NumberFormat], the
    lower-casing of a locale) enter as a record of functions, the host's
    [RegExp] as a backtracking matcher. *)

From Stdlib Require Import ZArith Lia Bool Ascii.
From stdpp Require Import base option list strings gmap pretty.

(* ===================================================================== *)
(** ** Strings, errors, parts *)
(* ===================================================================== *)

Module Str.

(** [values.join("")] *)
Definition join (l : list string) : string := String.concat "" l.

(** [characters(value)] of ../characters: the characters of a string, one
    by one. *)
Fixpoint characters (s : string) : list ascii :=
  match s with
  | EmptyString => []
  | String c s' => c :: characters s'
  end.

Fixpoint take (n : nat) (s : string) : string :=
  match n, s with
  | S n', String c s' => String c (take n' s')
  | _, _ => EmptyString
  end.

Fixpoint strip_prefix (w s : string) : option string :=
  match w, s with
  | EmptyString, _ => Some s
  | String a w', String b s' => if Ascii.eqb a b then strip_prefix w' s' else None
  | String _ _, EmptyString => None
  end.

Definition is_empty (s : string) : bool :=
  match s with
  | EmptyString => true
  | String _ _ => false
  end.

(** [string.repeat(n)] for one character. *)
Fixpoint replicate (n : nat) (c : ascii) : string :=
  match n with
  | 0 => EmptyString
  | S n' => String c (replicate n' c)
  end.

End Str.

(** [new Error(message)] *)
Record Error := MkError { message : string }.

Inductive Result (A : Type) :=
| Ok (a : A)
| Throw (e : Error).
Arguments Ok {A} a.
Arguments Throw {A} e.

Definition bind {A B} (r : Result A) (k : A -> Result B) : Result B :=
  match r with
  | Ok a => k a
  | Throw e => Throw e
  end.

Notation "'try' x <- r 'in' k" := (bind r (fun x => k))
  (at level 10, x name, r at level 100, k at level 200).

(** [array.map(f)] where [f] may throw: the first throw ends the map. *)
Fixpoint mapM {A B} (f : A -> Result B) (l : list A) : Result (list B) :=
  match l with
  | [] => Ok []
  | a :: l' =>
      try b <- f a in
      try bs <- mapM f l' in
      Ok (b :: bs)
  end.

(** [Intl.DateTimeFormatPart] and [Intl.NumberFormatPart]:
    [{type: string, value: string}]. *)
Record Part := MkPart { type : string; value : string }.

(** [NamedMatch] of ../characters: the name of a capture group and the text
    it captured. *)
Record NamedMatch := MkMatch { name : string; mvalue : string }.

Definition values (parts : list Part) : list string := map value parts.

(** [parts.map(p => p.value).join("")] *)
Definition joined (parts : list Part) : string := Str.join (values parts).

Definition is_literal (p : Part) : bool := String.eqb (type p) "literal".

(** No two neighbours are both literal. *)
Fixpoint NoAdjacentLiterals (parts : list Part) : Prop :=
  match parts with
  | [] => True
  | p :: rest =>
      match rest with
      | [] => True
      | q :: _ => (is_literal p && is_literal q = false) /\ NoAdjacentLiterals rest
      end
  end.

(* ===================================================================== *)
(** ** Host functions on values *)
(* ===================================================================== *)

Module JS.

(** A JavaScript number as these sources use it: an integer or [NaN]. *)
Inductive Num :=
| Int (z : Z)
| NaN.

(** [Boolean(value)] of an object and of a string. *)
Definition Boolean_object {A} (_ : A) : bool := true.
Definition Boolean_string (s : string) : bool := negb (Str.is_empty s).

(** White space and line ends of the language, which [\s] matches and
    [parseInt] skips: tab, line feed, vertical tab, form feed, carriage
    return, space and no-break space. *)
Definition is_white_space (c : ascii) : bool :=
  Ascii.is_space c || (nat_of_ascii c =? 160).

Definition digit_value (c : ascii) : option Z :=
  let n := nat_of_ascii c in
  if (48 <=? n) && (n <=? 57) then Some (Z.of_nat (n - 48)) else None.

Definition hex_value (c : ascii) : option Z :=
  let n := nat_of_ascii c in
  if (48 <=? n) && (n <=? 57) then Some (Z.of_nat (n - 48))
  else if (97 <=? n) && (n <=? 102) then Some (Z.of_nat (n - 87))
  else if (65 <=? n) && (n <=? 70) then Some (Z.of_nat (n - 55))
  else None.

(** The longest run of digits at the front, read in the given radix;
    nothing when there is no digit. *)
Fixpoint read_digits (radix : Z) (digit : ascii -> option Z) (acc : option Z)
    (s : string) : option Z :=
  match s with
  | EmptyString => acc
  | String c s' =>
      match digit c with
      | Some d => read_digits radix digit (Some (radix * default 0%Z acc + d)%Z) s'
      | None => acc
      end
  end.

Fixpoint skip_spaces (s : string) : string :=
  match s with
  | String c s' => if is_white_space c then skip_spaces s' else s
  | EmptyString => s
  end.

Definition read_unsigned (s : string) : option Z :=
  match s with
  | String a (String b s') =>
      if Ascii.eqb a "0" && (Ascii.eqb b "x" || Ascii.eqb b "X")
      then read_digits 16 hex_value None s'
      else read_digits 10 digit_value None s
  | _ => read_digits 10 digit_value None s
  end.

Definition number_of (negative : bool) (digits : option Z) : Num :=
  match digits with
  | Some z => Int (if negative then - z else z)
  | None => NaN
  end.

(** [parseInt(text)] with no radix: white space, a sign, then the digits up
    to the first character that is none; [parseInt(undefined)] is [NaN]. *)
Definition parseInt (text : option string) : Num :=
  match text with
  | None => NaN
  | Some s =>
      match skip_spaces s with
      | String c s' =>
          if Ascii.eqb c "-" then number_of true (read_unsigned s')
          else if Ascii.eqb c "+" then number_of false (read_unsigned s')
          else number_of false (read_unsigned (String c s'))
      | EmptyString => NaN
      end
  end.

(** [unique(array)] of ../arrays: the first occurrence of each element is
    kept. *)
Fixpoint unique (seen l : list ascii) : list ascii :=
  match l with
  | [] => []
  | c :: l' =>
      if existsb (Ascii.eqb c) seen then unique seen l'
      else c :: unique (c :: seen) l'
  end.

End JS.

(* ===================================================================== *)
(** ** The host's regular expressions *)
(* ===================================================================== *)

(** The patterns the sources build are ordinary ECMAScript patterns:
    character classes, literal text, sequence, ordered alternation, greedy
    and lazy repetition, capture groups, [^], [$] and lookahead.  A pattern
    is kept as its syntax tree instead of its source text.  The matcher is
    the backtracking one of the language definition, written with a
    continuation: alternatives are tried left to right, a greedy repetition
    tries one more turn before stopping, a lazy one stops first, and a turn
    of a repetition that consumes nothing is refused.

    Where the sources paste a text into a pattern (the characters of a
    separator between [[] and []], a rendered month name into a group), the
    text is read as the pattern syntax it then is.  Between brackets a
    leading [^] negates, [a-b] is a range, [\s] and [\d] are classes, a
    backslash before a character that is neither letter nor digit gives
    that character, and []] ends the class, so that the rest of the text
    stands after the class; a range out of order makes the pattern one that
    [new RegExp] refuses.  Pattern text beyond this (another escape; a
    quantifier, a parenthesis, a bracket or a bar that comes to stand
    outside a class) is not read: it is [Unread], of which the matcher
    finds no match. *)

Module RegExp.

Inductive item :=
| IChar (c : ascii)         (* a character written in the class *)
| IRange (lo hi : ascii)    (* lo-hi *)
| IDigit                    (* \d *)
| ISpace.                   (* \s *)

Inductive re :=
| Eps
| Any                                         (* . *)
| Class (negated : bool) (items : list item)  (* [...] and [^...] *)
| Text (w : string)                           (* literal text *)
| Seq (a b : re)
| Alt (a b : re)
| Star (greedy : bool) (a : re)               (* a* and a*? *)
| Group (name : string) (a : re)              (* (?<name>a) *)
| AtStart                                     (* ^ *)
| AtEnd                                       (* $ *)
| LookAhead (a : re)                          (* (?=a) *)
| Invalid (e : Error)                         (* text that new RegExp refuses *)
| Unread.                                     (* text that is not read here *)

Definition Digit : re := Class false [IDigit].
Definition Plus (greedy : bool) (a : re) : re := Seq a (Star greedy a).
Definition Opt (a : re) : re := Alt a Eps.
Definition Seqs (l : list re) : re := foldr Seq Eps l.

(** [alternatives.join("|")]; joining nothing gives the empty pattern. *)
Fixpoint Alts (l : list re) : re :=
  match l with
  | [] => Eps
  | a :: l' =>
      match l' with
      | [] => a
      | _ :: _ => Alt a (Alts l')
      end
  end.

Fixpoint Times (n : nat) (a : re) : re :=
  match n with
  | 0 => Eps
  | S n' => Seq a (Times n' a)
  end.

Definition is_digit (c : ascii) : bool :=
  (48 <=? nat_of_ascii c) && (nat_of_ascii c <=? 57).

Definition is_newline (c : ascii) : bool :=
  (nat_of_ascii c =? 10) || (nat_of_ascii c =? 13).

Definition item_has (c : ascii) (i : item) : bool :=
  match i with
  | IChar x => Ascii.eqb x c
  | IRange lo hi =>
      (nat_of_ascii lo <=? nat_of_ascii c) && (nat_of_ascii c <=? nat_of_ascii hi)
  | IDigit => is_digit c
  | ISpace => JS.is_white_space c
  end.

Definition in_class (c : ascii) (items : list item) : bool :=
  existsb (item_has c) items.

(** The text between two points of the input, the later one given by what
    is left of the input there. *)
Definition consumed (s s' : string) : string :=
  Str.take (String.length s - String.length s') s.

Abbreviation Captures := (list NamedMatch).

(** The turns of a repetition of [step]: a greedy one tries another turn
    before it goes on with [k], a lazy one goes on with [k] first; a turn
    that consumes nothing is refused.  Every turn shortens the text, so
    [length s] turns are always enough. *)
Fixpoint turns {R : Type}
    (step : string -> Captures -> (string -> Captures -> option R) -> option R)
    (greedy : bool) (k : string -> Captures -> option R)
    (fuel : nat) (s : string) (cs : Captures) : option R :=
  match fuel with
  | 0 => k s cs
  | S fuel' =>
      let again :=
        step s cs (fun s' cs' =>
          if decide (String.length s' < String.length s)
          then turns step greedy k fuel' s' cs' else None) in
      if greedy then
        match again with
        | Some x => Some x
        | None => k s cs
        end
      else
        match k s cs with
        | Some x => Some x
        | None => again
        end
  end.

(** [matcher r whole R s cs k]: match [r] at the front of [s], a suffix of
    the input [whole], with the captures [cs] made so far, and go on with
    [k]. *)
Fixpoint matcher (r : re) (whole : string) (R : Type) (s : string) (cs : Captures)
    (k : string -> Captures -> option R) {struct r} : option R :=
  match r with
  | Eps => k s cs
  | Any =>
      match s with
      | String c s' => if is_newline c then None else k s' cs
      | EmptyString => None
      end
  | Class negated items =>
      match s with
      | String c s' => if xorb negated (in_class c items) then k s' cs else None
      | EmptyString => None
      end
  | Text w =>
      match Str.strip_prefix w s with
      | Some s' => k s' cs
      | None => None
      end
  | Seq a b => matcher a whole R s cs (fun s' cs' => matcher b whole R s' cs' k)
  | Alt a b =>
      match matcher a whole R s cs k with
      | Some x => Some x
      | None => matcher b whole R s cs k
      end
  | Star greedy a => turns (matcher a whole R) greedy k (String.length s) s cs
  | Group name a =>
      matcher a whole R s cs (fun s' cs' =>
        k s' (cs' ++ [MkMatch name (consumed s s')]))
  | AtStart =>
      if String.length s =? String.length whole then k s cs else None
  | AtEnd =>
      match s with
      | EmptyString => k s cs
      | String _ _ => None
      end
  | LookAhead a =>
      match matcher a whole unit s cs (fun _ _ => Some tt) with
      | Some _ => k s cs
      | None => None
      end
  | Invalid _ | Unread => None
  end.

(** One match at the front of [s]: the captures, and the text after the
    match. *)
Definition match_at (r : re) (whole s : string) : option (Captures * string) :=
  matcher r whole _ s [] (fun s' cs => Some (cs, s')).

(** A found match: the text skipped before it, its captures, the matched
    text and the text after it. *)
Record Found := MkFound {
  before : string;
  groups : Captures;
  matched : string;
  after : string
}.

(** The leftmost match at or after the front of [s], as [exec] finds it
    from [lastIndex]. *)
Fixpoint search_in (r : re) (whole : string) (skipped s : string) : option Found :=
  match match_at r whole s with
  | Some (cs, s') => Some (MkFound skipped cs (consumed s s') s')
  | None =>
      match s with
      | EmptyString => None
      | String c s' => search_in r whole (skipped +:+ String c EmptyString) s'
      end
  end.

(** [text.match(regex)] and [regex.exec(text)] without the global flag:
    the captures of the leftmost match; [match[i]] is the i-th capture. *)
Definition exec (r : re) (s : string) : option Captures :=
  groups <$> search_in r s "" s.

Definition group_at (index : option nat) (m : Captures) : option string :=
  match index with
  | Some (S i) => mvalue <$> m !! i
  | _ => None
  end.

(** The capture groups of a pattern, by name, in the order they open. *)
Fixpoint group_names (r : re) : list string :=
  match r with
  | Seq a b | Alt a b => group_names a ++ group_names b
  | Star _ a | LookAhead a => group_names a
  | Group name a => name :: group_names a
  | _ => []
  end.

(** *** Pattern text

    The text of a class, between its brackets, atom by atom. *)
Inductive atom :=
| One (c : ascii)        (* a character, as itself or after a backslash *)
| Dash                   (* - *)
| Escaped (i : item).    (* \d and \s *)

Inductive ending :=
| Ends                   (* the text ends and leaves the class open *)
| Closes (rest : string) (* ] ends the class, [rest] follows it *)
| NotRead.

Definition backslash : ascii := ascii_of_nat 92.

Definition is_alnum (c : ascii) : bool :=
  let n := nat_of_ascii c in
  ((48 <=? n) && (n <=? 57)) || ((65 <=? n) && (n <=? 90)) || ((97 <=? n) && (n <=? 122)).

Definition and_then (a : atom) (more : list atom * ending) : list atom * ending :=
  (a :: fst more, snd more).

Fixpoint atoms (s : string) : list atom * ending :=
  match s with
  | EmptyString => ([], Ends)
  | String c s' =>
      if Ascii.eqb c "]" then ([], Closes s')
      else if Ascii.eqb c backslash then
        match s' with
        | EmptyString => ([], NotRead)
        | String e s'' =>
            if Ascii.eqb e "s" then and_then (Escaped ISpace) (atoms s'')
            else if Ascii.eqb e "d" then and_then (Escaped IDigit) (atoms s'')
            else if is_alnum e then ([], NotRead)
            else and_then (One e) (atoms s'')
        end
      else and_then (if Ascii.eqb c "-" then Dash else One c) (atoms s')
  end.

Definition atom_item (a : atom) : item :=
  match a with
  | One c => IChar c
  | Dash => IChar "-"
  | Escaped i => i
  end.

Definition atom_char (a : atom) : option ascii :=
  match a with
  | One c => Some c
  | Dash => Some "-"%char
  | Escaped _ => None
  end.

(** An atom, a dash and an atom are a range when both ends are characters,
    and the two ends and the dash when one is a class; a range from a
    character to one before it is the SyntaxError, [None]. *)
Fixpoint ranges (l : list atom) : option (list item) :=
  match l with
  | [] => Some []
  | a :: l1 =>
      match l1 with
      | Dash :: b :: l2 =>
          match atom_char a, atom_char b with
          | Some lo, Some hi =>
              if nat_of_ascii lo <=? nat_of_ascii hi
              then cons (IRange lo hi) <$> ranges l2
              else None
          | _, _ =>
              (fun items => atom_item a :: IChar "-" :: atom_item b :: items)
                <$> ranges l2
          end
      | _ => cons (atom_item a) <$> ranges l1
      end
  end.

(** What a text makes between [[] and []]. *)
Inductive ClassText :=
| Closed (negated : bool) (items : list item)
| ClosedEarly (negated : bool) (items : list item) (rest : string)
| OutOfOrder
| Beyond.

Definition read_class (body : string) : ClassText :=
  let '(negated, s) :=
    match body with
    | String c s' => if Ascii.eqb c "^" then (true, s') else (false, body)
    | EmptyString => (false, body)
    end in
  match atoms s with
  | (_, NotRead) => Beyond
  | (l, Ends) =>
      match ranges l with
      | Some items => Closed negated items
      | None => OutOfOrder
      end
  | (l, Closes rest) =>
      match ranges l with
      | Some items => ClosedEarly negated items rest
      | None => OutOfOrder
      end
  end.

(** The characters that are syntax outside a class and are not read
    there. *)
Definition is_syntax (c : ascii) : bool :=
  existsb (Ascii.eqb c) (Str.characters "*+?()[{|").

(** A text outside a class and outside the reach of a quantifier. *)
Fixpoint pattern_text (s : string) : re :=
  match s with
  | EmptyString => Eps
  | String c s' =>
      if Ascii.eqb c backslash then
        match s' with
        | EmptyString => Unread
        | String e s'' =>
            if Ascii.eqb e "s" then Seq (Class false [ISpace]) (pattern_text s'')
            else if Ascii.eqb e "d" then Seq Digit (pattern_text s'')
            else if is_alnum e then Unread
            else Seq (Text (String e EmptyString)) (pattern_text s'')
        end
      else if is_syntax c then Unread
      else if Ascii.eqb c "." then Seq Any (pattern_text s')
      else if Ascii.eqb c "^" then Seq AtStart (pattern_text s')
      else if Ascii.eqb c "$" then Seq AtEnd (pattern_text s')
      else Seq (Text (String c EmptyString)) (pattern_text s')
  end.

Definition range_out_of_order : Error :=
  MkError "SyntaxError: Invalid regular expression: Range out of order in character class".

(** [[body]] with the quantifier that follows the closing bracket.  When
    the text closes the class itself, the quantifier stands after the
    bracket the source wrote. *)
Definition bracketed (body : string) (quantified : re -> re) : re :=
  match read_class body with
  | Closed negated items => quantified (Class negated items)
  | ClosedEarly negated items rest =>
      Seq (Class negated items) (Seq (pattern_text rest) (quantified (Text "]")))
  | OutOfOrder => Invalid range_out_of_order
  | Beyond => Unread
  end.

(** [new RegExp(pattern)]: the error of the first refused text. *)
Fixpoint refused (r : re) : option Error :=
  match r with
  | Invalid e => Some e
  | Seq a b | Alt a b =>
      match refused a with
      | Some e => Some e
      | None => refused b
      end
  | Star _ a | Group _ a | LookAhead a => refused a
  | _ => None
  end.

Definition RegExp_new (r : re) : Result re :=
  match refused r with
  | Some e => Throw e
  | None => Ok r
  end.

End RegExp.

(** Modelled from the spec: NamedRegExp, namedGroups and replace of
    ../characters are not in the sources at hand.  The spec has a pattern as
    a "regular expression with named capture groups" whose match is the
    "ordered" sequence of named parts (4.3), and has the learning pass take
    "every contiguous run that is not a recognized field" as a literal span
    (4.2).  So [match] gives the groups that took part in the leftmost match,
    in order, and [iterate] goes through the text from left to right and
    gives, in order, every non-empty stretch no match covers and every
    match; a match of no characters ends it.  Every other match shortens
    what is left, so [length value + 1] turns are always enough. *)
Module NamedRegExp.
Import RegExp.

(** [NamedRegExp.create(pattern)] makes the host's [RegExp] of the
    pattern. *)
Definition create (r : re) : Result re := RegExp_new r.

Definition match_ (r : re) (value : string) : option (list NamedMatch) :=
  exec r value.

Inductive MatchOrNot :=
| NotMatched (text : string)
| Matched (text : string) (m : list NamedMatch).

Definition not_matched (text : string) : list MatchOrNot :=
  if Str.is_empty text then [] else [NotMatched text].

Fixpoint iterate_from (fuel : nat) (r : re) (whole s : string) : list MatchOrNot :=
  match fuel with
  | 0 => not_matched s
  | S fuel' =>
      match search_in r whole "" s with
      | None => not_matched s
      | Some f =>
          not_matched (before f) ++
          Matched (matched f) (groups f) ::
          (if Str.is_empty (matched f) then not_matched (after f)
           else iterate_from fuel' r whole (after f))
      end
  end.

Definition iterate (r : re) (value : string) : list MatchOrNot :=
  iterate_from (S (String.length value)) r value value.

(** [namedGroups(pattern).names]: the index of the group of a name; a later
    group of the same name takes the entry. *)
Fixpoint last_index (n : string) (names : list string) (i : nat) (found : option nat)
    : option nat :=
  match names with
  | [] => found
  | x :: names' =>
      last_index n names' (S i) (if String.eqb x n then Some i else found)
  end.

Definition names (r : re) (n : string) : option nat :=
  last_index n (group_names r) 1 None.

End NamedRegExp.

(* ===================================================================== *)
(** ** Dates *)
(* ===================================================================== *)

Module Dates.
Import RegExp JS.

(** *** Data *)

(** Modelled from the spec: [Date] and [date(year, month, day)] of
    ../dates/index are not in the sources at hand; the spec has a date as an
    "opaque calendar date at UTC midnight (year, 1-based month, day)".  A
    [NaN] component gives JavaScript's Invalid Date. *)
Inductive Date :=
| MkDate (year month day : Z)
| InvalidDate.

Definition date (year month day : Num) : Date :=
  match year, month, day with
  | Int y, Int m, Int d => MkDate y m d
  | _, _, _ => InvalidDate
  end.

(** [Options]: an object with string values; [Object.keys] gives the keys
    in the order they were written. *)
Definition Options := list (string * string).

Definition keys (o : Options) : list string := map fst o.

(** [object[key] = value] *)
Fixpoint set_key (key value : string) (o : Options) : Options :=
  match o with
  | [] => [(key, value)]
  | (k, v) :: o' =>
      if String.eqb k key then (k, value) :: o' else (k, v) :: set_key key value o'
  end.

Definition quote : string := String (ascii_of_nat 34) EmptyString.

Definition JSON_stringify (o : Options) : string :=
  "{" +:+ String.concat ","
    (map (fun kv => quote +:+ fst kv +:+ quote +:+ ":" +:+ quote +:+ snd kv +:+ quote) o)
  +:+ "}".

(** [string | Options] *)
Inductive FormatOrOptions :=
| AsFormat (format : string)
| AsOptions (options : Options).

(** [Datum<number>] of a month or weekday: a name and the number it stands
    for. *)
Record Datum := MkDatum { dname : string; number : Z }.

(** Modelled from the spec: DatumLookup, Months and Weekdays of ../dates are
    not in the sources at hand.  The spec (4.1): the pattern is the
    "alternation of all names, each escaped, ordered so that no shorter name
    is tried before a longer name that has it as a proper prefix", and
    [parse] "case-normalizes (locale-aware) then performs exact lookup; fails
    with NotFound(text) if no entry matches"; (4.4) a month "resolves through
    the Datum Lookup when textual, else parses as a 1-based integer
    directly".  The names of the pattern stand longest first, names of one
    length in the order of the table; [lower] is the lower-casing of the
    locale the lookup was made for. *)
Definition DatumLookup := list Datum.

Fixpoint insert_by_length (n : string) (l : list string) : list string :=
  match l with
  | [] => [n]
  | x :: l' =>
      if String.length x <=? String.length n then n :: x :: l'
      else x :: insert_by_length n l'
  end.

Definition longest_first (l : list string) : list string :=
  foldr insert_by_length [] l.

Definition pattern_names (table : DatumLookup) : list string :=
  longest_first (map dname table).

Definition lookup_pattern (table : DatumLookup) : re :=
  Alts (map Text (pattern_names table)).

(** [lookup.pattern.toLocaleLowerCase(locale)] *)
Definition lookup_pattern_lower (lower : string -> string) (table : DatumLookup) : re :=
  Alts (map (fun n => Text (lower n)) (pattern_names table)).

Definition same_name (lower : string -> string) (text : string) (d : Datum) : bool :=
  String.eqb (lower (dname d)) (lower text).

Definition lookup_parse (lower : string -> string) (table : DatumLookup) (text : string)
    : Result Datum :=
  match find (same_name lower text) table with
  | Some d => Ok d
  | None => Throw (MkError ("NotFound: " +:+ text))
  end.

Definition Weekdays_parse := lookup_parse.

Definition Months_parse (lower : string -> string) (table : DatumLookup) (text : string)
    : Result Datum :=
  match parseInt (Some text) with
  | Int n => Ok (MkDatum text n)
  | NaN => lookup_parse lower table text
  end.

(** *** The host and the rest of the library *)

(** An [Intl.DateTimeFormat]: [format], and [formatToParts] where the host
    has it. *)
Record DateTimeFormat := MkDateTimeFormat {
  df_format : Date -> string;
  df_formatToParts : option (Date -> list Part)
}.

(** What the sources at hand take from outside: the host's
    [Intl.DateTimeFormat] constructor, clock and
    [text.toLocaleLowerCase(locale)], and the name tables and default
    options of ../dates/index.  The constructor is handed an options object
    and may change it: it gives back what it leaves in that object together
    with the formatter, or throws. *)
Record Env := MkEnv {
  DateTimeFormat_new : string -> Options -> Result (Options * DateTimeFormat);
  toLocaleLowerCase : string -> string -> string;
  hasNativeFormatToParts : bool;
  now : Date;
  defaultOptions : Options;
  Months_get : string -> DatumLookup;
  Weekdays_get : string -> DatumLookup;
  Months_dataFor : string -> Options -> DatumLookup;
  Weekdays_dataFor : string -> Options -> DatumLookup;
  months : string -> Options -> list string;
  weekdays : string -> Options -> list string;
  valueFromParts : list Part -> string -> Result string
}.

(** *** Formatters and ImprovedDateTimeFormat

    Objects live in a store, so that who holds which options object is
    explicit: [{...options}] makes a new object, passing an object passes
    its place in the store. *)

Abbreviation Ref := nat.
Abbreviation Store := (list Options).

Definition alloc (h : Store) (o : Options) : Ref * Store := (length h, h ++ [o]).
Definition read (h : Store) (r : Ref) : Options := default [] (h !! r).
Definition write (h : Store) (r : Ref) (o : Options) : Store := <[r := o]> h.

Section WithEnv.
Variable env : Env.

(** [Formatters.dateTimeFormat]:
    [new Intl.DateTimeFormat(locale, {...options, timeZone: 'UTC'})]. *)
Definition dateTimeFormat_in (locale : string) (options : Ref) (h : Store)
    : Store * Result DateTimeFormat :=
  let '(handed, h) := alloc h (set_key "timeZone" "UTC" (read h options)) in
  match DateTimeFormat_new env locale (read h handed) with
  | Ok (kept, formatter) => (write h handed kept, Ok formatter)
  | Throw e => (h, Throw e)
  end.

(** [ImprovedDateTimeFormat.create] *)
Definition create_in (locale : string) (options : Ref) (h : Store)
    : Store * Result DateTimeFormat :=
  let '(clone, h) := alloc h (read h options) in
  let keys_before := length (keys (read h clone)) in
  let '(h, result) := dateTimeFormat_in locale clone h in
  match result with
  | Throw e => (h, Throw e)
  | Ok result =>
      if negb (length (keys (read h clone)) =? keys_before)
      then (h, Throw (MkError ("Unsupported DateTimeFormat options provided: "
                               +:+ JSON_stringify (read h options))))
      else (h, Ok result)
  end.

(** The same calls from a caller that holds its options object at the first
    place of an otherwise empty store. *)
Definition dateTimeFormat (locale : string) (options : Options) : Result DateTimeFormat :=
  snd (dateTimeFormat_in locale 0 [options]).

Definition create (locale : string) (options : Options) : Result DateTimeFormat :=
  snd (create_in locale 0 [options]).

(** [characters(text).join("")] *)
Definition rejoin (text : string) : string :=
  Str.join (map (fun c => String c EmptyString) (Str.characters text)).

(** [ImprovedDateTimeFormat.format]; the delegate is made when the
    formatter is. *)
Definition Improved_format (locale : string) (options : Options) (d : Date)
    : Result string :=
  try delegate <- create locale options in
  Ok (rejoin (df_format delegate d)).

(** [Formatters.isNativelySupported] *)
Definition isNativelySupported (locale : string) (options : Options) : Result bool :=
  try formatter <- dateTimeFormat locale options in
  Ok match df_formatToParts formatter with
     | Some formatToParts => 0 <? length (formatToParts (now env))
     | None => false
     end.

(** *** FormatToParts: the emulation *)

(** [collapseLiterals].  The source changes the array in place:
    [current.value = ...] writes the element at index [i],
    [parts.splice(position, 1)] deletes the one at [i + 1].  The inner
    [while (true)] runs until the element after [current] is missing or not
    a literal; every turn deletes one element, so [length parts] turns are
    always enough. *)
Fixpoint collapse_while (fuel i : nat) (parts : list Part) : list Part :=
  match fuel with
  | 0 => parts
  | S fuel' =>
      match parts !! i, parts !! (i + 1) with
      | Some current, Some next =>
          if is_literal next then
            let current' := MkPart (type current) (value current +:+ value next) in
            collapse_while fuel' i (delete (i + 1) (<[i := current']> parts))
          else parts
      | _, _ => parts
      end
  end.

(** [for (let i = 0; i < parts.length; i++)]: the length is read again on
    every turn, and never grows. *)
Fixpoint collapse_for (fuel i : nat) (parts : list Part) : list Part :=
  match fuel with
  | 0 => parts
  | S fuel' =>
      if decide (i < length parts) then
        match parts !! i with
        | Some current =>
            if is_literal current
            then collapse_for fuel' (i + 1) (collapse_while (length parts) i parts)
            else collapse_for fuel' (i + 1) parts
        | None => parts
        end
      else parts
  end.

Definition collapseLiterals (parts : list Part) : list Part :=
  collapse_for (length parts) 0 parts.

(** [parsable]: the data of Months and Weekdays are objects (the parser
    reads their [.number]), and [Boolean] of an object is [true]. *)
Definition parsable (lookup_parse : string -> Result Datum) (v : string) : bool :=
  match lookup_parse v with
  | Ok datum => Boolean_object datum
  | Throw _ => false
  end.

Definition getType (lower : string -> string) (months_table weekdays_table : DatumLookup)
    (ty v : string) : string :=
  if String.eqb ty "month" || String.eqb ty "weekday" then
    if parsable (Months_parse lower months_table) v then "month"
    else if parsable (Weekdays_parse lower weekdays_table) v then "weekday"
    else "literal"
  else ty.

Section Emulation.
Variable locale : string.
Variable options : Options.

(** The probe: year 3333, month 11, day 20, weekday 5 (Friday). *)
Definition probe_year : Z := 3333.
Definition probe_monthValue : nat := 11.
Definition probe_day : Z := 20.
Definition probe_weekdayValue : nat := 5.

Definition probe_formatted : Result string :=
  Improved_format locale options (date (Int probe_year) (Int (Z.of_nat probe_monthValue)) (Int probe_day)).

Definition probe_months : DatumLookup := Months_dataFor env locale options.
Definition probe_weekdays : DatumLookup := Weekdays_dataFor env locale options.

(** [array[index]] pasted into a template string. *)
Definition pasted (names : list string) (index : nat) : string :=
  default "undefined" (names !! index).

Definition probe_month : string := pasted (months env locale options) (probe_monthValue - 1).
Definition probe_weekday : string := pasted (weekdays env locale options) (probe_weekdayValue - 1).

(** [(this as any)[key]] for the keys an [Options] has. *)
Definition probe_field (key : string) : string :=
  if String.eqb key "year" then "3333"
  else if String.eqb key "month" then probe_month
  else if String.eqb key "day" then "20"
  else if String.eqb key "weekday" then probe_weekday
  else "undefined".

(** [learningNamesPattern]: [(?:(?<key>value)|...)] over the keys of the
    options, each value pasted as it is. *)
Definition learningNamesPattern : re :=
  Alts (map (fun key => Group key (pattern_text (probe_field key))) (keys options)).

Definition year_group : re := Group "year" (Times 4 Digit).
Definition day_group : re := Group "day" (Seq Digit (Opt Digit)).
Definition month_group (names_pattern : re) : re :=
  Group "month" (Alt (Seq Digit (Opt Digit)) names_pattern).
Definition weekday_group (names_pattern : re) : re := Group "weekday" names_pattern.

(** One step of the [map] in [actualNamesPattern]; a field of another name
    gives [undefined], which [join] writes as nothing. *)
Definition actual_piece (v : NamedRegExp.MatchOrNot) : Result re :=
  match v with
  | NamedRegExp.Matched _ m =>
      match map name (filter (fun n => Boolean_string (mvalue n) = true) m) with
      | [] => Throw (MkError "")
      | ty :: _ =>
          if negb (Boolean_string ty) then Throw (MkError "")
          else if String.eqb ty "year" then Ok year_group
          else if String.eqb ty "day" then Ok day_group
          else if String.eqb ty "month" then Ok (month_group (lookup_pattern probe_months))
          else if String.eqb ty "weekday" then Ok (weekday_group (lookup_pattern probe_weekdays))
          else Ok Eps
      end
  | NamedRegExp.NotMatched text =>
      Ok (Group "literal" (bracketed text (Plus false)))
  end.

Definition actual_pieces (formatted : string) : Result (list re) :=
  mapM actual_piece (NamedRegExp.iterate learningNamesPattern formatted).

(** [actualNamesPattern]:
    [NamedRegExp.create("^" + result.join("") + "$")] *)
Definition actualNamesPattern : Result re :=
  try formatted <- probe_formatted in
  try pieces <- actual_pieces formatted in
  NamedRegExp.create (Seq AtStart (Seq (Seqs pieces) AtEnd)).

Definition typed (m : NamedMatch) : Part :=
  MkPart (getType (toLocaleLowerCase env locale) probe_months probe_weekdays
            (name m) (mvalue m))
         (mvalue m).

(** The error text of the source spells out the pattern; the text of a
    pattern is not kept here. *)
Definition did_not_match (actualResult : string) : Error :=
  MkError ("pattern did not match " +:+ actualResult).

(** [FormatToParts.formatToParts] *)
Definition FormatToParts_formatToParts (d : Date) : Result (list Part) :=
  try regex <- actualNamesPattern in
  try actualResult <- Improved_format locale options d in
  match NamedRegExp.match_ regex actualResult with
  | None => Throw (did_not_match actualResult)
  | Some m => Ok (collapseLiterals (map typed m))
  end.

(** [ImprovedDateTimeFormat.formatToParts] *)
Definition Improved_formatToParts (d : Date) : Result (list Part) :=
  try delegate <- create locale options in
  try native <- isNativelySupported locale options in
  match native, df_formatToParts delegate with
  | true, Some formatToParts => Ok (formatToParts d)
  | true, None => Throw (MkError "TypeError: formatToParts is not a function")
  | false, _ => FormatToParts_formatToParts d
  end.

End Emulation.


(** *** Format templates: typeFrom, formatFrom, partsFrom, optionsFrom *)

(** [formatRegex]: [/(?:(y+)|(M+)|(d+)|(E+))/g]; the groups have numbers for
    names. *)
Definition formatRegex : re :=
  Alts [Group "1" (Plus true (Text "y")); Group "2" (Plus true (Text "M"));
        Group "3" (Plus true (Text "d")); Group "4" (Plus true (Text "E"))].

(** [value.indexOf(c) != -1] *)
Definition contains (c : ascii) (v : string) : bool :=
  existsb (Ascii.eqb c) (Str.characters v).

Definition illegal_argument (what : string) : Error :=
  MkError ("Illegal Argument: " +:+ what).

Definition typeFrom (v : string) : Result string :=
  if contains "y" v then Ok "year"
  else if contains "M" v then Ok "month"
  else if contains "d" v then Ok "day"
  else if contains "E" v then Ok "weekday"
  else Throw (illegal_argument v).

Definition formatFrom (ty : string) (length : nat) : Result string :=
  if String.eqb ty "year" && (length =? 4) then Ok "numeric"
  else if String.eqb ty "year" && (length =? 2) then Ok "2-digit"
  else if String.eqb ty "month" && (length =? 4) then Ok "long"
  else if String.eqb ty "month" && (length =? 3) then Ok "short"
  else if String.eqb ty "month" && (length =? 2) then Ok "2-digit"
  else if String.eqb ty "month" && (length =? 1) then Ok "numeric"
  else if String.eqb ty "day" && (length =? 2) then Ok "2-digit"
  else if String.eqb ty "day" && (length =? 1) then Ok "numeric"
  else if String.eqb ty "weekday" && (length =? 4) then Ok "long"
  else if String.eqb ty "weekday" && (length =? 3) then Ok "short"
  else Throw (illegal_argument (ty +:+ " " +:+ pretty length)).

(** [partsFrom]: [replace] calls the first function on every match and the
    second on every stretch between matches, from left to right. *)
Definition part_from (v : NamedRegExp.MatchOrNot) : Result Part :=
  match v with
  | NamedRegExp.Matched text _ =>
      try ty <- typeFrom text in
      try v <- formatFrom ty (String.length text) in
      Ok (MkPart ty v)
  | NamedRegExp.NotMatched a => Ok (MkPart "literal" a)
  end.

Definition partsFrom (format : string) : Result (list Part) :=
  mapM part_from (NamedRegExp.iterate formatRegex format).

Definition is_option_key (ty : string) : bool :=
  existsb (String.eqb ty) ["year"; "month"; "day"; "weekday"].

Definition optionsFrom (parts : list Part) : Options :=
  foldl (fun a p => set_key (type p) (value p) a) []
        (filter (fun p => is_option_key (type p) = true) parts).

(** *** SimpleFormat and Formatters.create *)

(** What a formatter object offers to these sources. *)
Record Formatter := MkFormatter {
  fmt_format : Date -> Result string;
  fmt_formatToParts : Date -> Result (list Part)
}.

Definition valueFor (partsWithValues : list Part) (ty v : string) : Result string :=
  if String.eqb ty "literal" then Ok v else valueFromParts env partsWithValues ty.

Definition Simple_formatToParts (locale : string) (partsInOrder : list Part) (d : Date)
    : Result (list Part) :=
  try partsWithValues <-
    FormatToParts_formatToParts locale (optionsFrom partsInOrder) d in
  mapM (fun p =>
          try v <- valueFor partsWithValues (type p) (value p) in
          Ok (MkPart (type p) v)) partsInOrder.

Definition Simple_format (locale : string) (partsInOrder : list Part) (d : Date)
    : Result string :=
  try parts <- Simple_formatToParts locale partsInOrder d in
  Ok (joined parts).

(** [Formatters.create]: the constructors run when the formatter is made, so
    a template that [partsFrom] refuses, or options the host refuses, throw
    here. *)
Definition Formatters_create (locale : string) (options : FormatOrOptions)
    : Result Formatter :=
  match options with
  | AsFormat template =>
      try partsInOrder <- partsFrom template in
      Ok (MkFormatter (Simple_format locale partsInOrder)
                      (Simple_formatToParts locale partsInOrder))
  | AsOptions o =>
      try delegate <- create locale o in
      Ok (MkFormatter (Improved_format locale o) (Improved_formatToParts locale o))
  end.

(** [format(value, locale, options)] *)
Definition format (v : Date) (locale : string) (options : FormatOrOptions)
    : Result string :=
  try formatter <- Formatters_create locale options in
  fmt_format formatter v.

(** [formatData] *)
Definition formatData (v : Date) (locale : string) (options : Options) (native : bool)
    : Result (list Part) :=
  try formatter <- Formatters_create locale (AsOptions options) in
  if native then fmt_formatToParts formatter v
  else FormatToParts_formatToParts locale options v.

(** *** RegexBuilder and RegexParser *)

Record RegexBuilder := MkRegexBuilder {
  rb_locale : string;
  rb_options : Options;
  rb_formatted : list Part
}.

(** [OptionHandler]: from a match to a number. *)
Definition OptionHandler := Captures -> Result Num.

Record RegexGroups := MkRegexGroups {
  g_year : OptionHandler;
  g_month : OptionHandler;
  g_day : OptionHandler;
  g_weekday : OptionHandler
}.

Record RegexParser := MkRegexParser {
  rp_regex : re;
  rp_groups : RegexGroups;
  rp_locale : string
}.

Definition numeric (index : option nat) : OptionHandler :=
  fun m => Ok (parseInt (group_at index m)).

(** [lookup.parse(match[index]).number]; a lookup has nothing to resolve
    when the group is missing. *)
Definition parse_datum (parse : string -> Result Datum) (index : option nat)
    : OptionHandler :=
  fun m =>
    match group_at index m with
    | Some text => try d <- parse text in Ok (Int (number d))
    | None => Throw (MkError "TypeError: undefined")
    end.

Definition parseMonth (index : option nat) (lower : string -> string)
    (table : DatumLookup) : OptionHandler :=
  parse_datum (Months_parse lower table) index.

Definition parseWeekday (index : option nat) (lower : string -> string)
    (table : DatumLookup) : OptionHandler :=
  parse_datum (Weekdays_parse lower table) index.

(** [text.replace(' ', '\\s')]: the first space becomes [\s]. *)
Fixpoint replace_space (s : string) : string :=
  match s with
  | EmptyString => EmptyString
  | String c s' =>
      if Ascii.eqb c " " then String backslash (String "s" s')
      else String c (replace_space s')
  end.

(** [characters.join('')] *)
Fixpoint string_of (l : list ascii) : string :=
  match l with
  | [] => EmptyString
  | c :: l' => String c (string_of l')
  end.

(** What stands between the brackets of a separator in the parser's
    pattern:
    [unique(characters(part.value + ' ')).join('').replace(' ', '\\s')]. *)
Definition separator_chars (v : string) : string :=
  replace_space (string_of (unique [] (Str.characters (v +:+ " ")))).

(** [[chars]+?] *)
Definition separator (v : string) : re :=
  bracketed (separator_chars v) (Plus false).

Definition parser_piece (lower : string -> string) (months_table weekdays_table : DatumLookup)
    (part : Part) : re :=
  if String.eqb (type part) "year" then year_group
  else if String.eqb (type part) "month"
  then month_group (lookup_pattern_lower lower months_table)
  else if String.eqb (type part) "day" then day_group
  else if String.eqb (type part) "weekday"
  then weekday_group (lookup_pattern_lower lower weekdays_table)
  else separator (value part).

(** The parser [RegexBuilder.regexParser] makes of the pattern it wrote. *)
Definition regexParser (b : RegexBuilder) : RegexParser :=
  let lower := toLocaleLowerCase env (rb_locale b) in
  let months_table := Months_get env (rb_locale b) in
  let weekdays_table := Weekdays_get env (rb_locale b) in
  let pattern :=
    Seqs (map (parser_piece lower months_table weekdays_table) (rb_formatted b)) in
  let names := NamedRegExp.names pattern in
  MkRegexParser pattern
    (MkRegexGroups (numeric (names "year"))
                   (parseMonth (names "month") lower months_table)
                   (numeric (names "day"))
                   (parseWeekday (names "weekday") lower weekdays_table))
    (rb_locale b).

(** [RegexBuilder.regexParser]: [new RegExp(pattern)] comes before the
    parser. *)
Definition RegexBuilder_regexParser (b : RegexBuilder) : Result RegexParser :=
  try _ <- RegExp_new (rp_regex (regexParser b)) in
  Ok (regexParser b).

(** [date(groups.year(match), groups.month(match), groups.day(match))] *)
Definition assemble (g : RegexGroups) (m : Captures) : Result Date :=
  try y <- g_year g m in
  try mo <- g_month g m in
  try d <- g_day g m in
  Ok (date y mo d).

(** [RegexParser.parse] *)
Definition RegexParser_parse (p : RegexParser) (v : string) : Result Date :=
  let lower := toLocaleLowerCase env (rp_locale p) v in
  match exec (rp_regex p) lower with
  | None => Throw (MkError ("Locale " +:+ quote +:+ rp_locale p +:+ quote
                            +:+ " generated regex did not match " +:+ quote +:+ lower +:+ quote +:+ " "))
  | Some m => assemble (rp_groups p) m
  end.

(** [RegexParser.parseAll]: the loop over [regex.exec] with the global flag;
    every turn starts where the match before ended.  A match of at least
    one character shortens what is left, so [length lower + 1] turns see the
    loop to its end; the patterns of [regexParser] on at least one part only
    have such matches when no lookup is empty or has an empty name (a
    pattern that matched no characters would be found again forever). *)
Fixpoint parseAll_turns (fuel : nat) (p : RegexParser) (whole s : string)
    (result : list Date) : Result (list Date) :=
  match fuel with
  | 0 => Ok result
  | S fuel' =>
      match search_in (rp_regex p) whole "" s with
      | None => Ok result
      | Some f =>
          try d <- assemble (rp_groups p) (groups f) in
          parseAll_turns fuel' p whole (after f) (result ++ [d])
      end
  end.

Definition RegexParser_parseAll (p : RegexParser) (v : string) : Result (list Date) :=
  let lower := toLocaleLowerCase env (rp_locale p) v in
  parseAll_turns (S (String.length lower)) p lower lower [].

(** *** DateParser and CompositeDateParser *)

Record DateParser := MkDateParser {
  parse_ : string -> Result Date;
  parseAll_ : string -> Result (list Date)
}.

Definition RegexParser_asDateParser (p : RegexParser) : DateParser :=
  MkDateParser (RegexParser_parse p) (RegexParser_parseAll p).

Definition unable_to_parse (v : string) : Error :=
  MkError ("Unable to parse date: " +:+ v).

(** [CompositeDateParser.parse]: a [Date] is an object, so [if (result)]
    holds for every result. *)
Fixpoint Composite_parse (parsers : list DateParser) (v : string) : Result Date :=
  match parsers with
  | [] => Throw (unable_to_parse v)
  | parser :: rest =>
      match parse_ parser v with
      | Ok result => if Boolean_object result then Ok result else Composite_parse rest v
      | Throw ignore => Composite_parse rest v
      end
  end.

(** Modelled from the spec: [flatten] of ../arrays is not in the sources at
    hand; the spec has [parseAll] give the occurrences "across all candidate
    parsers concatenated". *)
Definition flatten {A} (l : list (list A)) : list A := concat l.

(** [CompositeDateParser.parseAll] *)
Definition Composite_parseAll (parsers : list DateParser) (v : string)
    : Result (list Date) :=
  try all <- mapM (fun p => parseAll_ p v) parsers in
  Ok (flatten all).

Definition parsers (l : list DateParser) : DateParser :=
  MkDateParser (Composite_parse l) (Composite_parseAll l).

(** *** parser, simpleParser, localeParser *)

Definition formatBuilder (locale format : string) : Result RegexBuilder :=
  try parts <- partsFrom format in
  Ok (MkRegexBuilder locale (optionsFrom parts) parts).

(** [RegexBuilder.create] *)
Definition RegexBuilder_create (locale : string) (options : FormatOrOptions)
    (native : bool) : Result RegexBuilder :=
  match options with
  | AsFormat format => formatBuilder locale format
  | AsOptions o =>
      try formatted <- formatData (now env) locale o native in
      Ok (MkRegexBuilder locale o formatted)
  end.

Definition defaultParserOptions : list FormatOrOptions :=
  [ AsOptions [("year", "numeric"); ("month", "long"); ("day", "numeric"); ("weekday", "long")];
    AsOptions [("year", "numeric"); ("month", "short"); ("day", "numeric"); ("weekday", "short")];
    AsOptions [("year", "numeric"); ("month", "numeric"); ("day", "numeric")];
    AsOptions [("year", "numeric"); ("month", "short"); ("day", "numeric")];
    AsOptions [("year", "numeric"); ("month", "long"); ("day", "numeric")];
    AsFormat "dd MMM yyyy" ].

Definition simpleParser (locale format : string) (native : bool) : Result DateParser :=
  try b <- RegexBuilder_create locale (AsFormat format) native in
  try p <- RegexBuilder_regexParser b in
  Ok (RegexParser_asDateParser p).

(** [localeParser] when [options] is given. *)
Definition localeParser_for (locale : string) (options : FormatOrOptions)
    (native : bool) : Result DateParser :=
  try b <- RegexBuilder_create locale options native in
  try p <- RegexBuilder_regexParser b in
  Ok (RegexParser_asDateParser p).

(** [!options]: no options, or the empty string. *)
Definition not_given (options : option FormatOrOptions) : bool :=
  match options with
  | None => true
  | Some (AsFormat f) => Str.is_empty f
  | Some (AsOptions _) => false
  end.

(** [localeParser]; every entry of [defaultParserOptions] is given, so the
    inner calls take the second branch. *)
Definition localeParser (locale : string) (options : option FormatOrOptions)
    (native : bool) : Result DateParser :=
  match options with
  | Some o =>
      if not_given options
      then try l <- mapM (fun o => localeParser_for locale o native) defaultParserOptions in
           Ok (parsers l)
      else localeParser_for locale o native
  | None =>
      try l <- mapM (fun o => localeParser_for locale o native) defaultParserOptions in
      Ok (parsers l)
  end.

Definition parser (locale : string) (options : option FormatOrOptions) (native : bool)
    : Result DateParser :=
  match options with
  | Some (AsFormat format) => simpleParser locale format native
  | _ => localeParser locale options native
  end.

(** [parse(value, locale, options, native)] *)
Definition parse (v : string) (locale : string) (options : option FormatOrOptions)
    (native : bool) : Result Date :=
  try p <- parser locale options native in
  parse_ p v.

End WithEnv.

End Dates.

(* ===================================================================== *)
(** ** Money *)
(* ===================================================================== *)

Module Money.
Import RegExp JS.

(** A value that may be [undefined]. *)
Inductive Value :=
| Number (z : Z)
| Undefined.

(** [Currency] of ./currencies-def: the decimal places and the extra
    symbols of a currency. *)
Record Currency := MkCurrency { decimals : Z; symbols : list string }.

(** [Currencies]: the generated table, from ISO code to currency. *)
Definition Currencies := gmap string Currency.

(** What [table[code]] finds: an entry of the table itself, a member every
    object inherits, or nothing. *)
Inductive Property :=
| Own (c : Currency)
| Inherited
| Missing.

Definition inherited_names : list string :=
  ["constructor"; "hasOwnProperty"; "isPrototypeOf"; "propertyIsEnumerable";
   "toLocaleString"; "toString"; "valueOf"; "__proto__";
   "__defineGetter__"; "__defineSetter__"; "__lookupGetter__"; "__lookupSetter__"].

Definition get (currencies : Currencies) (code : string) : Property :=
  match currencies !! code with
  | Some c => Own c
  | None => if existsb (String.eqb code) inherited_names then Inherited else Missing
  end.

(** [decimalsFor]: [currency ? currency.decimals : 2] *)
Definition decimalsFor (currencies : Currencies) (code : string) : Value :=
  match get currencies code with
  | Own currency => Number (decimals currency)
  | Inherited => Undefined
  | Missing => Number 2
  end.

(** The options [Formatter.create] hands to [Intl.NumberFormat]. *)
Record NumberFormatOptions := MkNumberFormatOptions {
  currencyDisplay : string;
  currency : string;
  style : string;
  minimumFractionDigits : Value;
  maximumFractionDigits : Value
}.

Definition Formatter_options (currencies : Currencies) (code : string)
    (display : string) : NumberFormatOptions :=
  MkNumberFormatOptions display code "currency" (Number 0) (decimalsFor currencies code).

Section WithHost.
(** Amounts are the host's numbers. *)
Context {Amount : Type}.

(** An [Intl.NumberFormat]. *)
Record NumberFormat := MkNumberFormat {
  nf_format : Amount -> string;
  nf_formatToParts : option (Amount -> list Part)
}.

(** The host's [Intl.NumberFormat] constructor, the generated table and the
    pattern of the currency names and symbols of a locale
    ([CurrencySymbols.get(locale).pattern]). *)
Record Env := MkEnv {
  NumberFormat_new : option string -> NumberFormatOptions -> NumberFormat;
  currencies : Currencies;
  currency_pattern : option string -> re;
  exampleAmount : Amount
}.

Variable env : Env.

(** [Formatter.create] *)
Definition Formatter_create (code : string) (locale : option string) (display : string)
    : NumberFormat :=
  NumberFormat_new env locale (Formatter_options (currencies env) code display).

(** *** IntegerGroupParser *)

Definition type_error : Error := MkError "TypeError".

Definition integer_or_group (v : NamedRegExp.MatchOrNot) : Result Part :=
  match v with
  | NamedRegExp.Matched _ m =>
      match m with
      | first :: _ => Ok (MkPart "integer" (mvalue first))
      | [] => Throw type_error
      end
  | NamedRegExp.NotMatched text => Ok (MkPart "group" text)
  end.

Definition IntegerGroupParser_parse (regex : re) (v : string) : Result (list Part) :=
  mapM integer_or_group (NamedRegExp.iterate regex v).

(** [(?<integer>\d+)] and [(?<integer>i+)] *)
Definition digits : re := Group "integer" (Plus true Digit).
Definition integerFormat : re := Group "integer" (Plus true (Text "i")).

(** *** PartsFromFormat *)

Definition part_of (m : NamedMatch) : Part := MkPart (name m) (mvalue m).

(** One step of the [flatMap] in [PartsFromFormat.parse]. *)
Definition parts_of_match (integerGroupParser : re) (v : NamedRegExp.MatchOrNot)
    : Result (list Part) :=
  match v with
  | NamedRegExp.Matched _ m =>
      match filter (fun n => Boolean_string (mvalue n) = true) m with
      | [] => Throw type_error
      | integerGroupOrCurrency :: rest =>
          if String.eqb (name integerGroupOrCurrency) "currency"
          then Ok [part_of integerGroupOrCurrency]
          else
            try integerAndGroups <-
              IntegerGroupParser_parse integerGroupParser (mvalue integerGroupOrCurrency) in
            match rest with
            | [] => Ok integerAndGroups
            | [decimal] => Throw type_error
            | decimal :: fractions :: _ =>
                Ok (integerAndGroups ++ [part_of decimal; part_of fractions])
            end
      end
  | NamedRegExp.NotMatched text => Ok [MkPart "literal" text]
  end.

Definition PartsFromFormat_parse (formatRegex integerGroupParser : re) (format : string)
    : Result (list Part) :=
  try l <- mapM (parts_of_match integerGroupParser) (NamedRegExp.iterate formatRegex format) in
  Ok (concat l).

(** [PartsFromFormat.format]:
    [(?:(?<integer-group>(?:i.*i|i))(?<decimal>[^f])(?<fraction>f+)|(?<currency>C+))] *)
Definition format_regex : re :=
  Alt (Seq (Group "integer-group"
              (Alt (Seq (Text "i") (Seq (Star true Any) (Text "i"))) (Text "i")))
           (Seq (Group "decimal" (Class true [IChar "f"]))
                (Group "fraction" (Plus true (Text "f")))))
      (Group "currency" (Plus true (Text "C"))).

Definition PartsFromFormat_format (format : string) : Result (list Part) :=
  PartsFromFormat_parse format_regex integerFormat format.

(** [PartsFromFormat.examplePattern(locale)]:
    [(?:(?<integer-group>1.*2)(?:(?<decimal>.)(?<fraction>3+))?|(?<currency>...))] *)
Definition example_regex (locale : option string) : re :=
  Alt (Seq (Group "integer-group" (Seq (Text "1") (Seq (Star true Any) (Text "2"))))
           (Opt (Seq (Group "decimal" Any) (Group "fraction" (Plus true (Text "3"))))))
      (Group "currency" (currency_pattern env locale)).

Definition PartsFromFormat_example (locale : option string) (formatted : string)
    : Result (list Part) :=
  PartsFromFormat_parse (example_regex locale) digits formatted.

(** *** Spaces and RegexBuilder *)

(** [Spaces.codes]: the space, the no-break space and the narrow no-break
    space; of the last, a character beyond the 8-bit ones, this model has no
    copy. *)
Definition Spaces_codes : list string :=
  [String (ascii_of_nat 32) EmptyString; String (ascii_of_nat 160) EmptyString].

Definition Spaces_spaces : string := Str.join Spaces_codes.

Definition Spaces_handle (v : string) : string :=
  if existsb (String.eqb v) Spaces_codes then Spaces_spaces else v.

(** [dedupe(by('type'))] of ../transducers: of neighbours of one type the
    first stays. *)
Fixpoint dedupe_by_type (l : list Part) : list Part :=
  match l with
  | [] => []
  | p :: rest =>
      match rest with
      | [] => [p]
      | q :: _ =>
          if String.eqb (type p) (type q)
          then p :: List.tl (dedupe_by_type rest)
          else p :: dedupe_by_type rest
      end
  end.

(** [\d], as text before what comes between the brackets. *)
Definition digit_text : string := String backslash "d".

Definition money_piece (locale : option string) (group : string) (part : Part) : re :=
  if String.eqb (type part) "currency" then
    Group "currency" (currency_pattern env locale)
  else if String.eqb (type part) "decimal" then
    Group "decimal" (bracketed (value part) Opt)
  else if String.eqb (type part) "fraction" then
    Group "fraction" (Star true Digit)
  else if String.eqb (type part) "integer" then
    Group "integer-group"
      (Seq (bracketed (digit_text +:+ Spaces_handle group) (Star true))
           (Plus true Digit))
  else
    Group (type part) (bracketed (value part +:+ " ") Opt).

(** [RegexBuilder.buildFrom] *)
Definition buildFrom (parts : list Part) (locale : option string) : re :=
  let group :=
    match map value (filter (fun p => String.eqb (type p) "group" = true) parts) with
    | g :: _ => g
    | [] => ""
    end in
  let noGroups :=
    dedupe_by_type (filter (fun p => String.eqb (type p) "group" = false) parts) in
  Seq (Seqs (map (money_piece locale group) noGroups))
      (LookAhead (Alt (Class false [ISpace]) AtEnd)).

(** *** NumberFormatPartParser *)

(** One step of the [flatMap] in [convert]. *)
Definition convert_match (m : NamedMatch) : Result (list Part) :=
  if String.eqb (name m) "integer-group"
  then IntegerGroupParser_parse digits (mvalue m)
  else Ok [part_of m].

(** [NumberFormatPartParser.convert] *)
Definition convert (matches : list NamedMatch) : Result (list Part) :=
  try l <- mapM convert_match
             (filter (fun m => Boolean_string (mvalue m) = true) matches) in
  Ok (concat l).

(** Modelled from the spec: [namedRegexParser] and [mappingParser] of
    ../parsing are not in the sources at hand.  The spec (4.3) has the match
    of a pattern fail "with NoMatch carrying the offending text", and the
    mapping parser hands the match on to its function. *)
Definition NumberFormatPartParser_parse (pattern : re) (text : string)
    : Result (list Part) :=
  try regex <- NamedRegExp.create pattern in
  match NamedRegExp.match_ regex text with
  | None => Throw (MkError ("NoMatch: " +:+ text))
  | Some m => convert m
  end.

(** [FormatToParts.create(currency, locale, display).format(amount)], the
    emulation behind [formatToPartsPonyfill]. *)
Definition FormatToParts_format (code : string) (locale : option string) (display : string)
    (amount : Amount) : Result (list Part) :=
  let formatter := Formatter_create code locale display in
  let exampleFormatted := nf_format formatter (exampleAmount env) in
  try exampleParts <- PartsFromFormat_example locale exampleFormatted in
  let genericPattern := buildFrom exampleParts locale in
  NumberFormatPartParser_parse genericPattern (nf_format formatter amount).

(** [partsFrom(money, locale, display)] *)
Definition partsFrom (code : string) (amount : Amount) (locale : option string)
    (display : string) : Result (list Part) :=
  match nf_formatToParts (Formatter_create code locale display) with
  | Some formatToParts => Ok (formatToParts amount)
  | None => FormatToParts_format code locale display amount
  end.


(** [Options] of money: the format template, when there is one. *)
Record Options := MkOptions { format : option string }.

(** [RegexBuilder.buildPattern]; the example money is GBP 111222.3333. *)
Definition buildPattern (locale : option string) : Result re :=
  try parts <- partsFrom "GBP" (exampleAmount env) locale "code" in
  Ok (buildFrom parts locale).

(** [RegexBuilder.buildFromOptions]: [options && options.format] holds for
    a template that is not empty; [buildFrom] is then called without the
    locale. *)
Definition buildFromOptions (locale : option string) (options : option Options)
    : Result re :=
  match options with
  | Some (MkOptions (Some template)) =>
      if Boolean_string template
      then try parts <- PartsFromFormat_format template in Ok (buildFrom parts None)
      else buildPattern locale
  | _ => buildPattern locale
  end.

(** [NumberFormatPartParser.create(locale, options).parse(text)] *)
Definition parseToParts_with (locale : option string) (options : option Options)
    (text : string) : Result (list Part) :=
  try pattern <- buildFromOptions locale options in
  NumberFormatPartParser_parse pattern text.

End WithHost.

End Money.

(* ===================================================================== *)
(** ** A host to run the examples on *)
(* ===================================================================== *)

(** A small host that writes dates the way the host locale data do for
    en-GB ("25/01/2019", "25 Jan 2019", "Fri, 25 Jan 2019"), with the
    English name tables; its constructor leaves the options it is handed
    alone, and its lower-casing is that of the letters A to Z, for every
    locale. *)
Module EnGB.
Import Dates JS.

Definition lower_char (c : ascii) : ascii :=
  let n := nat_of_ascii c in
  if (65 <=? n) && (n <=? 90) then ascii_of_nat (n + 32) else c.

Fixpoint lower (s : string) : string :=
  match s with
  | EmptyString => EmptyString
  | String c s' => String (lower_char c) (lower s')
  end.

Definition long_months : list string :=
  ["January"; "February"; "March"; "April"; "May"; "June"; "July"; "August";
   "September"; "October"; "November"; "December"].

Definition short_months : list string :=
  ["Jan"; "Feb"; "Mar"; "Apr"; "May"; "Jun"; "Jul"; "Aug"; "Sep"; "Oct"; "Nov"; "Dec"].

Definition long_weekdays : list string :=
  ["Monday"; "Tuesday"; "Wednesday"; "Thursday"; "Friday"; "Saturday"; "Sunday"].

Definition short_weekdays : list string :=
  ["Mon"; "Tue"; "Wed"; "Thu"; "Fri"; "Sat"; "Sun"].

Fixpoint numbered (from : Z) (names : list string) : DatumLookup :=
  match names with
  | [] => []
  | n :: names' => MkDatum n from :: numbered (from + 1) names'
  end.

Definition option_of (key : string) (o : Options) : option string :=
  snd <$> find (fun kv => String.eqb (fst kv) key) o.

Definition two (n : Z) : string :=
  if (n <? 10)%Z then "0" +:+ pretty n else pretty n.

(** Days since 1970-01-01 of a date of the proleptic Gregorian calendar. *)
Definition days_from_civil (y m d : Z) : Z :=
  let y := (if m <=? 2 then y - 1 else y)%Z in
  let era := (y / 400)%Z in
  let yoe := (y - era * 400)%Z in
  let doy := ((153 * (if m >? 2 then m - 3 else m + 9) + 2) / 5 + d - 1)%Z in
  let doe := (yoe * 365 + yoe / 4 - yoe / 100 + doy)%Z in
  (era * 146097 + doe - 719468)%Z.

(** 0 for Monday up to 6 for Sunday. *)
Definition weekday_index (y m d : Z) : nat :=
  Z.to_nat ((days_from_civil y m d + 3) mod 7).

Definition textual (o : Options) : bool :=
  match option_of "month" o with
  | Some v => String.eqb v "long" || String.eqb v "short"
  | None => false
  end.

Definition month_names (o : Options) : list string :=
  match option_of "month" o with
  | Some v =>
      if String.eqb v "long" then long_months
      else if String.eqb v "short" then short_months
      else if String.eqb v "2-digit" then map two [1; 2; 3; 4; 5; 6; 7; 8; 9; 10; 11; 12]%Z
      else map pretty [1; 2; 3; 4; 5; 6; 7; 8; 9; 10; 11; 12]%Z
  | None => long_months
  end.

Definition weekday_names (o : Options) : list string :=
  match option_of "weekday" o with
  | Some v => if String.eqb v "short" then short_weekdays else long_weekdays
  | None => long_weekdays
  end.

Definition parts_of (o : Options) (d : Date) : list Part :=
  match d with
  | InvalidDate => [MkPart "literal" "Invalid Date"]
  | MkDate y m dd =>
      let separator := if textual o then " " else "/" in
      let weekday :=
        match option_of "weekday" o with
        | Some _ => [MkPart "weekday" (default "" (weekday_names o !! weekday_index y m dd));
                     MkPart "literal" ", "]
        | None => []
        end in
      let day :=
        match option_of "day" o with
        | Some v => [MkPart "day" (if textual o && String.eqb v "numeric" then pretty dd else two dd);
                     MkPart "literal" separator]
        | None => []
        end in
      let month :=
        match option_of "month" o with
        | Some v =>
            [MkPart "month" (if textual o then default "" (month_names o !! Z.to_nat (m - 1)) else two m)]
        | None => []
        end in
      let year :=
        match option_of "year" o with
        | Some v => [MkPart "literal" separator;
                     MkPart "year" (if String.eqb v "2-digit" then two (y mod 100) else pretty y)]
        | None => []
        end in
      weekday ++ day ++ month ++ year
  end.

Definition formatter (native : bool) (o : Options) : DateTimeFormat :=
  MkDateTimeFormat (fun d => joined (parts_of o d))
                   (if native then Some (parts_of o) else None).

Definition first_of_type (parts : list Part) (ty : string) : Result string :=
  match find (fun p => String.eqb (type p) ty) parts with
  | Some p => Ok (value p)
  | None => Throw (MkError ("No part of type " +:+ ty))
  end.

Definition env (native : bool) : Env :=
  MkEnv (fun locale o => Ok (o, formatter native o))
        (fun locale => lower)
        native
        (MkDate 2019 1 25)
        [("year", "numeric"); ("month", "long"); ("day", "numeric"); ("weekday", "long")]
        (fun locale => numbered 1 long_months ++ numbered 1 short_months)
        (fun locale => numbered 1 long_weekdays ++ numbered 1 short_weekdays)
        (fun locale o => numbered 1 (month_names o))
        (fun locale o => numbered 1 (weekday_names o))
        (fun locale o => month_names o)
        (fun locale o => weekday_names o)
        first_of_type.

Definition numeric_options : Options :=
  [("year", "numeric"); ("month", "numeric"); ("day", "numeric")].

Definition short_options : Options :=
  [("day", "numeric"); ("year", "numeric"); ("month", "short"); ("weekday", "short")].

(** The parser for the default options of the example host. *)
Definition default_parser : Result DateParser := parser (env true) "en-GB" None true.

(** The parser for the short month names, as the schema of 25 January 2019
    makes it. *)
Definition short_parser : RegexParser :=
  regexParser (env true)
    (MkRegexBuilder "en-GB" [("year", "numeric"); ("month", "short"); ("day", "numeric")]
       [MkPart "day" "25"; MkPart "literal" " "; MkPart "month" "Jan";
        MkPart "literal" " "; MkPart "year" "2019"]).

(** The builder for the options with a weekday. *)
Definition weekday_builder : RegexBuilder :=
  MkRegexBuilder "en-GB" short_options
    [MkPart "weekday" "Fri"; MkPart "literal" ", "; MkPart "day" "25";
     MkPart "literal" " "; MkPart "month" "Jan"; MkPart "literal" " ";
     MkPart "year" "2019"].

End EnGB.

(** A host that writes dates the way the host locale data do for es-ES
    with a long month, "25 de enero de 2019", whatever the options. *)
Module EsES.
Import Dates JS.

Definition long_months : list string :=
  ["enero"; "febrero"; "marzo"; "abril"; "mayo"; "junio"; "julio"; "agosto";
   "septiembre"; "octubre"; "noviembre"; "diciembre"].

Definition long_weekdays : list string :=
  ["lunes"; "martes"; "miercoles"; "jueves"; "viernes"; "sabado"; "domingo"].

Definition parts_of (d : Date) : list Part :=
  match d with
  | InvalidDate => [MkPart "literal" "Invalid Date"]
  | MkDate y m dd =>
      [MkPart "day" (pretty dd); MkPart "literal" " de ";
       MkPart "month" (default "" (long_months !! Z.to_nat (m - 1)));
       MkPart "literal" " de "; MkPart "year" (pretty y)]
  end.

Definition formatter (native : bool) : DateTimeFormat :=
  MkDateTimeFormat (fun d => joined (parts_of d))
                   (if native then Some parts_of else None).

Definition env (native : bool) : Env :=
  MkEnv (fun locale o => Ok (o, formatter native))
        (fun locale => EnGB.lower)
        native
        (MkDate 2019 1 25)
        [("year", "numeric"); ("month", "long"); ("day", "numeric")]
        (fun locale => EnGB.numbered 1 long_months)
        (fun locale => EnGB.numbered 1 long_weekdays)
        (fun locale o => EnGB.numbered 1 long_months)
        (fun locale o => EnGB.numbered 1 long_weekdays)
        (fun locale o => long_months)
        (fun locale o => long_weekdays)
        EnGB.first_of_type.

Definition long_options : Options :=
  [("year", "numeric"); ("month", "long"); ("day", "numeric")].

End EsES.

(** A host that writes narrow names, "M 4 M 2019" for Monday the 4th of
    March 2019: a weekday and a month can have one name.  It has no
    [formatToParts]. *)
Module Narrow.
Import Dates JS.

Definition narrow_months : list string :=
  ["J"; "F"; "M"; "A"; "M"; "J"; "J"; "A"; "S"; "O"; "N"; "D"].

Definition narrow_weekdays : list string := ["M"; "T"; "W"; "T"; "F"; "S"; "S"].

Definition text_of (d : Date) : string :=
  match d with
  | InvalidDate => "Invalid Date"
  | MkDate y m dd =>
      default "" (narrow_weekdays !! EnGB.weekday_index y m dd) +:+ " " +:+ pretty dd
      +:+ " " +:+ default "" (narrow_months !! Z.to_nat (m - 1)) +:+ " " +:+ pretty y
  end.

Definition env : Env :=
  MkEnv (fun locale o => Ok (o, MkDateTimeFormat text_of None))
        (fun locale => EnGB.lower)
        false
        (MkDate 2019 1 25)
        [("year", "numeric"); ("month", "long"); ("day", "numeric"); ("weekday", "long")]
        (fun locale => EnGB.numbered 1 narrow_months)
        (fun locale => EnGB.numbered 1 narrow_weekdays)
        (fun locale o => EnGB.numbered 1 narrow_months)
        (fun locale o => EnGB.numbered 1 narrow_weekdays)
        (fun locale o => narrow_months)
        (fun locale o => narrow_weekdays)
        EnGB.first_of_type.

Definition options : Options :=
  [("weekday", "narrow"); ("day", "numeric"); ("month", "narrow"); ("year", "numeric")].

End Narrow.

(** A host with the flaw the source means to detect: its constructor
    removes from the options object it is handed the keys it does not
    support, here [weekday]. *)
Module OldHost.
Import Dates.

Definition supported (kv : string * string) : bool :=
  negb (String.eqb (fst kv) "weekday").

Definition env : Env :=
  MkEnv (fun locale o =>
           Ok (List.filter supported o, EnGB.formatter false (List.filter supported o)))
        (toLocaleLowerCase (EnGB.env false))
        false
        (MkDate 2019 1 25)
        (defaultOptions (EnGB.env false))
        (Months_get (EnGB.env false))
        (Weekdays_get (EnGB.env false))
        (Months_dataFor (EnGB.env false))
        (Weekdays_dataFor (EnGB.env false))
        (months (EnGB.env false))
        (weekdays (EnGB.env false))
        (valueFromParts (EnGB.env false)).

End OldHost.

(** A money environment for the examples: amounts in whole units, a host
    without [formatToParts], and a few currencies. *)
Module MoneyExample.
Import Money RegExp.

Definition table : Currencies :=
  <["GBP" := MkCurrency 2 []]> (<["JPY" := MkCurrency 0 []]> (<["BHD" := MkCurrency 3 []]> ∅)).

Definition env : @Env Z :=
  MkEnv (fun locale o =>
           MkNumberFormat (fun amount => currency o +:+ " " +:+ pretty amount) None)
        table
        (fun locale => Alts [Text "GBP"; Text "JPY"; Text "BHD"])
        111222%Z.

End MoneyExample.

(** A money host that writes a debt with the sign in front, "-GBP 5", as
    the host locale data do for en-GB, and that has [formatToParts] or has
    it not. *)
Module Ledger.
Import Money RegExp.

Definition sign (amount : Z) : string := if (amount <? 0)%Z then "-" else "".

Definition text_of (code : string) (amount : Z) : string :=
  sign amount +:+ code +:+ " " +:+ pretty (Z.abs amount).

Definition parts_of (code : string) (amount : Z) : list Part :=
  (if (amount <? 0)%Z then [MkPart "minusSign" "-"] else [])
  ++ [MkPart "currency" code; MkPart "literal" " ";
      MkPart "integer" (pretty (Z.abs amount))].

Definition env (native : bool) : @Env Z :=
  MkEnv (fun locale o =>
           MkNumberFormat (text_of (currency o))
                          (if native then Some (parts_of (currency o)) else None))
        MoneyExample.table
        (fun locale => Alts [Text "GBP"; Text "JPY"; Text "BHD"])
        111222%Z.

End Ledger.

(* ===================================================================== *)
(** ** Notions the statements use *)
(* ===================================================================== *)

Module Spec.
Import RegExp JS Dates.

(** What the inner loop of [collapseLiterals] does to the elements after
    [current]: the literals at the front are taken into its value. *)
Fixpoint absorb (v : string) (rest : list Part) : string * list Part :=
  match rest with
  | next :: rest' =>
      if is_literal next then absorb (v +:+ value next) rest' else (v, rest)
  | [] => (v, [])
  end.

Definition head_literal (l : list Part) : bool :=
  match l with
  | [] => false
  | q :: _ => is_literal q
  end.

(** A call that returned. *)
Definition returned {A} (r : Result A) : bool :=
  match r with
  | Ok _ => true
  | Throw _ => false
  end.

Definition throws {A} (r : Result A) : Prop := exists e, r = Throw e.

(** The label of a captured token, in the words of the spec (4.2): a token
    of the month or the weekday group is a month when the months of the
    locale resolve it, else a weekday when the weekdays resolve it, else a
    literal; a token of another group has the name of its group. *)
Definition label (lower : string -> string) (months_table weekdays_table : DatumLookup)
    (c : NamedMatch) : string :=
  if String.eqb (name c) "month" || String.eqb (name c) "weekday" then
    if returned (Months_parse lower months_table (mvalue c)) then "month"
    else if returned (Weekdays_parse lower weekdays_table (mvalue c)) then "weekday"
    else "literal"
  else name c.

Definition labelled (lower : string -> string) (months_table weekdays_table : DatumLookup)
    (c : NamedMatch) : Part :=
  MkPart (label lower months_table weekdays_table c) (mvalue c).

(** The occurrences of a pattern in a text, one after the other: the first
    is the leftmost match in the text, every other the leftmost match in
    what the one before it left, so no two overlap; each takes at least one
    character; after the last there is no match.  An occurrence is given by
    its captures. *)
Inductive occurrences (r : re) (whole : string) : string -> list Captures -> Prop :=
| occurrences_end (s : string) :
    (forall skipped rest, s = skipped +:+ rest -> match_at r whole rest = None) ->
    occurrences r whole s []
| occurrences_next (skipped here rest : string) (m : Captures) (ms : list Captures) :
    (forall front back,
       skipped = front +:+ back -> back <> EmptyString ->
       match_at r whole (back +:+ here +:+ rest) = None) ->
    match_at r whole (here +:+ rest) = Some (m, rest) ->
    here <> EmptyString ->
    occurrences r whole rest ms ->
    occurrences r whole (skipped +:+ here +:+ rest) (m :: ms).

(** Two matches of one pattern that differ at most in the groups named
    [n]. *)
Fixpoint differ_only_in (n : string) (names : list string) (m1 m2 : Captures) : bool :=
  match names, m1, m2 with
  | [], [], [] => true
  | x :: names', c1 :: m1', c2 :: m2' =>
      (String.eqb x n || String.eqb (mvalue c1) (mvalue c2))
      && differ_only_in n names' m1' m2'
  | _, _, _ => false
  end.

(** A pattern without capture groups. *)
Fixpoint plain (r : re) : bool :=
  match r with
  | Seq a b | Alt a b => plain a && plain b
  | Star _ a | LookAhead a => plain a
  | Group _ _ => false
  | _ => true
  end.

(** A pattern that is a sequence of capture groups, each around a pattern
    without groups: every character it matches lies in exactly one group. *)
Fixpoint tiled (r : re) : bool :=
  match r with
  | Eps | AtStart | AtEnd => true
  | LookAhead a => plain a
  | Group _ a => plain a
  | Seq a b => tiled a && tiled b
  | _ => false
  end.

(** [s'] is what is left of [s] after some front part. *)
Definition suffix_of (s' s : string) : Prop := exists front, s = front +:+ s'.

(** The text of a step of [iterate]. *)
Definition text_of (v : NamedRegExp.MatchOrNot) : string :=
  match v with
  | NamedRegExp.NotMatched t => t
  | NamedRegExp.Matched t _ => t
  end.

(** The parts of a money template that stand for runs of a sentinel
    character: C for the currency, i for the integer, f for the fraction. *)
Definition sentinel (ty : string) : bool :=
  String.eqb ty "currency" || String.eqb ty "integer" || String.eqb ty "fraction".

(** Two parts that differ at most in how long a sentinel run is. *)
Definition alike (p q : Part) : Prop :=
  type p = type q /\ (sentinel (type p) = false -> value p = value q).

(** The leftmost match of a pattern in a text goes from the first to the
    last character of the text. *)
Definition covers (r : re) (text : string) : bool :=
  match search_in r text "" text with
  | Some f => Str.is_empty (before f) && Str.is_empty (after f)
  | None => false
  end.

(** *** What a round trip needs

    The parser's pattern is made from the parts of one date (the schema);
    a text goes back to its date when it is laid out like the schema, token
    by token, and the pattern reads every token where it stands. *)

Definition is_field (ty : string) : bool :=
  existsb (String.eqb ty) ["year"; "month"; "day"; "weekday"].

(** The names of a table as the parser's pattern has them, in its
    order. *)
Definition lowered (lower : string -> string) (table : DatumLookup) : list string :=
  map lower (pattern_names table).

(** The alternatives of a pattern of names: an alternation of no name is
    the empty pattern. *)
Definition alternatives (names : list string) : list string :=
  match names with
  | [] => [EmptyString]
  | _ :: _ => names
  end.

Definition is_prefix (n s : string) : bool :=
  match Str.strip_prefix n s with
  | Some _ => true
  | None => false
  end.

(** Some name stands at the front of the text. *)
Definition name_at (names : list string) (s : string) : bool :=
  existsb (fun n => is_prefix n s) (alternatives names).

(** The token is the first name of the pattern that stands where the token
    stands. *)
Definition first_name (names : list string) (t rest : string) : bool :=
  match find (fun n => is_prefix n (t +:+ rest)) (alternatives names) with
  | Some n => String.eqb n t
  | None => false
  end.

Definition digit_led (u : string) : bool :=
  match u with
  | String c _ => is_digit c
  | EmptyString => false
  end.

(** The class the separator of a schema makes in the parser's pattern, when
    its characters make one class. *)
Definition separator_items (v : string) : option (bool * list item) :=
  match read_class (separator_chars v) with
  | Closed negated items => Some (negated, items)
  | _ => None
  end.

(** The separator of a part makes one class. *)
Definition one_class (q : Part) : Prop :=
  is_field (type q) = false -> separator_items (value q) <> None.

Definition in_separator (v : string) (c : ascii) : bool :=
  match separator_items v with
  | Some (negated, items) => xorb negated (in_class c items)
  | None => false
  end.

(** The piece of a part can begin a match at the front of the text. *)
Definition can_start (months_names weekdays_names : list string) (part : Part)
    (s : string) : bool :=
  if String.eqb (type part) "year" then digit_led s
  else if String.eqb (type part) "month" then digit_led s || name_at months_names s
  else if String.eqb (type part) "day" then digit_led s
  else if String.eqb (type part) "weekday" then name_at weekdays_names s
  else match s with
       | String c _ => in_separator (value part) c
       | EmptyString => false
       end.

Definition has (ty : string) (parts : list Part) : bool :=
  existsb (fun p => String.eqb (type p) ty) parts.

(** A schema with a year, a month and a day. *)
Definition dated (parts : list Part) : bool :=
  has "year" parts && has "month" parts && has "day" parts.

Definition nonempty {A} (l : list A) : bool :=
  match l with
  | [] => false
  | _ :: _ => true
  end.

(** A decimal numeral of [z]. *)
Definition numeral (t : string) (z : Z) : bool :=
  negb (Str.is_empty t)
  && forallb is_digit (Str.characters t)
  && match read_digits 10 digit_value None t with
     | Some v => Z.eqb v z
     | None => false
     end.

Definition resolves_to (lower : string -> string) (months_table : DatumLookup)
    (t : string) (m : Z) : bool :=
  match Months_parse lower months_table t with
  | Ok d => Z.eqb (number d) m
  | Throw _ => false
  end.

(** One or two digits that [\d{1,2}] takes as they stand: a single digit
    has no digit after it. *)
Definition short_numeral (t rest : string) (z : Z) : bool :=
  numeral t z
  && ((String.length t =? 2) || ((String.length t =? 1) && negb (digit_led rest))).

(** What is left of a text after each of its characters but the last. *)
Fixpoint inner_tails (t : string) : list string :=
  match t with
  | String _ t' =>
      match t' with
      | EmptyString => []
      | String _ _ => t' :: inner_tails t'
      end
  | EmptyString => []
  end.

(** A token of the lower-cased text that the piece of its part reads where
    it stands, before [rest] and the piece of [next]: the year in four
    digits; the day in one or two; the month in one or two digits, or as the
    first name of the pattern that stands there, which resolves to the
    month; the weekday as the first name that stands there; a separator as
    characters of the class of the schema's separator, inside of which the
    next piece cannot begin. *)
Definition token_ok (lower : string -> string) (months_table weekdays_table : DatumLookup)
    (y m d : Z) (part : Part) (next : option Part) (t rest : string) : bool :=
  let months_names := lowered lower months_table in
  let weekdays_names := lowered lower weekdays_table in
  if String.eqb (type part) "year" then
    (String.length t =? 4) && numeral t y
  else if String.eqb (type part) "month" then
    short_numeral t rest m
    || (negb (digit_led (t +:+ rest)) && first_name months_names t rest
        && resolves_to lower months_table t m)
  else if String.eqb (type part) "day" then
    short_numeral t rest d
  else if String.eqb (type part) "weekday" then
    first_name weekdays_names t rest
  else
    negb (Str.is_empty t)
    && forallb (in_separator (value part)) (Str.characters t)
    && match next with
       | Some q =>
           forallb (fun u => negb (can_start months_names weekdays_names q (u +:+ rest)))
                   (inner_tails t)
       | None => true
       end.

Fixpoint reads (lower : string -> string) (months_table weekdays_table : DatumLookup)
    (y m d : Z) (parts : list Part) (tokens : list string) : bool :=
  match parts, tokens with
  | [], [] => true
  | p :: parts', t :: tokens' =>
      token_ok lower months_table weekdays_table y m d p (head parts') t (Str.join tokens')
      && reads lower months_table weekdays_table y m d parts' tokens'
  | _, _ => false
  end.

(** The captures of the match the parser is meant to find. *)
Fixpoint captures (parts : list Part) (tokens : list string) : Captures :=
  match parts, tokens with
  | p :: parts', t :: tokens' =>
      (if is_field (type p) then [MkMatch (type p) t] else []) ++ captures parts' tokens'
  | _, _ => []
  end.

(** A pattern every match of which takes at least one character. *)
Fixpoint consuming (r : re) : bool :=
  match r with
  | Any | Class _ _ => true
  | Text w => negb (Str.is_empty w)
  | Seq a b => consuming a || consuming b
  | Alt a b => consuming a && consuming b
  | Group _ a => consuming a
  | Eps | Star _ _ | AtStart | AtEnd | LookAhead _ => false
  | Invalid _ | Unread => true
  end.

(** A lookup with a name, and no empty one. *)
Definition named (lower : string -> string) (table : DatumLookup) : bool :=
  nonempty table && forallb (fun n => negb (Str.is_empty n)) (lowered lower table).

(** The continuation at the end of a match. *)
Definition at_end (s' : string) (cs' : Captures) : option (Captures * string) :=
  Some (cs', s').

(** What a capture of the intended match says about the date. *)
Definition capture_ok (lower : string -> string) (months_table : DatumLookup) (y m d : Z)
    (c : NamedMatch) : Prop :=
  (name c = "year" -> parseInt (Some (mvalue c)) = Int y)
  /\ (name c = "month" ->
      exists dm, Months_parse lower months_table (mvalue c) = Ok dm /\ number dm = m)
  /\ (name c = "day" -> parseInt (Some (mvalue c)) = Int d).

End Spec.
(* ===================================================================== *)
(** ** Money: from parts to money *)
(* ===================================================================== *)

Module MoneyParse.
Import JS.

Section WithSymbols.
(** Amounts are the host's numbers; a match strategy is handed on to the
    lookup as it comes. *)
Context {Amount Strategy : Type}.

(** [Money] and [money(currency, amount)] *)
Record Money := MkMoney { m_currency : string; m_amount : Amount }.

Definition money (currency : string) (amount : Amount) : Money :=
  MkMoney currency amount.

(** What [moneyFrom] takes from outside: the host's [Number] of a text, and
    [CurrencySymbols.get(locale).parse(text, strategy)], whose lookup
    (DatumLookup of ../dates) is not in the sources at hand. *)
Record Symbols := MkSymbols {
  Number_of : string -> Amount;
  CurrencySymbols_parse : option string -> string -> option Strategy -> Result string
}.

Variable host : Symbols.

Definition no_currency : Error := MkError "No currency found".

Definition is_currency (p : Part) : bool := String.eqb (type p) "currency".

(** [p.type === 'integer' || p.type === 'decimal' || p.type === 'fraction'] *)
Definition is_amount_part (p : Part) : bool :=
  String.eqb (type p) "integer" || String.eqb (type p) "decimal"
  || String.eqb (type p) "fraction".

(** [p.type === 'decimal' ? '.' : p.value] *)
Definition amount_text (p : Part) : string :=
  if String.eqb (type p) "decimal" then "." else value p.

(** [moneyFrom(parts, locale, options)]; [strategy] is
    [options && options.strategy].  The amount is computed before the
    currency is looked up. *)
Definition moneyFrom (parts : list Part) (locale : option string)
    (strategy : option Strategy) : Result Money :=
  match filter (fun p => is_currency p = true) parts with
  | [] => Throw no_currency
  | currency :: _ =>
      let filtered := filter (fun p => is_amount_part p = true) parts in
      let v := Number_of host (Str.join (map amount_text filtered)) in
      try code <- CurrencySymbols_parse host locale (value currency) strategy in
      Ok (money code v)
  end.

(** [Options] of money in full: the match strategy and the format
    template. *)
Record ParseOptions := MkParseOptions {
  po_strategy : option Strategy;
  po_format : option string
}.

(** [options && options.strategy] *)
Definition strategy_of (options : option ParseOptions) : option Strategy :=
  match options with
  | Some o => po_strategy o
  | None => None
  end.

(** The options as [RegexBuilder.buildFromOptions] reads them. *)
Definition template_of (options : option ParseOptions) : option Money.Options :=
  match options with
  | Some o => Some (Money.MkOptions (po_format o))
  | None => None
  end.

Variable env : @Money.Env Amount.

(** [parseToParts(value, locale)]:
    [NumberFormatPartParser.create(locale).parse(value)] *)
Definition parseToParts (v : string) (locale : option string) : Result (list Part) :=
  Money.parseToParts_with env locale None v.

(** [parse(value, locale, options)] *)
Definition parse (v : string) (locale : option string) (options : option ParseOptions)
    : Result Money :=
  try parts <- parseToParts v locale in
  moneyFrom parts locale (strategy_of options).

(** [parser(locale, options).parse(value)], through [MoneyParser.create].
    Modelled from the spec: [mappingParser] of ../parsing is not in the
    sources at hand; it hands what its parser gives on to its function. *)
Definition parser_parse (locale : option string) (options : option ParseOptions)
    (v : string) : Result Money :=
  try parts <- Money.parseToParts_with env locale (template_of options) v in
  moneyFrom parts locale (strategy_of options).

End WithSymbols.

End MoneyParse.

(* ===================================================================== *)
(** ** The generator of the currency table *)
(* ===================================================================== *)

(** generate-currencies.ts, the [reduce] over the [CcyNtry] elements of the
    ISO list that makes the table. *)
Module Generate.

(** A [CcyNtry] element as the script reads it: the text of its [Ccy] child
    and of its [CcyMnrUnts] child, where it has them. *)
Record Country := MkCountry {
  Ccy : option string;
  CcyMnrUnts : option string
}.

Section WithNumber.
(** The host's numbers: [Number(text)] and [0]. *)
Context {V : Type}.
Variable Number_of : string -> V.
Variable zero : V.

(** [object[key] = value] on an object that keeps its keys in the order
    they were first written. *)
Fixpoint assign (key : string) (v : V) (o : list (string * V)) : list (string * V) :=
  match o with
  | [] => [(key, v)]
  | (k, x) :: o' =>
      if String.eqb k key then (k, v) :: o' else (k, x) :: assign key v o'
  end.

(** [text === 'N.A.' ? 0 : Number(text)] *)
Definition decimals_of (text : string) : V :=
  if String.eqb text "N.A." then zero else Number_of text.

(** One step of the [reduce]. *)
Definition add_country (a : list (string * V)) (country : Country) : list (string * V) :=
  match Ccy country, CcyMnrUnts country with
  | Some currency, Some decimalPlaces => assign currency (decimals_of decimalPlaces) a
  | _, _ => a
  end.

(** [countries.reduce(..., {})]: from code to [decimals]. *)
Definition data (countries : list Country) : list (string * V) :=
  foldl add_country [] countries.

End WithNumber.

End Generate.

(* ===================================================================== *)
(** ** Notions the further statements use *)
(* ===================================================================== *)

Module Laws.
Import RegExp JS Dates.

(** Every run of literal parts made one literal part: the first of the run,
    with the values of the run joined. *)
Fixpoint merged (parts : list Part) : list Part :=
  match parts with
  | [] => []
  | p :: rest =>
      match merged rest with
      | q :: tail =>
          if is_literal p && is_literal q
          then MkPart (type p) (value p +:+ value q) :: tail
          else p :: q :: tail
      | [] => [p]
      end
  end.

(** The part types of a date. *)
Definition known_type (ty : string) : bool :=
  existsb (String.eqb ty) ["year"; "month"; "day"; "weekday"; "literal"].

(** [object[key]] *)
Definition read_key {V} (key : string) (o : list (string * V)) : option V :=
  snd <$> find (fun kv => String.eqb (fst kv) key) o.

(** The value of the last part of a type. *)
Definition last_of (ty : string) (parts : list Part) : option string :=
  value <$> last (filter (fun p => String.eqb (type p) ty = true) parts).

(** The styles a field of a template can have. *)
Definition style_ok (ty v : string) : bool :=
  (String.eqb ty "year" && (String.eqb v "numeric" || String.eqb v "2-digit"))
  || (String.eqb ty "month"
      && (String.eqb v "long" || String.eqb v "short"
          || String.eqb v "2-digit" || String.eqb v "numeric"))
  || (String.eqb ty "day" && (String.eqb v "2-digit" || String.eqb v "numeric"))
  || (String.eqb ty "weekday" && (String.eqb v "long" || String.eqb v "short")).

(** A part as a template can give it: a literal with some text, or a field
    with one of its styles. *)
Definition template_part (p : Part) : bool :=
  if is_literal p then negb (Str.is_empty (value p)) else style_ok (type p) (value p).

(** The way back from a part to the text of a template: the letter of the
    field, as many times as its style is wide. *)
Definition letter (ty : string) : ascii :=
  if String.eqb ty "year" then "y"%char
  else if String.eqb ty "month" then "M"%char
  else if String.eqb ty "day" then "d"%char
  else "E"%char.

Definition width (ty v : string) : nat :=
  if String.eqb v "long" then 4
  else if String.eqb v "short" then 3
  else if String.eqb v "2-digit" then 2
  else if String.eqb ty "year" then 4
  else 1.

Definition letters (p : Part) : string :=
  if is_literal p then value p
  else Str.replicate (width (type p) (value p)) (letter (type p)).

(** The characters that are syntax between the brackets of a class. *)
Definition class_syntax (c : ascii) : bool :=
  existsb (Ascii.eqb c) ["^"%char; "-"%char; "]"%char; backslash].

(** A text without such a character. *)
Definition plain_text (v : string) : bool :=
  forallb (fun c => negb (class_syntax c)) (Str.characters v).

(** The letters of a template that stand for a field. *)
Definition field_letter (c : ascii) : bool :=
  existsb (Ascii.eqb c) ["y"; "M"; "d"; "E"]%char.

Definition no_field_letter (t : string) : bool :=
  forallb (fun c => negb (field_letter c)) (Str.characters t).

(** The text begins with the character. *)
Definition led_by (c : ascii) (s : string) : bool :=
  match s with
  | String a _ => Ascii.eqb c a
  | EmptyString => false
  end.

(** A part as [partsFrom] cuts it out of a template: a field with one of
    its styles, or a literal with some text and no letter of a field. *)
Definition cut_part (p : Part) : bool :=
  template_part p && (negb (is_literal p) || no_field_letter (value p)).

(** The texts a pattern can match, whatever stands around them: [^], [$]
    and a lookahead take no text. *)
Inductive derives : re -> string -> Prop :=
| derives_Eps : derives Eps ""
| derives_Any c : is_newline c = false -> derives Any (String c "")
| derives_Class negated items c :
    xorb negated (in_class c items) = true ->
    derives (Class negated items) (String c "")
| derives_Text w : derives (Text w) w
| derives_Seq a b t u : derives a t -> derives b u -> derives (Seq a b) (t +:+ u)
| derives_Alt_l a b t : derives a t -> derives (Alt a b) t
| derives_Alt_r a b t : derives b t -> derives (Alt a b) t
| derives_Star_nil greedy a : derives (Star greedy a) ""
| derives_Star_cons greedy a t u :
    derives a t -> derives (Star greedy a) u -> derives (Star greedy a) (t +:+ u)
| derives_Group n a t : derives a t -> derives (Group n a) t
| derives_AtStart : derives AtStart ""
| derives_AtEnd : derives AtEnd ""
| derives_LookAhead a : derives (LookAhead a) "".

(** The groups of a pattern with what they stand around, in the order
    they open. *)
Fixpoint group_bodies (r : re) : list (string * re) :=
  match r with
  | Seq a b | Alt a b => group_bodies a ++ group_bodies b
  | Star _ a | LookAhead a => group_bodies a
  | Group n a => (n, a) :: group_bodies a
  | _ => []
  end.

(** A sequence of patterns without groups and of groups around such
    patterns: a match goes through every group once. *)
Fixpoint flat (r : re) : bool :=
  match r with
  | Seq a b => flat a && flat b
  | Group _ a => Spec.plain a
  | _ => Spec.plain r
  end.

(** A text of digits only, and a text without a digit. *)
Definition all_digits (t : string) : bool := forallb is_digit (Str.characters t).
Definition no_digit (t : string) : bool := forallb (fun c => negb (is_digit c)) (Str.characters t).

(** A part as [IntegerGroupParser.digits] gives it: an integer of digits, or
    a group without a digit; neither is empty. *)
Definition digits_part (p : Part) : bool :=
  negb (Str.is_empty (value p))
  && ((String.eqb (type p) "integer" && all_digits (value p))
      || (String.eqb (type p) "group" && no_digit (value p))).

(** No two neighbours are of one type. *)
Fixpoint types_alternate (parts : list Part) : bool :=
  match parts with
  | p :: rest =>
      match rest with
      | q :: _ => negb (String.eqb (type p) (type q)) && types_alternate rest
      | [] => true
      end
  | [] => true
  end.

(** Options without their format template. *)
Definition without_format {Strategy} (options : option (@MoneyParse.ParseOptions Strategy))
    : option (@MoneyParse.ParseOptions Strategy) :=
  match options with
  | Some o => Some (MoneyParse.MkParseOptions (MoneyParse.po_strategy o) None)
  | None => None
  end.

(** The decimals of the last entry of the list that has the code and its
    minor units. *)
Definition last_decimals {V} (decimals_of : string -> V) (code : string)
    (countries : list Generate.Country) : option V :=
  (fun c => decimals_of (default "" (Generate.CcyMnrUnts c)))
    <$> last (filter (fun c => Generate.Ccy c = Some code
                               /\ Generate.CcyMnrUnts c <> None) countries).

End Laws.

(* ===================================================================== *)
(** * Proofs *)
(* ===================================================================== *)

(** ** Strings *)

Module StrFacts.
Import Str.

Lemma sapp_nil_l (s : string) : "" +:+ s = s.
Proof. reflexivity. Qed.

Lemma sapp_cons (c : ascii) (s t : string) : String c s +:+ t = String c (s +:+ t).
Proof. reflexivity. Qed.

Lemma sapp_nil_r (s : string) : s +:+ "" = s.
Proof.
  induction s as [|c s IH]; [reflexivity | now rewrite sapp_cons, IH].
Qed.

Lemma sapp_assoc (a b c : string) : (a +:+ b) +:+ c = a +:+ (b +:+ c).
Proof.
  induction a as [|x a IH]; [reflexivity | now rewrite !sapp_cons, IH].
Qed.

Lemma slength_app (a b : string) :
  String.length (a +:+ b) = String.length a + String.length b.
Proof.
  induction a as [|x a IH]; [reflexivity |].
  rewrite sapp_cons. simpl. now rewrite IH.
Qed.

Lemma join_cons (x : string) (l : list string) : join (x :: l) = x +:+ join l.
Proof.
  unfold join. destruct l as [|y l]; simpl; [now rewrite sapp_nil_r | reflexivity].
Qed.

Lemma join_app (l1 l2 : list string) : join (l1 ++ l2) = join l1 +:+ join l2.
Proof.
  induction l1 as [|x l1 IH]; [reflexivity |].
  change ((x :: l1) ++ l2) with (x :: (l1 ++ l2)).
  now rewrite !join_cons, IH, sapp_assoc.
Qed.

Lemma join_nil : join [] = "".
Proof. reflexivity. Qed.

Lemma length_zero (s : string) : String.length s = 0 -> s = "".
Proof. destruct s; [reflexivity | discriminate]. Qed.

Lemma take_app (a b : string) : take (String.length a) (a +:+ b) = a.
Proof.
  induction a as [|x a IH]; [now destruct b |].
  rewrite sapp_cons. simpl. now rewrite IH.
Qed.

Lemma strip_prefix_app (w s s' : string) :
  strip_prefix w s = Some s' -> s = w +:+ s'.
Proof.
  revert s. induction w as [|a w IH]; intros s H; simpl in H.
  - now injection H as ->.
  - destruct s as [|b s]; [discriminate |].
    destruct (Ascii.eqb a b) eqn:E; [|discriminate].
    apply Ascii.eqb_eq in E. subst b. rewrite sapp_cons. f_equal. now apply IH.
Qed.

Lemma strip_prefix_here (w s : string) : strip_prefix w (w +:+ s) = Some s.
Proof.
  induction w as [|a w IH]; [reflexivity |].
  rewrite sapp_cons. simpl. now rewrite Ascii.eqb_refl.
Qed.

Lemma sapp_inv_tail_here (a b c : string) : a +:+ c = b +:+ c -> a = b.
Proof.
  intros H.
  assert (Hlen : String.length a = String.length b).
  { apply (f_equal String.length) in H. rewrite !slength_app in H. lia. }
  rewrite <- (take_app a c), <- (take_app b c), Hlen. now rewrite H.
Qed.

Lemma sapp_inv_head (a b c : string) : a +:+ b = a +:+ c -> b = c.
Proof.
  induction a as [|x a IH]; [trivial |].
  rewrite !sapp_cons. intros [= H]. now apply IH.
Qed.

End StrFacts.

(* ===================================================================== *)
(** ** Properties of collapseLiterals *)
(* ===================================================================== *)

Section CollapseFacts.
Import Dates Spec.

Lemma absorb_length v rest : length (snd (absorb v rest)) <= length rest.
Proof.
  revert v. induction rest as [|n rest IH]; intros v; simpl; [lia |].
  destruct (is_literal n); simpl; [specialize (IH (v +:+ value n)); lia | lia].
Qed.

Lemma absorb_head v rest :
  match snd (absorb v rest) with
  | [] => True
  | q :: _ => is_literal q = false
  end.
Proof.
  revert v. induction rest as [|n rest IH]; intros v; simpl; [exact I |].
  destruct (is_literal n) eqn:E; simpl; [apply IH | exact E].
Qed.

Lemma absorb_joined v rest :
  fst (absorb v rest) +:+ joined (snd (absorb v rest)) = v +:+ joined rest.
Proof.
  revert v. induction rest as [|n rest IH]; intros v; simpl; [reflexivity |].
  destruct (is_literal n); simpl.
  - rewrite IH. unfold joined, values. simpl. rewrite StrFacts.join_cons.
    now rewrite StrFacts.sapp_assoc.
  - reflexivity.
Qed.

Lemma collapse_while_spec fuel pre current rest :
  length rest <= fuel ->
  collapse_while fuel (length pre) (pre ++ current :: rest)
  = pre ++ MkPart (type current) (fst (absorb (value current) rest))
        :: snd (absorb (value current) rest).
Proof.
  revert current rest. induction fuel as [|fuel IH]; intros current rest Hf.
  - destruct rest; [|simpl in Hf; lia]. simpl. now destruct current.
  - simpl. rewrite list_lookup_middle by reflexivity.
    rewrite lookup_app_r by lia.
    replace (length pre + 1 - length pre) with 1 by lia.
    destruct rest as [|next rest]; simpl.
    + now destruct current.
    + destruct (is_literal next) eqn:E; [|now destruct current].
      rewrite insert_app_r_alt by lia.
      replace (length pre - length pre) with 0 by lia. simpl.
      set (cur' := MkPart (type current) (value current +:+ value next)).
      replace (pre ++ cur' :: next :: rest) with ((pre ++ [cur']) ++ next :: rest)
        by (now rewrite <- app_assoc).
      replace (length pre + 1) with (length (pre ++ [cur']))
        by (rewrite length_app; reflexivity).
      rewrite delete_middle, <- app_assoc. simpl.
      rewrite (IH cur' rest) by (simpl in Hf; lia).
      reflexivity.
Qed.

Lemma NoAdjacentLiterals_cons p l :
  is_literal p && head_literal l = false ->
  NoAdjacentLiterals l -> NoAdjacentLiterals (p :: l).
Proof. destruct l as [|q l]; simpl; auto. Qed.

(** The outer loop, started at index [length pre] with [l] still to visit:
    the visited prefix stays, and what replaces [l] has no two literal
    neighbours, spells the same text and starts with a literal exactly
    when [l] does. *)
Lemma collapse_for_spec n : forall l pre fuel,
  length l <= n -> length l <= fuel ->
  exists R,
    collapse_for fuel (length pre) (pre ++ l) = pre ++ R
    /\ NoAdjacentLiterals R
    /\ joined R = joined l
    /\ head_literal R = head_literal l
    /\ length R <= length l.
Proof.
  induction n as [|n IH]; intros l pre fuel Hn Hf.
  - destruct l; [|simpl in Hn; lia]. exists [].
    repeat split; auto. destruct fuel; simpl; [reflexivity |].
    rewrite app_nil_r. destruct (decide (length pre < length pre)); [lia | reflexivity].
  - destruct l as [|p rest].
    + exists []. repeat split; auto. destruct fuel; simpl; [reflexivity |].
      rewrite app_nil_r. destruct (decide (length pre < length pre)); [lia | reflexivity].
    + destruct fuel as [|fuel]; [simpl in Hf; lia |].
      simpl in Hn, Hf. simpl.
      destruct (decide (length pre < length (pre ++ p :: rest))) as [_|Hge].
      2:{ rewrite length_app in Hge. simpl in Hge. lia. }
      rewrite list_lookup_middle by reflexivity.
      destruct (is_literal p) eqn:Ep.
      * rewrite collapse_while_spec by (rewrite length_app; simpl; lia).
        set (p' := MkPart (type p) (fst (absorb (value p) rest))).
        set (rest' := snd (absorb (value p) rest)).
        assert (Hlen : length rest' <= length rest) by apply absorb_length.
        destruct (IH rest' (pre ++ [p']) fuel) as (R & HR & Hno & Hj & Hh & Hl);
          [lia | lia |].
        rewrite length_app in HR. simpl in HR.
        rewrite <- app_assoc in HR. simpl in HR.
        exists (p' :: R). rewrite HR, <- app_assoc. simpl.
        repeat split.
        -- apply NoAdjacentLiterals_cons; [|exact Hno].
           rewrite Hh. pose proof (absorb_head (value p) rest) as Hhd.
           fold rest' in Hhd. destruct rest' as [|q r]; simpl.
           ++ apply andb_false_r.
           ++ rewrite Hhd. apply andb_false_r.
        -- unfold joined, values in *. simpl. rewrite !StrFacts.join_cons, Hj.
           apply (absorb_joined (value p) rest).
        -- simpl. exact Ep.
        -- simpl. lia.
      * destruct (IH rest (pre ++ [p]) fuel) as (R & HR & Hno & Hj & Hh & Hl);
          [lia | lia |].
        rewrite length_app in HR. simpl in HR.
        rewrite <- app_assoc in HR. simpl in HR.
        exists (p :: R). rewrite HR, <- app_assoc. simpl.
        repeat split.
        -- apply NoAdjacentLiterals_cons; [|exact Hno]. now rewrite Ep.
        -- unfold joined, values in *. simpl. now rewrite !StrFacts.join_cons, Hj.
        -- exact Ep.
        -- simpl. lia.
Qed.

Lemma collapseLiterals_spec (parts : list Part) :
  NoAdjacentLiterals (collapseLiterals parts)
  /\ joined (collapseLiterals parts) = joined parts.
Proof.
  destruct (collapse_for_spec (length parts) parts [] (length parts))
    as (R & HR & Hno & Hj & _); [lia | lia |].
  unfold collapseLiterals. simpl in HR. rewrite HR. auto.
Qed.

End CollapseFacts.

(* ===================================================================== *)
(** ** The parts of the emulation *)
(* ===================================================================== *)

Section EmulationFacts.
Import Dates Spec.

(** C3. The parts that the emulation's [formatToParts] returns for a date
    never hold two literal parts next to each other: whatever the match of
    the generated pattern gives, [collapseLiterals] has merged every run of
    literals into one part. *)
Theorem formatToParts_no_adjacent_literals
    (env : Env) (locale : string) (options : Options) (d : Date) (parts : list Part) :
  FormatToParts_formatToParts env locale options d = Ok parts ->
  NoAdjacentLiterals parts.
Proof.
  unfold FormatToParts_formatToParts.
  destruct (actualNamesPattern env locale options) as [regex|e]; simpl; [|discriminate].
  destruct (Improved_format env locale options d) as [text|e]; simpl; [|discriminate].
  destruct (NamedRegExp.match_ regex text) as [m|]; [|discriminate].
  intros [= <-]. apply collapseLiterals_spec.
Qed.

Lemma formatToParts_no_adjacent_literals_witness :
  NoAdjacentLiterals
    [MkPart "weekday" "Fri"; MkPart "literal" ", "; MkPart "day" "25";
     MkPart "literal" " "; MkPart "month" "Jan"; MkPart "literal" " ";
     MkPart "year" "2019"].
Proof.
  apply (formatToParts_no_adjacent_literals (EnGB.env false) "en-GB"
           EnGB.short_options (MkDate 2019 1 25)).
  vm_compute. reflexivity.
Defined.

(** Where the merge has work to do: a token that is neither a month nor a
    weekday name becomes a literal next to the separators around it. *)
Example collapseLiterals_merges :
  collapseLiterals
    [MkPart "literal" "le "; MkPart "literal" "25"; MkPart "literal" " ";
     MkPart "month" "janvier"; MkPart "literal" " "; MkPart "literal" "."]
  = [MkPart "literal" "le 25 "; MkPart "month" "janvier"; MkPart "literal" " ."].
Proof. reflexivity. Qed.

End EmulationFacts.

(* ===================================================================== *)
(** ** The composite parser *)
(* ===================================================================== *)

Section CompositeFacts.
Import Dates Spec.





(** The parser for no options is such a composite, over the default
    options in their order. *)
Lemma localeParser_default (env : Env) (locale : string) (native : bool) (l : list DateParser) :
  mapM (fun o => localeParser_for env locale o native) defaultParserOptions = Ok l ->
  parser env locale None native = Ok (parsers l).
Proof. intros H. unfold parser, localeParser. now rewrite H. Qed.

Example parse_without_options :
  parse (EnGB.env true) "18/12/2018" "en-GB" None true = Ok (MkDate 2018 12 18).
Proof. vm_compute. reflexivity. Qed.

Example parse_without_options_fails :
  parse (EnGB.env true) "tomorrow" "en-GB" None true
  = Throw (unable_to_parse "tomorrow").
Proof. vm_compute. reflexivity. Qed.

End CompositeFacts.

Section ParseAllFacts.
Import Dates Spec.

Lemma mapM_Forall2 {A B} (f : A -> Result B) (l : list A) (results : list B) :
  Forall2 (fun a b => f a = Ok b) l results -> mapM f l = Ok results.
Proof.
  induction 1 as [|a b l results Ha _ IH]; simpl; [reflexivity |].
  now rewrite Ha, IH.
Qed.

(** C5, as stated, fails: four of the default candidates match the one span
    of this text, and [parseAll] gives its date four times. *)
Lemma parseAll_repeats_a_span :
  (try p <- EnGB.default_parser in parseAll_ p "25 Jan 2019")
  = Ok [MkDate 2019 1 25; MkDate 2019 1 25; MkDate 2019 1 25; MkDate 2019 1 25].
Proof. vm_compute. reflexivity. Qed.

(** Nor is the order that of the positions in the text: a later candidate's
    earlier match comes after an earlier candidate's later match. *)
Example parseAll_goes_candidate_by_candidate :
  (try p <- EnGB.default_parser in parseAll_ p "on 25 Jan 2019 and 18/12/2018")
  = Ok [MkDate 2019 1 25; MkDate 2018 12 18;
        MkDate 2019 1 25; MkDate 2019 1 25; MkDate 2019 1 25].
Proof. vm_compute. reflexivity. Qed.

End ParseAllFacts.

(* ===================================================================== *)
(** ** The weekday of a parsed date *)
(* ===================================================================== *)

Section WeekdayFacts.
Import RegExp Dates Spec JS.

Lemma last_index_found (n : string) (names : list string) :
  forall i found j,
    NamedRegExp.last_index n names i found = Some j ->
    found = Some j \/ (i <= j /\ names !! (j - i) = Some n).
Proof.
  induction names as [|x names IH]; intros i found j H; simpl in H; [now left |].
  destruct (IH _ _ _ H) as [Hfound | [Hle Hat]].
  - destruct (String.eqb x n) eqn:E; [|now left].
    injection Hfound as <-. right. split; [lia |].
    replace (i - i) with 0 by lia. simpl. f_equal. now apply String.eqb_eq.
  - right. split; [lia |].
    replace (j - i) with (S (j - S i)) by lia. exact Hat.
Qed.

Lemma names_found (r : re) (n : string) (j : nat) :
  NamedRegExp.names r n = Some j ->
  exists i, j = S i /\ group_names r !! i = Some n.
Proof.
  intros H. destruct (last_index_found _ _ _ _ _ H) as [Hnone | [Hle Hat]];
    [discriminate |].
  exists (j - 1). split; [lia | exact Hat].
Qed.

Lemma differ_only_in_lookup (n : string) (names : list string) :
  forall (m1 m2 : Captures) i x,
    differ_only_in n names m1 m2 = true ->
    names !! i = Some x -> x <> n ->
    mvalue <$> m1 !! i = mvalue <$> m2 !! i.
Proof.
  induction names as [|y names IH]; intros m1 m2 i x Hd Hi Hx; [discriminate |].
  destruct m1 as [|c1 m1], m2 as [|c2 m2]; simpl in Hd; try discriminate.
  apply andb_true_iff in Hd as [Hhere Hrest].
  destruct i as [|i]; simpl in *.
  - injection Hi as ->. apply orb_true_iff in Hhere as [Hn | Hv].
    + apply String.eqb_eq in Hn. contradiction.
    + apply String.eqb_eq in Hv. now rewrite Hv.
  - now apply (IH m1 m2 i x).
Qed.

Lemma group_at_agrees (r : re) (n : string) (m1 m2 : Captures) :
  n <> "weekday" ->
  differ_only_in "weekday" (group_names r) m1 m2 = true ->
  group_at (NamedRegExp.names r n) m1 = group_at (NamedRegExp.names r n) m2.
Proof.
  intros Hn Hd. destruct (NamedRegExp.names r n) as [j|] eqn:Hj; [|reflexivity].
  destruct (names_found _ _ _ Hj) as (i & -> & Hi). simpl.
  now apply (differ_only_in_lookup "weekday" (group_names r) m1 m2 i n).
Qed.

(** C9. Two texts that the pattern of one [RegexParser] matches, with
    matches that differ at most in what the weekday group captured, parse to
    the same result: the date is put together from the year, month and day
    groups, and the weekday group is never read. *)
Theorem parse_ignores_weekday
    (env : Env) (b : RegexBuilder) (v1 v2 : string) (m1 m2 : Captures) :
  exec (rp_regex (regexParser env b)) (toLocaleLowerCase env (rb_locale b) v1) = Some m1 ->
  exec (rp_regex (regexParser env b)) (toLocaleLowerCase env (rb_locale b) v2) = Some m2 ->
  differ_only_in "weekday" (group_names (rp_regex (regexParser env b))) m1 m2 = true ->
  RegexParser_parse env (regexParser env b) v1
  = RegexParser_parse env (regexParser env b) v2.
Proof.
  intros H1 H2 Hd. unfold RegexParser_parse.
  change (rp_locale (regexParser env b)) with (rb_locale b). rewrite H1, H2.
  unfold assemble, regexParser, numeric, parseMonth, parse_datum in *. simpl in *.
  set (r := Seqs _) in *.
  rewrite (group_at_agrees r "year" m1 m2) by (discriminate || exact Hd).
  rewrite (group_at_agrees r "month" m1 m2) by (discriminate || exact Hd).
  rewrite (group_at_agrees r "day" m1 m2) by (discriminate || exact Hd).
  reflexivity.
Qed.

(** 25 January 2019 was a Friday; "Mon" instead goes through unnoticed. *)
Lemma parse_ignores_weekday_witness :
  RegexParser_parse (EnGB.env true)
    (regexParser (EnGB.env true) EnGB.weekday_builder) "Mon, 25 Jan 2019"
  = RegexParser_parse (EnGB.env true)
      (regexParser (EnGB.env true) EnGB.weekday_builder) "Fri, 25 Jan 2019".
Proof.
  eapply parse_ignores_weekday; vm_compute; reflexivity.
Defined.

Example parse_wrong_weekday :
  RegexParser_parse (EnGB.env true)
    (regexParser (EnGB.env true) EnGB.weekday_builder) "Mon, 25 Jan 2019"
  = Ok (MkDate 2019 1 25).
Proof. vm_compute. reflexivity. Qed.

End WeekdayFacts.

(* ===================================================================== *)
(** ** The decimals of a currency *)
(* ===================================================================== *)

Section DecimalsFacts.
Import Money.

Lemma short_code_not_inherited (code : string) :
  String.length code = 3 -> existsb (String.eqb code) inherited_names = false.
Proof.
  intros Hlen. apply not_true_is_false. intros H.
  apply existsb_exists in H as (x & Hin & Hx).
  apply String.eqb_eq in Hx. subst x.
  simpl in Hin.
  repeat (destruct Hin as [<- | Hin]; [discriminate Hlen |]).
  contradiction.
Qed.

(** When the code names no inherited member, the look-up is that of the
    table. *)
Lemma decimalsFor_own (currencies : Currencies) (code : string) :
  existsb (String.eqb code) inherited_names = false ->
  decimalsFor currencies code
  = Number match currencies !! code with
           | Some c => decimals c
           | None => 2%Z
           end.
Proof.
  intros Hown. unfold decimalsFor, get.
  destruct (currencies !! code); [reflexivity |]. now rewrite Hown.
Qed.



Example decimalsFor_registered :
  decimalsFor MoneyExample.table "JPY" = Number 0
  /\ decimalsFor MoneyExample.table "BHD" = Number 3.
Proof. split; vm_compute; reflexivity. Qed.

(** A code of three characters is never such a name. *)
Example decimalsFor_of_a_short_code (currencies : Currencies) (code : string) :
  String.length code = 3 -> currencies !! code = None ->
  decimalsFor currencies code = Number 2.
Proof.
  intros Hlen Hnone.
  rewrite (decimalsFor_own currencies code (short_code_not_inherited code Hlen)).
  now rewrite Hnone.
Qed.


End DecimalsFacts.

(* ===================================================================== *)
(** ** Making a formatter *)
(* ===================================================================== *)

Section CreateFacts.
Import Dates Spec.

Lemma read_alloc_old (h : Store) (o : Options) (r : Ref) :
  r < length h -> read (snd (alloc h o)) r = read h r.
Proof. intros Hr. unfold read, alloc. cbn [snd]. now rewrite lookup_app_l. Qed.

Lemma read_alloc_new (h : Store) (o : Options) :
  read (snd (alloc h o)) (fst (alloc h o)) = o.
Proof.
  unfold read, alloc. cbn [snd fst]. rewrite lookup_app_r by reflexivity.
  now rewrite Nat.sub_diag.
Qed.

Lemma read_write_other (h : Store) (r r' : Ref) (o : Options) :
  r <> r' -> read (write h r o) r' = read h r'.
Proof. intros Hne. unfold read, write. now rewrite list_lookup_insert_ne. Qed.

(** The object the host is handed is a copy of the clone: whatever the host
    does to it, the clone and the caller's object stay as they were. *)
Lemma dateTimeFormat_in_frame (env : Env) (locale : string) (options : Ref) (h : Store) (r : Ref) :
  r < length h ->
  read (fst (dateTimeFormat_in env locale options h)) r = read h r.
Proof.
  intros Hr. unfold dateTimeFormat_in.
  destruct (alloc h (set_key "timeZone" "UTC" (read h options))) as [handed h1] eqn:Ha.
  assert (Hh1 : h1 = snd (alloc h (set_key "timeZone" "UTC" (read h options))))
    by now rewrite Ha.
  assert (Hhanded : handed = length h) by (unfold alloc in Ha; congruence).
  destruct (DateTimeFormat_new env locale (read h1 handed)) as [[kept formatter]|e]; simpl.
  - rewrite read_write_other by lia. subst h1. now apply read_alloc_old.
  - subst h1. now apply read_alloc_old.
Qed.

Lemma dateTimeFormat_in_result (env : Env) (locale : string) (options : Ref) (h : Store) :
  snd (dateTimeFormat_in env locale options h)
  = match DateTimeFormat_new env locale (set_key "timeZone" "UTC" (read h options)) with
    | Ok (_, formatter) => Ok formatter
    | Throw e => Throw e
    end.
Proof.
  unfold dateTimeFormat_in.
  pose proof (read_alloc_new h (set_key "timeZone" "UTC" (read h options))) as Hnew.
  destruct (alloc h (set_key "timeZone" "UTC" (read h options))) as [handed h1].
  simpl in Hnew. rewrite Hnew.
  now destruct (DateTimeFormat_new env locale _) as [[kept formatter]|e].
Qed.

(** [ImprovedDateTimeFormat.create] returns what the host's constructor
    returns for the options with the time zone added, and throws only what
    that constructor throws: the comparison of the key counts never fails,
    whatever the host does to the object it was handed. *)
Lemma create_in_result (env : Env) (locale : string) (options : Ref) (h : Store) :
  options < length h ->
  snd (create_in env locale options h)
  = match DateTimeFormat_new env locale (set_key "timeZone" "UTC" (read h options)) with
    | Ok (_, formatter) => Ok formatter
    | Throw e => Throw e
    end.
Proof.
  intros Hr. unfold create_in.
  pose proof (read_alloc_new h (read h options)) as Hnew.
  pose proof (read_alloc_old h (read h options) options Hr) as Hold.
  destruct (alloc h (read h options)) as [clone h1] eqn:Ha. simpl in Hnew, Hold.
  assert (Hclone : clone = length h) by (unfold alloc in Ha; congruence).
  assert (Hlen : length h1 = S (length h)).
  { unfold alloc in Ha. injection Ha as _ <-. rewrite length_app. simpl. lia. }
  pose proof (dateTimeFormat_in_frame env locale clone h1 clone ltac:(lia)) as Hframe.
  pose proof (dateTimeFormat_in_result env locale clone h1) as Hres.
  destruct (dateTimeFormat_in env locale clone h1) as [h2 result]. simpl in *.
  rewrite Hnew in Hres. subst result.
  destruct (DateTimeFormat_new env locale _) as [[kept formatter]|e]; [|reflexivity].
  rewrite Hframe, Nat.eqb_refl. reflexivity.
Qed.

(** The caller's options object is as it was. *)
Lemma create_in_keeps_options (env : Env) (locale : string) (options : Ref) (h : Store) :
  options < length h ->
  read (fst (create_in env locale options h)) options = read h options.
Proof.
  intros Hr. unfold create_in.
  pose proof (read_alloc_old h (read h options) options Hr) as Hold.
  destruct (alloc h (read h options)) as [clone h1] eqn:Ha. simpl in Hold.
  assert (Hlen : length h1 = S (length h)).
  { unfold alloc in Ha. injection Ha as _ <-. rewrite length_app. simpl. lia. }
  pose proof (dateTimeFormat_in_frame env locale clone h1 options ltac:(lia)) as Hframe.
  destruct (dateTimeFormat_in env locale clone h1) as [h2 result]. simpl in *.
  destruct result as [result|e]; simpl; [|congruence].
  destruct (negb _); simpl; congruence.
Qed.

Lemma create_result (env : Env) (locale : string) (options : Options) :
  create env locale options
  = match DateTimeFormat_new env locale (set_key "timeZone" "UTC" options) with
    | Ok (_, formatter) => Ok formatter
    | Throw e => Throw e
    end.
Proof. unfold create. now rewrite create_in_result by (simpl; lia). Qed.

End CreateFacts.

Section CreateOnOldHost.
Import Dates.

(** C8, at the failing input: the host removes the [weekday] key from the
    object it is handed, and [create] returns a formatter all the same. *)
Theorem create_misses_removed_keys :
  (exists kept formatter,
     DateTimeFormat_new OldHost.env "en-GB"
       (set_key "timeZone" "UTC" EnGB.short_options) = Ok (kept, formatter)
     /\ length (keys kept) < length (keys (set_key "timeZone" "UTC" EnGB.short_options)))
  /\ (exists formatter, create OldHost.env "en-GB" EnGB.short_options = Ok formatter)
  /\ format OldHost.env (MkDate 2019 1 25) "en-GB" (AsOptions EnGB.short_options)
     = Ok "25 Jan 2019".
Proof.
  split; [|split].
  - eexists _, _. split; [reflexivity |]. vm_compute. lia.
  - eexists. reflexivity.
  - vm_compute. reflexivity.
Qed.

End CreateOnOldHost.

(* ===================================================================== *)
(** ** Money templates *)
(* ===================================================================== *)

Section TemplateFacts.
Import Money Spec RegExp.
Context {Amount : Type}.
Variable env : @Env Amount.

Lemma alike_filter (keep : string -> bool) (l l' : list Part) :
  Forall2 alike l l' ->
  Forall2 alike (filter (fun p => keep (type p) = true) l)
                (filter (fun p => keep (type p) = true) l').
Proof.
  induction 1 as [|p q l l' [Hty Hv] _ IH]; [constructor |].
  rewrite !filter_cons. rewrite <- Hty.
  destruct (decide (keep (type p) = true)); [constructor; [now split | exact IH] | exact IH].
Qed.

Lemma alike_filter_not (keep : string -> bool) (l l' : list Part) :
  Forall2 alike l l' ->
  Forall2 alike (filter (fun p => keep (type p) = false) l)
                (filter (fun p => keep (type p) = false) l').
Proof.
  induction 1 as [|p q l l' [Hty Hv] _ IH]; [constructor |].
  rewrite !filter_cons. rewrite <- Hty.
  destruct (decide (keep (type p) = false)); [constructor; [now split | exact IH] | exact IH].
Qed.

Lemma alike_tl (l l' : list Part) :
  Forall2 alike l l' -> Forall2 alike (List.tl l) (List.tl l').
Proof. destruct 1; [constructor | assumption]. Qed.

Lemma alike_dedupe (l l' : list Part) :
  Forall2 alike l l' -> Forall2 alike (dedupe_by_type l) (dedupe_by_type l').
Proof.
  induction 1 as [|p q l l' Hpq Hl IH]; [constructor |].
  simpl. destruct Hl as [|p2 q2 l l' Hpq2 Hl]; [constructor; [exact Hpq | constructor] |].
  destruct Hpq as [Hty Hv], Hpq2 as [Hty2 Hv2].
  rewrite <- Hty, <- Hty2.
  destruct (String.eqb (type p) (type p2)).
  - constructor; [now split | now apply alike_tl].
  - constructor; [now split | exact IH].
Qed.

Lemma alike_piece (locale : option string) (group : string) (p q : Part) :
  alike p q -> money_piece env locale group p = money_piece env locale group q.
Proof.
  intros [Hty Hv]. unfold money_piece. rewrite <- Hty.
  unfold sentinel in Hv.
  destruct (String.eqb (type p) "currency"); [reflexivity |].
  destruct (String.eqb (type p) "decimal") eqn:Ed.
  - apply String.eqb_eq in Ed. rewrite Ed in Hv. now rewrite Hv.
  - destruct (String.eqb (type p) "fraction") eqn:Ef; [reflexivity |].
    destruct (String.eqb (type p) "integer") eqn:Ei; [reflexivity |].
    simpl in Hv. now rewrite Hv.
Qed.

Lemma alike_group_values (l l' : list Part) :
  Forall2 alike l l' ->
  Forall (fun p => type p = "group") l ->
  map value l = map value l'.
Proof.
  induction 1 as [|p q l l' [Hty Hv] _ IH]; intros Hg; [reflexivity |].
  apply Forall_cons in Hg as [Hp Hg]. simpl. rewrite IH by exact Hg.
  f_equal. apply Hv. now rewrite Hp.
Qed.

(** The pattern does not read the text of a currency, integer or fraction
    part. *)
Lemma buildFrom_alike (parts parts' : list Part) (locale : option string) :
  Forall2 alike parts parts' ->
  buildFrom env parts locale = buildFrom env parts' locale.
Proof.
  intros H. unfold buildFrom.
  pose proof (alike_filter (fun ty => String.eqb ty "group") _ _ H) as Hg.
  pose proof (alike_dedupe _ _ (alike_filter_not (fun ty => String.eqb ty "group") _ _ H)) as Hn.
  simpl in Hg, Hn.
  rewrite (alike_group_values _ _ Hg).
  2:{ apply List.Forall_forall. intros p Hp. apply list_elem_of_In in Hp.
      apply list_elem_of_filter in Hp as [Hp _]. now apply String.eqb_eq. }
  set (group := match map value _ with [] => "" | g :: _ => g end).
  f_equal. f_equal.
  induction Hn as [|p q l l' Hpq _ IH]; [reflexivity |].
  simpl. now rewrite (alike_piece locale group p q Hpq), IH.
Qed.

(** C6, amended.  For money the count of a sentinel character in a format
    template is not read: two templates whose parts differ only in the
    lengths of their currency (C), integer (i) and fraction (f) runs give
    the same pattern. *)
Theorem buildFromOptions_ignores_sentinel_counts
    (template template' : string) (parts parts' : list Part) (locale : option string) :
  template <> "" -> template' <> "" ->
  PartsFromFormat_format template = Ok parts ->
  PartsFromFormat_format template' = Ok parts' ->
  Forall2 alike parts parts' ->
  buildFromOptions env locale (Some (MkOptions (Some template)))
  = buildFromOptions env locale (Some (MkOptions (Some template'))).
Proof.
  intros Hne Hne' Hparts Hparts' Halike. unfold buildFromOptions.
  assert (Htrue : forall t, t <> "" -> JS.Boolean_string t = true)
    by (intros [|c t] Ht; [contradiction | reflexivity]).
  rewrite (Htrue _ Hne), (Htrue _ Hne'), Hparts, Hparts'. simpl.
  f_equal. now apply buildFrom_alike.
Qed.

End TemplateFacts.

Section TemplateExamples.
Import Money Spec RegExp.

Example template_parts_long :
  PartsFromFormat_format "CCC iii.fff"
  = Ok [MkPart "currency" "CCC"; MkPart "literal" " "; MkPart "integer" "iii";
        MkPart "decimal" "."; MkPart "fraction" "fff"].
Proof. vm_compute. reflexivity. Qed.

Example template_parts_short :
  PartsFromFormat_format "C i.f"
  = Ok [MkPart "currency" "C"; MkPart "literal" " "; MkPart "integer" "i";
        MkPart "decimal" "."; MkPart "fraction" "f"].
Proof. vm_compute. reflexivity. Qed.

(** C6, as stated, fails: the two templates of the claim give one and the
    same pattern. *)
Lemma templates_give_the_same_pattern :
  exists pattern,
    buildFromOptions MoneyExample.env None (Some (MkOptions (Some "CCC iii.fff"))) = Ok pattern
    /\ buildFromOptions MoneyExample.env None (Some (MkOptions (Some "C i.f"))) = Ok pattern.
Proof. eexists. split; vm_compute; reflexivity. Qed.

Lemma buildFromOptions_ignores_sentinel_counts_witness :
  buildFromOptions MoneyExample.env None (Some (MkOptions (Some "i,iii.fff CCC")))
  = buildFromOptions MoneyExample.env None (Some (MkOptions (Some "i,i.f C"))).
Proof.
  apply (buildFromOptions_ignores_sentinel_counts MoneyExample.env
           "i,iii.fff CCC" "i,i.f C"
           [MkPart "integer" "i"; MkPart "group" ","; MkPart "integer" "iii";
            MkPart "decimal" "."; MkPart "fraction" "fff"; MkPart "literal" " ";
            MkPart "currency" "CCC"]
           [MkPart "integer" "i"; MkPart "group" ","; MkPart "integer" "i";
            MkPart "decimal" "."; MkPart "fraction" "f"; MkPart "literal" " ";
            MkPart "currency" "C"] None);
    try discriminate; try (vm_compute; reflexivity).
  repeat constructor; simpl; intros; discriminate.
Defined.

(** For dates the length of a run does select the width. *)
Example date_template_widths :
  Dates.formatFrom "month" 4 = Ok "long" /\ Dates.formatFrom "month" 3 = Ok "short"
  /\ Dates.formatFrom "year" 4 = Ok "numeric" /\ Dates.formatFrom "year" 2 = Ok "2-digit".
Proof. repeat split. Qed.

End TemplateExamples.

(* ===================================================================== *)
(** ** What a match consumes and captures *)
(* ===================================================================== *)

Section MatcherFacts.
Import RegExp Spec StrFacts.

Lemma suffix_of_refl (s : string) : suffix_of s s.
Proof. now exists "". Qed.

Lemma suffix_of_trans (a b c : string) : suffix_of a b -> suffix_of b c -> suffix_of a c.
Proof.
  intros [f1 ->] [f2 ->]. exists (f2 +:+ f1). now rewrite sapp_assoc.
Qed.

Lemma suffix_of_tail (c : ascii) (s : string) : suffix_of s (String c s).
Proof. now exists (String c ""). Qed.

Lemma consumed_app (front rest : string) : consumed (front +:+ rest) rest = front.
Proof.
  unfold consumed. rewrite slength_app.
  replace (String.length front + String.length rest - String.length rest)
    with (String.length front) by lia.
  apply take_app.
Qed.

Lemma consumed_suffix (s s' : string) :
  suffix_of s' s -> s = consumed s s' +:+ s'.
Proof. intros [front ->]. now rewrite consumed_app. Qed.

(** When a match goes through, the continuation was entered on what is left
    of the text after some front part, and, for a pattern without groups,
    with the captures it started from. *)
Lemma matcher_sound (r : re) :
  forall whole R s cs (k : string -> Captures -> option R) x,
    matcher r whole R s cs k = Some x ->
    exists s' cs',
      suffix_of s' s /\ k s' cs' = Some x /\ (plain r = true -> cs' = cs).
Proof.
  induction r as [| | negated items | w | a IHa b IHb | a IHa b IHb
                  | greedy a IHa | n a IHa | | | a IHa | e | ];
    intros whole R s cs k x H; simpl in H; try discriminate H.
  - exists s, cs. auto using suffix_of_refl.
  - destruct s as [|c s]; [discriminate |].
    destruct (is_newline c); [discriminate |].
    exists s, cs. auto using suffix_of_tail.
  - destruct s as [|c s]; [discriminate |].
    destruct (xorb negated (in_class c items)); [|discriminate].
    exists s, cs. auto using suffix_of_tail.
  - destruct (Str.strip_prefix w s) as [s'|] eqn:E; [|discriminate].
    exists s', cs. repeat split; auto. exists w. now apply strip_prefix_app.
  - destruct (IHa _ _ _ _ _ _ H) as (s1 & cs1 & Hs1 & H1 & Hp1).
    destruct (IHb _ _ _ _ _ _ H1) as (s2 & cs2 & Hs2 & H2 & Hp2).
    exists s2, cs2. repeat split; eauto using suffix_of_trans.
    simpl. intros Hp. apply andb_true_iff in Hp as [Ha Hb].
    now rewrite Hp2, Hp1.
  - destruct (matcher a whole R s cs k) as [y|] eqn:Ea.
    + injection H as ->.
      destruct (IHa _ _ _ _ _ _ Ea) as (s1 & cs1 & Hs1 & H1 & Hp1).
      exists s1, cs1. repeat split; auto.
      simpl. intros Hp. apply andb_true_iff in Hp as [Ha Hb]. auto.
    + destruct (IHb _ _ _ _ _ _ H) as (s1 & cs1 & Hs1 & H1 & Hp1).
      exists s1, cs1. repeat split; auto.
      simpl. intros Hp. apply andb_true_iff in Hp as [Ha Hb]. auto.
  - remember (String.length s) as fuel eqn:Hfuel. clear Hfuel.
    revert s cs H. induction fuel as [|fuel IHfuel]; intros s cs H.
    + exists s, cs. auto using suffix_of_refl.
    + simpl in H.
      match type of H with
      | context [matcher a whole R s cs ?K] =>
          remember (matcher a whole R s cs K) as again eqn:Eagain
      end.
      assert (Hagain : again = Some x ->
                exists s' cs',
                  suffix_of s' s /\ k s' cs' = Some x /\ (plain a = true -> cs' = cs)).
      { intros Hx. rewrite Eagain in Hx.
        destruct (IHa _ _ _ _ _ _ Hx) as (s1 & cs1 & Hs1 & H1 & Hp1).
        destruct (decide (String.length s1 < String.length s)); [|discriminate].
        destruct (IHfuel _ _ H1) as (s2 & cs2 & Hs2 & H2 & Hp2).
        exists s2, cs2. repeat split; eauto using suffix_of_trans.
        intros Hp. simpl in Hp2. now rewrite Hp2, Hp1. }
      clear Eagain. destruct greedy.
      * destruct again as [y|].
        -- injection H as ->. now apply Hagain.
        -- exists s, cs. auto using suffix_of_refl.
      * destruct (k s cs) as [y|] eqn:Ek.
        -- injection H as ->. exists s, cs. auto using suffix_of_refl.
        -- now apply Hagain.
  - destruct (IHa _ _ _ _ _ _ H) as (s1 & cs1 & Hs1 & H1 & Hp1).
    exists s1, (cs1 ++ [MkMatch n (consumed s s1)]). repeat split; auto.
    discriminate.
  - destruct (String.length s =? String.length whole); [|discriminate].
    exists s, cs. auto using suffix_of_refl.
  - destruct s; [|discriminate]. exists "", cs. auto using suffix_of_refl.
  - destruct (matcher a whole unit s cs _); [|discriminate].
    exists s, cs. auto using suffix_of_refl.
Qed.

(** A match of a sequence of groups: the captures it adds spell, in order,
    exactly the text it went over. *)
Lemma matcher_tiled (r : re) :
  forall whole R s cs (k : string -> Captures -> option R) x,
    tiled r = true ->
    matcher r whole R s cs k = Some x ->
    exists s' caps,
      k s' (cs ++ caps) = Some x /\ s = Str.join (map mvalue caps) +:+ s'.
Proof.
  induction r as [| | negated items | w | a IHa b IHb | a IHa b IHb
                  | greedy a IHa | n a IHa | | | a IHa | e | ];
    intros whole R s cs k x Ht H; simpl in Ht; try discriminate.
  - exists s, []. now rewrite app_nil_r.
  - apply andb_true_iff in Ht as [Hta Htb]. simpl in H.
    destruct (IHa _ _ _ _ _ _ Hta H) as (s1 & caps1 & H1 & E1).
    destruct (IHb _ _ _ _ _ _ Htb H1) as (s2 & caps2 & H2 & E2).
    exists s2, (caps1 ++ caps2). split.
    + now rewrite app_assoc.
    + rewrite map_app, join_app, StrFacts.sapp_assoc. now rewrite <- E2.
  - simpl in H.
    destruct (matcher_sound _ _ _ _ _ _ _ H) as (s1 & cs1 & Hs1 & H1 & Hp1).
    rewrite (Hp1 Ht) in H1.
    exists s1, [MkMatch n (consumed s s1)]. split; [exact H1 |].
    simpl. rewrite join_cons, join_nil, StrFacts.sapp_nil_r.
    now apply consumed_suffix.
  - simpl in H. destruct (String.length s =? String.length whole); [|discriminate].
    exists s, []. now rewrite app_nil_r.
  - simpl in H. destruct s; [|discriminate]. exists "", []. now rewrite app_nil_r.
  - simpl in H. destruct (matcher a whole unit s cs _); [|discriminate].
    exists s, []. now rewrite app_nil_r.
Qed.

Lemma tiled_Seqs (l : list re) :
  Forall (fun r => tiled r = true) l -> tiled (Seqs l) = true.
Proof.
  induction 1 as [|r l Hr _ IH]; [reflexivity |]. simpl. now rewrite Hr, IH.
Qed.

Lemma plain_Alts (l : list re) :
  Forall (fun r => plain r = true) l -> plain (Alts l) = true.
Proof.
  induction 1 as [|r l Hr Hl IH]; [reflexivity |].
  simpl. destruct l; [exact Hr |]. simpl in *. now rewrite Hr, IH.
Qed.

Lemma plain_pattern_text_step (s : string) :
  plain (pattern_text s) = true
  /\ forall c, plain (pattern_text (String c s)) = true.
Proof.
  induction s as [|e s [IH1 IH2]].
  - split; [reflexivity |]. intros c. simpl.
    destruct (Ascii.eqb c backslash); [reflexivity |].
    destruct (is_syntax c); [reflexivity |].
    repeat (match goal with |- context [if ?b then _ else _] => destruct b end);
      reflexivity.
  - split; [apply IH2 |]. intros c.
    pose proof (IH2 e) as Hnext.
    change (pattern_text (String c (String e s))) with
      (if Ascii.eqb c backslash then
         if Ascii.eqb e "s" then Seq (Class false [ISpace]) (pattern_text s)
         else if Ascii.eqb e "d" then Seq Digit (pattern_text s)
         else if is_alnum e then Unread
         else Seq (Text (String e EmptyString)) (pattern_text s)
       else if is_syntax c then Unread
       else if Ascii.eqb c "." then Seq Any (pattern_text (String e s))
       else if Ascii.eqb c "^" then Seq AtStart (pattern_text (String e s))
       else if Ascii.eqb c "$" then Seq AtEnd (pattern_text (String e s))
       else Seq (Text (String c EmptyString)) (pattern_text (String e s))).
    repeat (match goal with |- context [if ?b then _ else _] => destruct b end);
      cbn [plain andb]; auto.
Qed.

Lemma plain_pattern_text (s : string) : plain (pattern_text s) = true.
Proof. apply plain_pattern_text_step. Qed.

(** A class with a quantifier behind it has no group, whatever the text
    between the brackets is. *)
Lemma plain_bracketed (body : string) (quantified : re -> re) :
  (forall a, plain a = true -> plain (quantified a) = true) ->
  plain (bracketed body quantified) = true.
Proof.
  intros Hq. unfold bracketed.
  destruct (read_class body); cbn [plain andb]; try reflexivity.
  - now apply Hq.
  - rewrite plain_pattern_text. now apply Hq.
Qed.

Lemma plain_Plus (greedy : bool) (a : re) : plain a = true -> plain (Plus greedy a) = true.
Proof. intros H. simpl. now rewrite H. Qed.

Lemma plain_Opt (a : re) : plain a = true -> plain (Opt a) = true.
Proof. intros H. simpl. now rewrite H. Qed.

Lemma plain_Star (greedy : bool) (a : re) : plain a = true -> plain (Star greedy a) = true.
Proof. intros H. exact H. Qed.

(** A pattern that [new RegExp] takes is the pattern. *)
Lemma RegExp_new_Ok (r r' : re) : RegExp_new r = Ok r' -> r' = r.
Proof. unfold RegExp_new. destruct (refused r); [discriminate | now intros [= <-]]. Qed.

(** What [search_in] finds is a match at some point of the text at or
    after the starting point. *)
Lemma search_in_found (r : re) (whole : string) :
  forall s skipped f,
    search_in r whole skipped s = Some f ->
    exists s1,
      skipped +:+ s = before f +:+ s1
      /\ match_at r whole s1 = Some (groups f, after f)
      /\ matched f = consumed s1 (after f)
      /\ s1 = matched f +:+ after f.
Proof.
  assert (Hhere : forall s cs s', match_at r whole s = Some (cs, s') ->
                    s = consumed s s' +:+ s').
  { intros s cs s' H. unfold match_at in H.
    destruct (matcher_sound _ _ _ _ _ _ _ H) as (s1 & cs1 & Hs1 & [= _ <-] & _).
    now apply consumed_suffix. }
  induction s as [|c s IH]; intros skipped f H; simpl in H.
  - destruct (match_at r whole "") as [[cs s']|] eqn:E; [|discriminate].
    injection H as <-. exists "". simpl. repeat split; eauto.
  - destruct (match_at r whole (String c s)) as [[cs s']|] eqn:E.
    + injection H as <-. exists (String c s). simpl. repeat split; eauto.
    + destruct (IH _ _ H) as (s1 & E1 & Hm & Hc & Hs).
      exists s1. repeat split; auto.
      rewrite <- E1. now rewrite StrFacts.sapp_assoc.
Qed.

Lemma not_matched_text (t : string) :
  Str.join (map text_of (NamedRegExp.not_matched t)) = t.
Proof. destruct t; reflexivity. Qed.

(** The steps of [iterate] spell the text, and each match among them is a
    match of the pattern with the text it covers. *)
Lemma iterate_from_spec (r : re) (whole : string) (fuel : nat) :
  forall s,
    Str.join (map text_of (NamedRegExp.iterate_from fuel r whole s)) = s
    /\ Forall (fun step =>
                 match step with
                 | NamedRegExp.Matched t m =>
                     exists s1 rest, match_at r whole s1 = Some (m, rest)
                                     /\ t = consumed s1 rest
                 | NamedRegExp.NotMatched _ => True
                 end) (NamedRegExp.iterate_from fuel r whole s).
Proof.
  induction fuel as [|fuel IH]; intros s; simpl.
  - split; [apply not_matched_text |].
    unfold NamedRegExp.not_matched. destruct (Str.is_empty s); repeat constructor.
  - destruct (search_in r whole "" s) as [f|] eqn:E.
    2:{ split; [apply not_matched_text |].
        unfold NamedRegExp.not_matched. destruct (Str.is_empty s); repeat constructor. }
    destruct (search_in_found _ _ _ _ _ E) as (s1 & E1 & Hm & Hc & Hs).
    rewrite sapp_nil_l in E1. split.
    + rewrite map_app, join_app, not_matched_text. simpl. rewrite join_cons.
      rewrite E1, Hs. f_equal. f_equal.
      destruct (Str.is_empty (matched f)); [apply not_matched_text | apply IH].
    + apply Forall_app. split.
      * unfold NamedRegExp.not_matched. destruct (Str.is_empty (before f)); repeat constructor.
      * constructor; [now exists s1, (after f) |].
        destruct (Str.is_empty (matched f)); [|apply IH].
        unfold NamedRegExp.not_matched. destruct (Str.is_empty (after f)); repeat constructor.
Qed.

Lemma iterate_spells (r : re) (s : string) :
  Str.join (map text_of (NamedRegExp.iterate r s)) = s.
Proof. apply iterate_from_spec. Qed.

End MatcherFacts.

(* ===================================================================== *)
(** ** The loops of the model run to their end *)
(* ===================================================================== *)

Section FuelFacts.
Import RegExp Spec StrFacts.

Lemma suffix_of_length (s' s : string) :
  suffix_of s' s -> String.length s' <= String.length s.
Proof. intros [front ->]. rewrite slength_app. lia. Qed.

(** A match depends on its continuation only at what can be left of the
    text. *)
Lemma matcher_ext (r : re) :
  forall whole R s cs (k1 k2 : string -> Captures -> option R),
    (forall s' cs', String.length s' <= String.length s -> k1 s' cs' = k2 s' cs') ->
    matcher r whole R s cs k1 = matcher r whole R s cs k2.
Proof.
  induction r as [| | negated items | w | a IHa b IHb | a IHa b IHb
                  | greedy a IHa | n a IHa | | | a IHa | e | ];
    intros whole R s cs k1 k2 Hk; simpl; try reflexivity.
  - now apply Hk.
  - destruct s as [|c s]; [reflexivity |].
    destruct (is_newline c); [reflexivity |]. apply Hk. simpl. lia.
  - destruct s as [|c s]; [reflexivity |].
    destruct (xorb negated (in_class c items)); [|reflexivity]. apply Hk. simpl. lia.
  - destruct (Str.strip_prefix w s) as [s'|] eqn:E; [|reflexivity].
    apply Hk. apply strip_prefix_app in E. rewrite E, slength_app. lia.
  - apply IHa. intros s' cs' Hs'. apply IHb. intros s'' cs'' Hs''. apply Hk. lia.
  - rewrite (IHa _ _ _ _ k1 k2 Hk), (IHb _ _ _ _ k1 k2 Hk). reflexivity.
  - assert (Hturns : forall fuel t ct,
              (forall s' cs', String.length s' <= String.length t -> k1 s' cs' = k2 s' cs') ->
              turns (matcher a whole R) greedy k1 fuel t ct
              = turns (matcher a whole R) greedy k2 fuel t ct).
    { induction fuel as [|fuel IHfuel]; intros t ct Ht; simpl.
      - now apply Ht.
      - rewrite (Ht t ct) by lia.
        assert (Hagain :
          matcher a whole R t ct (fun s' cs' =>
            if decide (String.length s' < String.length t)
            then turns (matcher a whole R) greedy k1 fuel s' cs' else None)
          = matcher a whole R t ct (fun s' cs' =>
            if decide (String.length s' < String.length t)
            then turns (matcher a whole R) greedy k2 fuel s' cs' else None)).
        { apply IHa. intros s' cs' Hs'.
          destruct (decide (String.length s' < String.length t)); [|reflexivity].
          apply IHfuel. intros s'' cs'' Hs''. apply Ht. lia. }
        now rewrite Hagain. }
    now apply Hturns.
  - apply IHa. intros s' cs' Hs'. now apply Hk.
  - destruct (String.length s =? String.length whole); [|reflexivity]. now apply Hk.
  - destruct s; [|reflexivity]. now apply Hk.
  - destruct (matcher a whole unit s cs _); [|reflexivity]. now apply Hk.
Qed.

Lemma matcher_refused (r : re) whole R s cs (k : string -> Captures -> option R) :
  (forall s' cs', k s' cs' = None) -> matcher r whole R s cs k = None.
Proof.
  intros Hk. destruct (matcher r whole R s cs k) as [x|] eqn:E; [|reflexivity].
  destruct (matcher_sound _ _ _ _ _ _ _ E) as (s' & cs' & _ & H & _).
  now rewrite Hk in H.
Qed.

(** The turns of a repetition: with [length s] turns allowed, no turn is
    missing. *)
Lemma turns_enough (a : re) whole R (greedy : bool) (k : string -> Captures -> option R)
    (n : nat) :
  forall s cs f1 f2,
    String.length s <= n -> String.length s <= f1 -> String.length s <= f2 ->
    turns (matcher a whole R) greedy k f1 s cs = turns (matcher a whole R) greedy k f2 s cs.
Proof.
  induction n as [|n IH]; intros s cs f1 f2 Hn H1 H2.
  - assert (Hnone : forall f,
              matcher a whole R s cs (fun s' cs' =>
                if decide (String.length s' < String.length s)
                then turns (matcher a whole R) greedy k f s' cs' else None) = None).
    { intros f. apply matcher_refused. intros s' cs'.
      destruct (decide (String.length s' < String.length s)); [lia | reflexivity]. }
    destruct f1, f2; simpl; rewrite ?Hnone; destruct greedy; try reflexivity;
      now destruct (k s cs).
  - destruct f1 as [|f1], f2 as [|f2].
    + reflexivity.
    + apply (IH s cs 0 (S f2)); lia.
    + apply (IH s cs (S f1) 0); lia.
    + simpl.
      assert (Hagain :
        matcher a whole R s cs (fun s' cs' =>
          if decide (String.length s' < String.length s)
          then turns (matcher a whole R) greedy k f1 s' cs' else None)
        = matcher a whole R s cs (fun s' cs' =>
          if decide (String.length s' < String.length s)
          then turns (matcher a whole R) greedy k f2 s' cs' else None)).
      { apply matcher_ext. intros s' cs' Hs'.
        destruct (decide (String.length s' < String.length s)); [|reflexivity].
        apply IH; lia. }
      now rewrite Hagain.
Qed.

Lemma found_shortens (r : re) (whole s : string) (f : Found) :
  search_in r whole "" s = Some f ->
  Str.is_empty (matched f) = false ->
  String.length (after f) < String.length s.
Proof.
  intros Hs Hne. destruct (search_in_found _ _ _ _ _ Hs) as (s1 & E1 & _ & _ & E2).
  rewrite sapp_nil_l in E1. rewrite E1, E2, !slength_app.
  destruct (matched f); [discriminate | simpl; lia].
Qed.

(** The steps of [iterate]: with [length s + 1] turns allowed, no step is
    missing. *)
Lemma iterate_from_enough (r : re) (whole : string) (n : nat) :
  forall s f1 f2,
    String.length s <= n -> String.length s < f1 -> String.length s < f2 ->
    NamedRegExp.iterate_from f1 r whole s = NamedRegExp.iterate_from f2 r whole s.
Proof.
  induction n as [|n IH]; intros s f1 f2 Hn H1 H2;
    (destruct f1 as [|f1]; [lia |]); (destruct f2 as [|f2]; [lia |]); simpl;
    destruct (search_in r whole "" s) as [f|] eqn:E; try reflexivity;
    destruct (Str.is_empty (matched f)) eqn:Hm; try reflexivity;
    pose proof (found_shortens _ _ _ _ E Hm) as Hlt.
  - lia.
  - do 2 f_equal. apply IH; lia.
Qed.

(** The turns of [RegexParser.parseAll]: when the pattern only matches at
    least one character, [length s + 1] turns see the loop to its end. *)
Lemma parseAll_turns_enough (p : Dates.RegexParser) (whole : string) (n : nat) :
  (forall s f, search_in (Dates.rp_regex p) whole "" s = Some f ->
               Str.is_empty (matched f) = false) ->
  forall s result f1 f2,
    String.length s <= n -> String.length s < f1 -> String.length s < f2 ->
    Dates.parseAll_turns f1 p whole s result = Dates.parseAll_turns f2 p whole s result.
Proof.
  intros Hne. induction n as [|n IH]; intros s result f1 f2 Hn H1 H2;
    (destruct f1 as [|f1]; [lia |]); (destruct f2 as [|f2]; [lia |]); simpl;
    destruct (search_in (Dates.rp_regex p) whole "" s) as [f|] eqn:E; try reflexivity;
    pose proof (found_shortens _ _ _ _ E (Hne _ _ E)) as Hlt.
  - lia.
  - destruct (Dates.assemble (Dates.rp_groups p) (groups f)) as [d|e]; [|reflexivity].
    simpl. apply IH; lia.
Qed.

(** What is left after a match is no longer than the text, and shorter
    when the pattern is a consuming one. *)
Lemma matcher_shortens (r : re) :
  forall whole R s cs (k : string -> Captures -> option R) x,
    matcher r whole R s cs k = Some x ->
    exists s' cs',
      k s' cs' = Some x
      /\ String.length s' <= String.length s
      /\ (consuming r = true -> String.length s' < String.length s).
Proof.
  induction r as [| | negated items | w | a IHa b IHb | a IHa b IHb
                  | greedy a IHa | n a IHa | | | a IHa | e | ];
    intros whole R s cs k x H; simpl in H; try discriminate H.
  - exists s, cs. repeat split; [exact H | lia | discriminate].
  - destruct s as [|c s]; [discriminate |].
    destruct (is_newline c); [discriminate |].
    exists s, cs. simpl. repeat split; [exact H | lia | lia].
  - destruct s as [|c s]; [discriminate |].
    destruct (xorb negated (in_class c items)); [|discriminate].
    exists s, cs. simpl. repeat split; [exact H | lia | lia].
  - destruct (Str.strip_prefix w s) as [s'|] eqn:E; [|discriminate].
    apply strip_prefix_app in E. exists s', cs. subst s. rewrite slength_app.
    repeat split; [exact H | lia |].
    simpl. destruct w; [discriminate | simpl; lia].
  - destruct (IHa _ _ _ _ _ _ H) as (s1 & cs1 & H1 & Hle1 & Hlt1).
    destruct (IHb _ _ _ _ _ _ H1) as (s2 & cs2 & H2 & Hle2 & Hlt2).
    exists s2, cs2. repeat split; [exact H2 | lia |].
    simpl. intros Hc. apply orb_true_iff in Hc as [Hc|Hc];
      [specialize (Hlt1 Hc) | specialize (Hlt2 Hc)]; lia.
  - simpl. destruct (matcher a whole R s cs k) as [y|] eqn:E.
    + injection H as ->. destruct (IHa _ _ _ _ _ _ E) as (s1 & cs1 & H1 & Hle1 & Hlt1).
      exists s1, cs1. repeat split; [exact H1 | lia |].
      intros Hc. apply andb_true_iff in Hc as [Hc _]. auto.
    + destruct (IHb _ _ _ _ _ _ H) as (s1 & cs1 & H1 & Hle1 & Hlt1).
      exists s1, cs1. repeat split; [exact H1 | lia |].
      intros Hc. apply andb_true_iff in Hc as [_ Hc]. auto.
  - destruct (matcher_sound (Star greedy a) whole R s cs k x H)
      as (s' & cs' & Hsuf & Hk & _).
    exists s', cs'. repeat split; [exact Hk | now apply suffix_of_length | discriminate].
  - destruct (IHa _ _ _ _ _ _ H) as (s1 & cs1 & H1 & Hle1 & Hlt1).
    eexists _, _. repeat split; [exact H1 | lia | exact Hlt1].
  - destruct (String.length s =? String.length whole); [|discriminate].
    exists s, cs. repeat split; [exact H | lia | discriminate].
  - destruct s; [|discriminate].
    exists "", cs. repeat split; [exact H | lia | discriminate].
  - destruct (matcher a whole unit s cs _); [|discriminate].
    exists s, cs. repeat split; [exact H | lia | discriminate].
Qed.

Lemma consuming_found (r : re) (whole s : string) (f : Found) :
  consuming r = true ->
  search_in r whole "" s = Some f ->
  Str.is_empty (matched f) = false.
Proof.
  intros Hc Hs. destruct (search_in_found _ _ _ _ _ Hs) as (s1 & _ & Hm & _ & E).
  unfold match_at in Hm.
  destruct (matcher_shortens _ _ _ _ _ _ _ Hm) as (s' & cs' & Hk & _ & Hlt).
  injection Hk as _ ->.
  specialize (Hlt Hc). rewrite E, slength_app in Hlt.
  destruct (matched f); [simpl in Hlt; lia | reflexivity].
Qed.

Lemma consuming_Alts (l : list re) :
  nonempty l = true -> forallb consuming l = true -> consuming (Alts l) = true.
Proof.
  induction l as [|a l IH]; [discriminate |]. intros _ Hall.
  simpl in Hall. apply andb_true_iff in Hall as [Ha Hl].
  destruct l as [|b l]; [exact Ha |].
  change (Alts (a :: b :: l)) with (Alt a (Alts (b :: l))). simpl consuming.
  rewrite Ha. now apply IH.
Qed.

Lemma insert_by_length_length (n : string) (l : list string) :
  length (Dates.insert_by_length n l) = S (length l).
Proof.
  induction l as [|x l IH]; simpl; [reflexivity |].
  destruct (String.length x <=? String.length n); simpl; [reflexivity | now rewrite IH].
Qed.

Lemma longest_first_length (l : list string) :
  length (Dates.longest_first l) = length l.
Proof.
  induction l as [|n l IH]; simpl; [reflexivity |].
  now rewrite insert_by_length_length, IH.
Qed.

Lemma pattern_names_nonempty (table : Dates.DatumLookup) :
  nonempty table = true -> nonempty (Dates.pattern_names table) = true.
Proof.
  intros H. pose proof (longest_first_length (map Dates.dname table)) as Hlen.
  unfold Dates.pattern_names. rewrite length_map in Hlen.
  destruct (Dates.longest_first (map Dates.dname table)); [|reflexivity].
  destruct table; [discriminate | discriminate].
Qed.

Lemma consuming_lookup (lower : string -> string) (table : Dates.DatumLookup) :
  named lower table = true -> consuming (Dates.lookup_pattern_lower lower table) = true.
Proof.
  unfold named, lowered, Dates.lookup_pattern_lower. intros H.
  apply andb_true_iff in H as [Hne Hall]. apply pattern_names_nonempty in Hne.
  apply consuming_Alts.
  - now destruct (Dates.pattern_names table).
  - clear Hne. induction (Dates.pattern_names table) as [|d names IH]; [reflexivity |].
    simpl in *. apply andb_true_iff in Hall as [-> Hall]. now apply IH.
Qed.

(** Whatever a text makes between the brackets, with [+?] behind them it
    takes a character. *)
Lemma consuming_separator (v : string) : consuming (Dates.separator v) = true.
Proof.
  unfold Dates.separator, bracketed.
  destruct (read_class (Dates.separator_chars v)); reflexivity.
Qed.

(** Every piece of the parser's pattern takes at least one character, when
    the lookups have names and no empty one. *)
Lemma consuming_piece (lower : string -> string)
    (months_table weekdays_table : Dates.DatumLookup) (part : Part) :
  named lower months_table = true -> named lower weekdays_table = true ->
  consuming (Dates.parser_piece lower months_table weekdays_table part) = true.
Proof.
  intros Hm Hw. unfold Dates.parser_piece.
  destruct (String.eqb (type part) "year"); [reflexivity |].
  destruct (String.eqb (type part) "month").
  { simpl. now apply consuming_lookup. }
  destruct (String.eqb (type part) "day"); [reflexivity |].
  destruct (String.eqb (type part) "weekday").
  { simpl. now apply consuming_lookup. }
  apply consuming_separator.
Qed.

Section ParserTurns.
Context (env : Dates.Env).

(** The loop of [RegexParser.parseAll] over a pattern [regexParser] built
    from at least one part runs to its end: more turns than
    [length lower + 1] change nothing. *)
Lemma regexParser_parseAll_enough (b : Dates.RegexBuilder) (v : string) (fuel : nat) :
  let lower := Dates.toLocaleLowerCase env (Dates.rb_locale b) in
  nonempty (Dates.rb_formatted b) = true ->
  named lower (Dates.Months_get env (Dates.rb_locale b)) = true ->
  named lower (Dates.Weekdays_get env (Dates.rb_locale b)) = true ->
  String.length (lower v) < fuel ->
  Dates.parseAll_turns fuel (Dates.regexParser env b) (lower v) (lower v) []
  = Dates.RegexParser_parseAll env (Dates.regexParser env b) v.
Proof.
  intros lower Hne Hm Hw Hfuel. unfold Dates.RegexParser_parseAll.
  change (Dates.rp_locale (Dates.regexParser env b)) with (Dates.rb_locale b).
  fold lower.
  apply (parseAll_turns_enough _ _ (String.length (lower v)));
    [| lia | exact Hfuel | lia].
  intros s f. apply consuming_found. simpl.
  destruct (Dates.rb_formatted b) as [|p parts]; [discriminate |].
  simpl. now rewrite consuming_piece.
Qed.

End ParserTurns.

End FuelFacts.

(* ===================================================================== *)
(** ** The parts spell the formatted text *)
(* ===================================================================== *)

Section SpellingFacts.
Import RegExp Spec StrFacts JS.

Lemma mapM_Ok {A B} (f : A -> Result B) (l : list A) (results : list B) :
  mapM f l = Ok results -> Forall2 (fun a b => f a = Ok b) l results.
Proof.
  revert results. induction l as [|a l IH]; intros results H; simpl in H.
  - injection H as <-. constructor.
  - destruct (f a) as [b|e] eqn:Ea; simpl in H; [|discriminate].
    destruct (mapM f l) as [bs|e]; simpl in H; [|discriminate].
    injection H as <-. constructor; auto.
Qed.

Lemma is_empty_true (s : string) : Str.is_empty s = true -> s = "".
Proof. destruct s; [reflexivity | discriminate]. Qed.

Lemma joined_cons (p : Part) (l : list Part) : joined (p :: l) = value p +:+ joined l.
Proof. unfold joined, values. simpl. apply join_cons. Qed.

Lemma joined_app (l1 l2 : list Part) : joined (l1 ++ l2) = joined l1 +:+ joined l2.
Proof. unfold joined, values. rewrite map_app. apply join_app. Qed.

Lemma joined_concat (ls : list (list Part)) :
  joined (concat ls) = Str.join (map joined ls).
Proof.
  induction ls as [|l ls IH]; [reflexivity |].
  simpl. now rewrite joined_app, join_cons, IH.
Qed.

(** A match of one group around a pattern without groups: the one capture
    is the matched text. *)
Lemma match_at_group (n : string) (a : re) (whole s rest : string) (m : Captures) :
  plain a = true ->
  match_at (Group n a) whole s = Some (m, rest) ->
  m = [MkMatch n (consumed s rest)].
Proof.
  intros Hp H. unfold match_at in H. simpl in H.
  destruct (matcher_sound _ _ _ _ _ _ _ H) as (s1 & cs1 & _ & H1 & Hcs).
  rewrite (Hcs Hp) in H1. now injection H1 as <- <-.
Qed.

(** A text matched from end to end by a sequence of groups is spelled by
    its captures. *)
Lemma covering_match_spells (r : re) (text : string) (f : Found) :
  tiled r = true ->
  search_in r text "" text = Some f ->
  before f = "" -> after f = "" ->
  Str.join (map mvalue (groups f)) = text.
Proof.
  intros Ht Hs Hb Ha.
  destruct (search_in_found _ _ _ _ _ Hs) as (s1 & E1 & Hm & _ & _).
  rewrite Hb, !sapp_nil_l in E1. subst s1. rewrite Ha in Hm.
  unfold match_at in Hm.
  destruct (matcher_tiled _ _ _ _ _ _ _ Ht Hm) as (s' & caps & Hk & E).
  injection Hk as <- ->. now rewrite sapp_nil_r in E.
Qed.

(** With [^] in front and [$] behind, every match is from end to end. *)
Lemma anchored_match_spells (r : re) (text : string) (m : Captures) :
  tiled r = true ->
  exec (Seq AtStart (Seq r AtEnd)) text = Some m ->
  Str.join (map mvalue m) = text.
Proof.
  intros Ht H. unfold exec in H.
  destruct (search_in _ text "" text) as [f|] eqn:Hs; [|discriminate].
  injection H as <-.
  destruct (search_in_found _ _ _ _ _ Hs) as (s1 & E1 & Hm & _ & _).
  rewrite sapp_nil_l in E1. unfold match_at in Hm. simpl in Hm.
  destruct (String.length s1 =? String.length text) eqn:El; [|discriminate].
  apply Nat.eqb_eq in El. rewrite E1, slength_app in El.
  assert (Hb : before f = "") by (apply length_zero; lia).
  rewrite Hb, sapp_nil_l in E1. subst s1.
  destruct (matcher_tiled _ _ _ _ _ _ _ Ht Hm) as (s' & caps & Hk & E).
  destruct s'; [|discriminate]. injection Hk as <- _.
  now rewrite sapp_nil_r in E.
Qed.

Section DatesSide.
Import Dates.
Variable env : Env.
Variable locale : string.
Variable options : Options.

Lemma joined_collapseLiterals (l : list Part) : joined (collapseLiterals l) = joined l.
Proof. apply collapseLiterals_spec. Qed.

Lemma joined_typed (m : Captures) :
  joined (map (typed env locale options) m) = Str.join (map mvalue m).
Proof. unfold joined, values. rewrite map_map. reflexivity. Qed.

Lemma lookup_pattern_plain (table : DatumLookup) : plain (lookup_pattern table) = true.
Proof.
  apply plain_Alts. apply Forall_map. apply Forall_forall. now intros.
Qed.

Lemma actual_piece_tiled (v : NamedRegExp.MatchOrNot) (r : re) :
  actual_piece env locale options v = Ok r -> tiled r = true.
Proof.
  destruct v as [t | t m]; simpl.
  - intros [= <-]. cbn [tiled]. apply plain_bracketed, plain_Plus.
  - destruct (map name _) as [|ty tys]; [discriminate |].
    destruct (negb (Boolean_string ty)); [discriminate |].
    destruct (String.eqb ty "year"); [now intros [= <-] |].
    destruct (String.eqb ty "day"); [now intros [= <-] |].
    destruct (String.eqb ty "month").
    { intros [= <-]. simpl. apply lookup_pattern_plain. }
    destruct (String.eqb ty "weekday").
    { intros [= <-]. simpl. apply lookup_pattern_plain. }
    now intros [= <-].
Qed.

Lemma actual_pieces_tiled (formatted : string) (pieces : list re) :
  actual_pieces env locale options formatted = Ok pieces -> tiled (Seqs pieces) = true.
Proof.
  intros H. apply mapM_Ok in H. apply tiled_Seqs.
  induction H as [|v r vs rs Hv _ IH]; constructor; eauto using actual_piece_tiled.
Qed.

Lemma FormatToParts_spells (d : Date) (parts : list Part) (text : string) :
  FormatToParts_formatToParts env locale options d = Ok parts ->
  Improved_format env locale options d = Ok text ->
  joined parts = text.
Proof.
  unfold FormatToParts_formatToParts, actualNamesPattern. intros H Htext.
  destruct (probe_formatted env locale options) as [formatted|e]; simpl in H; [|discriminate].
  destruct (actual_pieces env locale options formatted) as [pieces|e] eqn:Hp;
    simpl in H; [|discriminate].
  destruct (NamedRegExp.create _) as [regex|e] eqn:Hregex; simpl in H; [|discriminate].
  apply RegExp_new_Ok in Hregex. subst regex.
  rewrite Htext in H. simpl in H.
  destruct (NamedRegExp.match_ _ text) as [m|] eqn:Hm; [|discriminate].
  injection H as <-.
  rewrite joined_collapseLiterals, joined_typed.
  apply (anchored_match_spells (Seqs pieces)); [|exact Hm].
  now apply (actual_pieces_tiled formatted).
Qed.

End DatesSide.

Section MoneySide.
Import Money.
Context {Amount : Type}.
Variable env : @Env Amount.

Lemma IntegerGroupParser_spells (n : string) (a : re) (v : string) (parts : list Part) :
  plain a = true ->
  IntegerGroupParser_parse (Group n a) v = Ok parts ->
  joined parts = v.
Proof.
  intros Hp H. unfold IntegerGroupParser_parse in H. apply mapM_Ok in H.
  rewrite <- (iterate_spells (Group n a) v).
  pose proof (proj2 (iterate_from_spec (Group n a) v (S (String.length v)) v)) as Hall.
  fold (NamedRegExp.iterate (Group n a) v) in Hall.
  induction H as [|step p steps ps Hstep _ IH]; [reflexivity |].
  apply Forall_cons in Hall as [Hhere Hall].
  simpl. rewrite joined_cons, join_cons, (IH Hall). f_equal.
  destruct step as [t | t m]; simpl in *.
  - now injection Hstep as <-.
  - destruct Hhere as (s1 & rest & Hm & ->).
    rewrite (match_at_group _ _ _ _ _ _ Hp Hm) in Hstep. now injection Hstep as <-.
Qed.

Lemma convert_match_spells (m : NamedMatch) (parts : list Part) :
  convert_match m = Ok parts -> joined parts = mvalue m.
Proof.
  unfold convert_match. destruct (String.eqb (name m) "integer-group").
  - now apply IntegerGroupParser_spells.
  - intros [= <-]. unfold joined, values. simpl. now rewrite join_cons, sapp_nil_r.
Qed.

Lemma filter_nonempty_spells (m : list NamedMatch) :
  Str.join (map mvalue (filter (fun n => Boolean_string (mvalue n) = true) m))
  = Str.join (map mvalue m).
Proof.
  induction m as [|c m IH]; [reflexivity |].
  rewrite filter_cons. simpl map at 2. rewrite join_cons.
  destruct (decide (Boolean_string (mvalue c) = true)) as [_|Hempty].
  - simpl. now rewrite join_cons, IH.
  - rewrite IH. unfold Boolean_string in Hempty. destruct (mvalue c); [reflexivity |].
    now contradiction Hempty.
Qed.

Lemma convert_spells (m : list NamedMatch) (parts : list Part) :
  convert m = Ok parts -> joined parts = Str.join (map mvalue m).
Proof.
  unfold convert. intros H.
  destruct (mapM convert_match _) as [ls|e] eqn:Hls; simpl in H; [|discriminate].
  injection H as <-. rewrite joined_concat, <- filter_nonempty_spells.
  apply mapM_Ok in Hls.
  induction Hls as [|c ps cs pss Hc _ IH]; [reflexivity |].
  simpl. now rewrite !join_cons, IH, (convert_match_spells _ _ Hc).
Qed.

Lemma money_piece_tiled (locale : option string) (group : string) (p : Part) :
  plain (currency_pattern env locale) = true ->
  tiled (money_piece env locale group p) = true.
Proof.
  intros Hc. unfold money_piece.
  destruct (String.eqb (type p) "currency"); [exact Hc |].
  destruct (String.eqb (type p) "decimal").
  { cbn [tiled]. apply plain_bracketed, plain_Opt. }
  destruct (String.eqb (type p) "fraction"); [reflexivity |].
  destruct (String.eqb (type p) "integer").
  { cbn [tiled plain]. rewrite plain_bracketed by apply plain_Star. reflexivity. }
  cbn [tiled]. apply plain_bracketed, plain_Opt.
Qed.

Lemma buildFrom_tiled (parts : list Part) (locale : option string) :
  plain (currency_pattern env locale) = true ->
  tiled (buildFrom env parts locale) = true.
Proof.
  intros Hc. unfold buildFrom. simpl. rewrite andb_true_r.
  apply tiled_Seqs. apply Forall_map. apply Forall_forall. intros p _.
  now apply money_piece_tiled.
Qed.

Lemma NumberFormatPartParser_spells
    (exampleParts : list Part) (locale : option string) (text : string) (parts : list Part) :
  plain (currency_pattern env locale) = true ->
  covers (buildFrom env exampleParts locale) text = true ->
  NumberFormatPartParser_parse (buildFrom env exampleParts locale) text = Ok parts ->
  joined parts = text.
Proof.
  intros Hc Hcov H. unfold NumberFormatPartParser_parse in H.
  destruct (NamedRegExp.create _) as [regex|e] eqn:Hregex; simpl in H; [|discriminate].
  apply RegExp_new_Ok in Hregex. subst regex.
  unfold NamedRegExp.match_, exec in H. unfold covers in Hcov.
  destruct (search_in _ text "" text) as [f|] eqn:Hs; [|discriminate]. simpl in H.
  apply andb_true_iff in Hcov as [Hb Ha].
  rewrite (convert_spells _ _ H).
  apply (covering_match_spells _ _ _ (buildFrom_tiled _ _ Hc) Hs);
    now apply is_empty_true.
Qed.

End MoneySide.

End SpellingFacts.

Section SpellingTheorem.
Import RegExp Spec StrFacts.


(** X26.  The date half of that invariant holds: the values of the parts
    that the emulation's [formatToParts] makes of a date, joined in order,
    are the text the formatter writes for the date. *)
Theorem date_parts_spell_the_formatted_text
    (env : Dates.Env) (locale : string) (options : Dates.Options) (d : Dates.Date)
    (parts : list Part) (text : string) :
  Dates.FormatToParts_formatToParts env locale options d = Ok parts ->
  Dates.Improved_format env locale options d = Ok text ->
  joined parts = text.
Proof. apply FormatToParts_spells. Qed.

Lemma date_parts_spell_the_formatted_text_witness :
  joined [MkPart "weekday" "Fri"; MkPart "literal" ", "; MkPart "day" "25";
          MkPart "literal" " "; MkPart "month" "Jan"; MkPart "literal" " ";
          MkPart "year" "2019"] = "Fri, 25 Jan 2019".
Proof.
  apply (date_parts_spell_the_formatted_text (EnGB.env false) "en-GB"
           EnGB.short_options (Dates.MkDate 2019 1 25));
    vm_compute; reflexivity.
Defined.

(** X27.  The parts that the number-format part parser makes of a money
    text spell the stretch of the text that its pattern matched, and no
    more: what stands before the match and after it is in no part. *)
Theorem money_parts_spell_the_match
    {Amount : Type} (env : @Money.Env Amount) (exampleParts : list Part)
    (locale : option string) (text : string) (parts : list Part) :
  plain (Money.currency_pattern env locale) = true ->
  Money.NumberFormatPartParser_parse (Money.buildFrom env exampleParts locale) text
  = Ok parts ->
  exists f,
    search_in (Money.buildFrom env exampleParts locale) text "" text = Some f
    /\ text = before f +:+ matched f +:+ after f
    /\ joined parts = matched f.
Proof.
  intros Hc H. unfold Money.NumberFormatPartParser_parse in H.
  destruct (NamedRegExp.create _) as [regex|e] eqn:Hregex; simpl in H; [|discriminate].
  apply RegExp_new_Ok in Hregex. subst regex.
  unfold NamedRegExp.match_, exec in H.
  destruct (search_in _ text "" text) as [f|] eqn:Hs; [|discriminate]. simpl in H.
  exists f. split; [reflexivity |].
  destruct (search_in_found _ _ _ _ _ Hs) as (s1 & E1 & Hm & _ & E2).
  rewrite sapp_nil_l in E1. split; [now rewrite E1, E2 |].
  rewrite (convert_spells _ _ H).
  unfold match_at in Hm.
  destruct (matcher_tiled _ _ _ _ _ _ _ (buildFrom_tiled env _ _ Hc) Hm)
    as (s' & caps & Hk & E).
  injection Hk as Hcaps Hrest. cbn [app] in Hcaps. subst caps s'.
  rewrite E2 in E. symmetry. eapply sapp_inv_tail_here. exact E.
Qed.

Lemma money_parts_spell_the_match_witness :
  exists f,
    search_in (Money.buildFrom MoneyExample.env
                 [MkPart "currency" "GBP"; MkPart "literal" " "; MkPart "integer" "111";
                  MkPart "group" ","; MkPart "integer" "222"; MkPart "decimal" ".";
                  MkPart "fraction" "33"] None) "-GBP 1,234.5" "" "-GBP 1,234.5" = Some f
    /\ "-GBP 1,234.5" = before f +:+ matched f +:+ after f
    /\ joined [MkPart "currency" "GBP"; MkPart "literal" " "; MkPart "integer" "1";
               MkPart "group" ","; MkPart "integer" "234"; MkPart "decimal" ".";
               MkPart "fraction" "5"] = matched f.
Proof.
  apply (money_parts_spell_the_match MoneyExample.env
           [MkPart "currency" "GBP"; MkPart "literal" " "; MkPart "integer" "111";
            MkPart "group" ","; MkPart "integer" "222"; MkPart "decimal" ".";
            MkPart "fraction" "33"] None "-GBP 1,234.5");
    vm_compute; reflexivity.
Defined.

End SpellingTheorem.

(* ===================================================================== *)
(** ** How the parser's pattern reads a formatted text *)
(* ===================================================================== *)

Section MatcherSteps.
Import RegExp Spec StrFacts JS.
Variable whole : string.
Variable R : Type.

Lemma matcher_Seq_eq (a b : re) (s : string) (cs : Captures)
    (k : string -> Captures -> option R) :
  matcher (Seq a b) whole R s cs k
  = matcher a whole R s cs (fun s' cs' => matcher b whole R s' cs' k).
Proof. reflexivity. Qed.

Lemma matcher_Alt_eq (a b : re) (s : string) (cs : Captures)
    (k : string -> Captures -> option R) :
  matcher (Alt a b) whole R s cs k
  = match matcher a whole R s cs k with
    | Some x => Some x
    | None => matcher b whole R s cs k
    end.
Proof. reflexivity. Qed.

Lemma matcher_Star_eq (greedy : bool) (a : re) (s : string) (cs : Captures)
    (k : string -> Captures -> option R) :
  matcher (Star greedy a) whole R s cs k
  = turns (matcher a whole R) greedy k (String.length s) s cs.
Proof. reflexivity. Qed.

Lemma matcher_Group_eq (n : string) (a : re) (s : string) (cs : Captures)
    (k : string -> Captures -> option R) :
  matcher (Group n a) whole R s cs k
  = matcher a whole R s cs (fun s' cs' => k s' (cs' ++ [MkMatch n (consumed s s')])).
Proof. reflexivity. Qed.

Lemma matcher_Digit (c : ascii) (s : string) (cs : Captures)
    (k : string -> Captures -> option R) :
  matcher Digit whole R (String c s) cs k = if is_digit c then k s cs else None.
Proof. simpl. unfold in_class. simpl. now rewrite orb_false_r. Qed.

Lemma matcher_Digit_empty (cs : Captures) (k : string -> Captures -> option R) :
  matcher Digit whole R "" cs k = None.
Proof. reflexivity. Qed.

Lemma Seqs_cons (a : re) (l : list re) : Seqs (a :: l) = Seq a (Seqs l).
Proof. reflexivity. Qed.

(** [\d{n}] over [n] digits. *)
Lemma matcher_Times_digits (t u : string) (cs : Captures)
    (k : string -> Captures -> option R) :
  forallb is_digit (Str.characters t) = true ->
  matcher (Times (String.length t) Digit) whole R (t +:+ u) cs k = k u cs.
Proof.
  induction t as [|c t IH]; intros Hd; [reflexivity |].
  simpl in Hd. apply andb_true_iff in Hd as [Hc Ht].
  rewrite sapp_cons. cbn [String.length Times].
  change (matcher (Seq Digit (Times (String.length t) Digit)) whole R (String c (t +:+ u)) cs k)
    with (matcher Digit whole R (String c (t +:+ u)) cs
            (fun s' cs' => matcher (Times (String.length t) Digit) whole R s' cs' k)).
  rewrite matcher_Digit, Hc. now apply IH.
Qed.

(** [\d{1,2}] over two digits, or over one digit that no digit follows. *)
Lemma matcher_one_or_two_digits (t u : string) (cs : Captures)
    (k : string -> Captures -> option R) (x : R) :
  forallb is_digit (Str.characters t) = true ->
  (String.length t =? 2) || ((String.length t =? 1) && negb (digit_led u)) = true ->
  k u cs = Some x ->
  matcher (Seq Digit (Opt Digit)) whole R (t +:+ u) cs k = Some x.
Proof.
  intros Hd Hlen Hk.
  destruct t as [|c1 [|c2 [|c3 t]]]; try discriminate;
    rewrite ?sapp_cons, ?sapp_nil_l.
  - simpl in Hd. rewrite andb_true_r in Hd. simpl in Hlen.
    apply negb_true_iff in Hlen.
    change (matcher (Seq Digit (Opt Digit)) whole R (String c1 u) cs k)
      with (matcher Digit whole R (String c1 u) cs
              (fun s' cs' => matcher (Opt Digit) whole R s' cs' k)).
    rewrite matcher_Digit, Hd. unfold Opt.
    change (matcher (Alt Digit Eps) whole R u cs k)
      with (match matcher Digit whole R u cs k with
            | Some y => Some y
            | None => k u cs
            end).
    destruct u as [|c u]; [exact Hk |].
    rewrite matcher_Digit. simpl in Hlen. now rewrite Hlen.
  - simpl in Hd. apply andb_true_iff in Hd as [Hd1 Hd2]. rewrite andb_true_r in Hd2.
    change (matcher (Seq Digit (Opt Digit)) whole R (String c1 (String c2 u)) cs k)
      with (matcher Digit whole R (String c1 (String c2 u)) cs
              (fun s' cs' => matcher (Opt Digit) whole R s' cs' k)).
    rewrite matcher_Digit, Hd1. unfold Opt.
    change (matcher (Alt Digit Eps) whole R (String c2 u) cs k)
      with (match matcher Digit whole R (String c2 u) cs k with
            | Some y => Some y
            | None => k (String c2 u) cs
            end).
    now rewrite matcher_Digit, Hd2, Hk.
Qed.

(** Where no digit stands, a pattern that begins with [\d] finds nothing. *)
Lemma matcher_digits_refuse (a : re) (s : string) (cs : Captures)
    (k : string -> Captures -> option R) :
  digit_led s = false ->
  matcher (Seq Digit a) whole R s cs k = None.
Proof.
  intros Hc.
  change (matcher (Seq Digit a) whole R s cs k)
    with (matcher Digit whole R s cs (fun s' cs' => matcher a whole R s' cs' k)).
  destruct s as [|c s]; [reflexivity |].
  simpl in Hc. now rewrite matcher_Digit, Hc.
Qed.

(** An alternation of no name is the empty pattern. *)
Lemma matcher_alternatives (names : list string) (s : string) (cs : Captures)
    (k : string -> Captures -> option R) :
  matcher (Alts (map Text names)) whole R s cs k
  = matcher (Alts (map Text (alternatives names))) whole R s cs k.
Proof. destruct names; reflexivity. Qed.

(** An alternation of names: the first name that the text starts with is
    taken when the rest of the pattern goes through after it. *)
Lemma matcher_names_split (l1 l2 : list string) (t u : string) (cs : Captures)
    (k : string -> Captures -> option R) (x : R) :
  Forall (fun n => Str.strip_prefix n (t +:+ u) = None) l1 ->
  k u cs = Some x ->
  matcher (Alts (map Text (l1 ++ t :: l2))) whole R (t +:+ u) cs k = Some x.
Proof.
  intros Hl1 Hk. induction Hl1 as [|n l1 Hn _ IH].
  - simpl. destruct (map Text l2) eqn:E.
    + simpl. now rewrite strip_prefix_here.
    + simpl. now rewrite strip_prefix_here, Hk.
  - change (map Text ((n :: l1) ++ t :: l2)) with (Text n :: map Text (l1 ++ t :: l2)).
    cbn [Alts]. destruct (map Text (l1 ++ t :: l2)) as [|r rs] eqn:E.
    { destruct l1; discriminate. }
    change (matcher (Alt (Text n) (Alts (r :: rs))) whole R (t +:+ u) cs k)
      with (match matcher (Text n) whole R (t +:+ u) cs k with
            | Some y => Some y
            | None => matcher (Alts (r :: rs)) whole R (t +:+ u) cs k
            end).
    simpl matcher at 1. rewrite Hn. exact IH.
Qed.

Lemma find_first {A} (f : A -> bool) (l : list A) (x : A) :
  find f l = Some x ->
  exists l1 l2, l = l1 ++ x :: l2 /\ Forall (fun a => f a = false) l1.
Proof.
  induction l as [|a l IH]; [discriminate |]. simpl.
  destruct (f a) eqn:E.
  - intros [= <-]. now exists [], l.
  - intros H. destruct (IH H) as (l1 & l2 & -> & Hl1).
    exists (a :: l1), l2. split; [reflexivity | now constructor].
Qed.

Lemma is_prefix_false (n s : string) :
  is_prefix n s = false -> Str.strip_prefix n s = None.
Proof. unfold is_prefix. now destruct (Str.strip_prefix n s). Qed.

Lemma matcher_names_first (names : list string) (t u : string) (cs : Captures)
    (k : string -> Captures -> option R) (x : R) :
  first_name names t u = true ->
  k u cs = Some x ->
  matcher (Alts (map Text names)) whole R (t +:+ u) cs k = Some x.
Proof.
  unfold first_name. intros Hfirst Hk. rewrite matcher_alternatives.
  destruct (find _ (alternatives names)) as [n|] eqn:E; [|discriminate].
  apply String.eqb_eq in Hfirst. subst n.
  destruct (find_first _ _ _ E) as (l1 & l2 & -> & Hl1).
  apply matcher_names_split; [|exact Hk].
  eapply Forall_impl; [exact Hl1 |]. intros n Hn. now apply is_prefix_false.
Qed.

Lemma matcher_names_none (l : list string) (s : string) (cs : Captures)
    (k : string -> Captures -> option R) :
  nonempty l = true ->
  Forall (fun n => Str.strip_prefix n s = None) l ->
  matcher (Alts (map Text l)) whole R s cs k = None.
Proof.
  intros Hne Hl. induction Hl as [|n l Hn Hl IH]; [discriminate |].
  cbn [map Alts]. destruct l as [|n2 l].
  - simpl. now rewrite Hn.
  - change (map Text (n2 :: l)) with (Text n2 :: map Text l).
    cbv iota beta.
    change (matcher (Alt (Text n) (Alts (Text n2 :: map Text l))) whole R s cs k)
      with (match matcher (Text n) whole R s cs k with
            | Some y => Some y
            | None => matcher (Alts (map Text (n2 :: l))) whole R s cs k
            end).
    simpl matcher at 1. rewrite Hn. now apply IH.
Qed.

(** Where no name stands, the alternation of the names finds nothing. *)
Lemma matcher_names_refuse (names : list string) (s : string) (cs : Captures)
    (k : string -> Captures -> option R) :
  name_at names s = false ->
  matcher (Alts (map Text names)) whole R s cs k = None.
Proof.
  unfold name_at. intros H. rewrite matcher_alternatives.
  apply matcher_names_none; [now destruct names |].
  apply Forall_forall. intros n Hn. apply is_prefix_false.
  destruct (is_prefix n s) eqn:E; [|reflexivity].
  assert (existsb (fun n => is_prefix n s) (alternatives names) = true); [|congruence].
  apply existsb_exists. exists n. split; [now apply list_elem_of_In | exact E].
Qed.

(** [[class]+?]: the lazy repetition hands over to the rest of the pattern
    at the first point where that goes through. *)
Lemma turns_lazy_class (negated : bool) (cls : list item)
    (k : string -> Captures -> option R) (u : string) (cs : Captures) (x : R) :
  k u cs = Some x ->
  forall t c fuel,
    forallb (fun c => xorb negated (in_class c cls)) (Str.characters t) = true ->
    Forall (fun v => k (v +:+ u) cs = None) (inner_tails (String c t)) ->
    String.length t <= fuel ->
    turns (matcher (Class negated cls) whole R) false k fuel (t +:+ u) cs = Some x.
Proof.
  intros Hk. induction t as [|b t IH]; intros c fuel Hall Hno Hfuel.
  - rewrite sapp_nil_l. destruct fuel; simpl; [exact Hk | now rewrite Hk].
  - simpl in Hall. apply andb_true_iff in Hall as [Hb Hall].
    change (inner_tails (String c (String b t)))
      with (String b t :: inner_tails (String b t)) in Hno.
    apply Forall_cons in Hno as [Hhere Hno].
    destruct fuel as [|fuel]; [simpl in Hfuel; lia |].
    cbn [turns]. rewrite Hhere.
    rewrite sapp_cons. cbn [matcher]. rewrite Hb.
    destruct (decide (String.length (t +:+ u) < String.length (String b (t +:+ u))))
      as [_|Hn]; [|simpl in Hn; lia].
    apply (IH b); [exact Hall | exact Hno | simpl in Hfuel; lia].
Qed.

Lemma matcher_separator (negated : bool) (cls : list item)
    (k : string -> Captures -> option R) (t u : string) (cs : Captures) (x : R) :
  k u cs = Some x ->
  negb (Str.is_empty t) = true ->
  forallb (fun c => xorb negated (in_class c cls)) (Str.characters t) = true ->
  Forall (fun v => k (v +:+ u) cs = None) (inner_tails t) ->
  matcher (Plus false (Class negated cls)) whole R (t +:+ u) cs k = Some x.
Proof.
  intros Hk Hne Hall Hno. destruct t as [|c t]; [discriminate |].
  simpl in Hall. apply andb_true_iff in Hall as [Hin Hall].
  rewrite sapp_cons. unfold Plus.
  change (matcher (Seq (Class negated cls) (Star false (Class negated cls))) whole R
            (String c (t +:+ u)) cs k)
    with (matcher (Class negated cls) whole R (String c (t +:+ u)) cs
            (fun s' cs' => matcher (Star false (Class negated cls)) whole R s' cs' k)).
  cbn [matcher]. rewrite Hin.
  apply (turns_lazy_class negated cls k u cs x Hk t c); [exact Hall | exact Hno |].
  rewrite slength_app. lia.
Qed.

(** A separator at the end of the pattern takes one character. *)
Lemma matcher_last_separator (negated : bool) (cls : list item) (t u : string)
    (cs : Captures) (k : string -> Captures -> option R) :
  (forall s, exists x, k s cs = Some x) ->
  negb (Str.is_empty t) = true ->
  forallb (fun c => xorb negated (in_class c cls)) (Str.characters t) = true ->
  exists x, matcher (Plus false (Class negated cls)) whole R (t +:+ u) cs k = Some x
            /\ exists s, k s cs = Some x.
Proof.
  intros Hk Hne Hall. destruct t as [|c t]; [discriminate |].
  simpl in Hall. apply andb_true_iff in Hall as [Hin Hall].
  rewrite sapp_cons. unfold Plus.
  change (matcher (Seq (Class negated cls) (Star false (Class negated cls))) whole R
            (String c (t +:+ u)) cs k)
    with (matcher (Class negated cls) whole R (String c (t +:+ u)) cs
            (fun s' cs' => matcher (Star false (Class negated cls)) whole R s' cs' k)).
  cbn [matcher]. rewrite Hin.
  destruct (Hk (t +:+ u)) as [x Hx]. exists x. split; [|now exists (t +:+ u)].
  destruct (String.length (t +:+ u)); simpl; now rewrite Hx.
Qed.

End MatcherSteps.

Section ReadBack.
Import RegExp Spec StrFacts JS Dates.
Variable lower : string -> string.
Variables months_table weekdays_table : DatumLookup.
Variables y m d : Z.
Variable whole : string.

Local Abbreviation piece := (parser_piece lower months_table weekdays_table).
Local Abbreviation months_names := (lowered lower months_table).
Local Abbreviation weekdays_names := (lowered lower weekdays_table).

Lemma lookup_pattern_lower_names (table : DatumLookup) :
  lookup_pattern_lower lower table = Alts (map Text (lowered lower table)).
Proof. unfold lookup_pattern_lower, lowered. now rewrite map_map. Qed.

Lemma separator_of_items (v : string) (negated : bool) (items : list item) :
  separator_items v = Some (negated, items) ->
  separator v = Plus false (Class negated items).
Proof.
  unfold separator_items, separator, bracketed.
  destruct (read_class (separator_chars v)); try discriminate.
  now intros [= -> ->].
Qed.

Lemma not_field_tests (ty : string) :
  String.eqb ty "year" = false -> String.eqb ty "month" = false ->
  String.eqb ty "day" = false -> String.eqb ty "weekday" = false ->
  is_field ty = false.
Proof. intros H1 H2 H3 H4. unfold is_field. simpl. now rewrite H1, H2, H3, H4. Qed.

(** Where the piece of a part cannot begin, it finds nothing. *)
Lemma piece_refuses (R : Type) (q : Part) (s : string) (cs : Captures)
    (k : string -> Captures -> option R) :
  one_class q ->
  can_start months_names weekdays_names q s = false ->
  matcher (piece q) whole R s cs k = None.
Proof.
  intros Hq. unfold can_start, parser_piece.
  destruct (String.eqb (type q) "year") eqn:Ey.
  { intros Hd. unfold year_group. rewrite matcher_Group_eq. cbn [Times].
    now apply matcher_digits_refuse. }
  destruct (String.eqb (type q) "month") eqn:Em.
  { intros H. apply orb_false_iff in H as [Hd Hn].
    unfold month_group. rewrite matcher_Group_eq, matcher_Alt_eq.
    rewrite (matcher_digits_refuse whole R (Opt Digit) s cs _ Hd).
    rewrite lookup_pattern_lower_names. now apply matcher_names_refuse. }
  destruct (String.eqb (type q) "day") eqn:Ed.
  { intros Hd. unfold day_group. rewrite matcher_Group_eq.
    now apply matcher_digits_refuse. }
  destruct (String.eqb (type q) "weekday") eqn:Ew.
  { intros Hn. unfold weekday_group. rewrite matcher_Group_eq.
    rewrite lookup_pattern_lower_names. now apply matcher_names_refuse. }
  specialize (Hq (not_field_tests _ Ey Em Ed Ew)).
  unfold in_separator.
  destruct (separator_items (value q)) as [[negated items]|] eqn:E; [|contradiction].
  rewrite (separator_of_items _ _ _ E). intros H.
  destruct s as [|c s]; [reflexivity |].
  unfold Plus. rewrite matcher_Seq_eq. cbn [matcher]. now rewrite H.
Qed.

Lemma forallb_impl {A} (f g : A -> bool) (l : list A) :
  (forall a, f a = true -> g a = true) -> forallb f l = true -> forallb g l = true.
Proof.
  intros Hfg. induction l as [|a l IH]; [trivial |]. simpl. intros H.
  apply andb_true_iff in H as [Ha Hl]. now rewrite (Hfg a Ha), IH.
Qed.

(** A separator that has a token makes one class, that of the token's
    characters. *)
Lemma separator_token (v t : string) :
  negb (Str.is_empty t) = true ->
  forallb (in_separator v) (Str.characters t) = true ->
  exists negated items,
    separator_items v = Some (negated, items)
    /\ forallb (fun c => xorb negated (in_class c items)) (Str.characters t) = true.
Proof.
  intros Hne Hall. unfold in_separator in Hall.
  destruct (separator_items v) as [[negated items]|].
  - now exists negated, items.
  - destruct t; discriminate.
Qed.

Lemma token_one_class (p : Part) (next : option Part) (t rest : string) :
  token_ok lower months_table weekdays_table y m d p next t rest = true ->
  one_class p.
Proof.
  unfold token_ok, one_class, is_field. simpl. intros H Hp.
  destruct (String.eqb (type p) "year"); [discriminate |].
  destruct (String.eqb (type p) "month"); [discriminate |].
  destruct (String.eqb (type p) "day"); [discriminate |].
  destruct (String.eqb (type p) "weekday"); [discriminate |].
  apply andb_true_iff in H as [H _]. apply andb_true_iff in H as [Hne Hall].
  destruct (separator_token _ _ Hne Hall) as (negated & items & -> & _). discriminate.
Qed.

Lemma reads_head (p : Part) (parts : list Part) (tokens : list string) :
  reads lower months_table weekdays_table y m d (p :: parts) tokens = true ->
  one_class p.
Proof.
  destruct tokens as [|t tokens]; [discriminate |]. cbn [reads]. intros H.
  apply andb_true_iff in H as [H _]. now apply token_one_class in H.
Qed.

(** The pattern of the parser reads a text that is laid out like the
    schema, token by token, and captures the tokens of the fields. *)
Lemma read_tokens (parts : list Part) :
  forall tokens,
    reads lower months_table weekdays_table y m d parts tokens = true ->
    forall cs, exists rest,
      matcher (Seqs (map piece parts)) whole _ (Str.join tokens) cs at_end
      = Some (cs ++ captures parts tokens, rest).
Proof.
  induction parts as [|p parts IH]; intros tokens Hren cs.
  { destruct tokens; [|discriminate]. exists "". simpl. now rewrite app_nil_r. }
  destruct tokens as [|t tokens]; [discriminate |].
  cbn [reads] in Hren. apply andb_true_iff in Hren as [Htok Hren].
  pose proof (IH tokens Hren) as IHcs.
  rewrite join_cons. set (u := Str.join tokens) in *.
  cbn [map captures]. rewrite Seqs_cons, matcher_Seq_eq.
  unfold token_ok in Htok. unfold parser_piece at 1.
  destruct (String.eqb (type p) "year") eqn:Ey.
  { (* year *)
    apply String.eqb_eq in Ey. rewrite Ey.
    cbn [is_field existsb String.eqb Ascii.eqb Bool.eqb orb].
    apply andb_true_iff in Htok as [Hlen Hnum]. apply Nat.eqb_eq in Hlen.
    unfold numeral in Hnum. apply andb_true_iff in Hnum as [Hnum _].
    apply andb_true_iff in Hnum as [_ Hdig].
    unfold year_group. rewrite matcher_Group_eq. rewrite <- Hlen.
    rewrite matcher_Times_digits by exact Hdig. cbv beta. rewrite consumed_app.
    destruct (IHcs (cs ++ [MkMatch "year" t])) as [rest Hrest].
    exists rest. rewrite Hrest. now rewrite <- app_assoc. }
  destruct (String.eqb (type p) "month") eqn:Em.
  { (* month *)
    apply String.eqb_eq in Em. rewrite Em.
    cbn [is_field existsb String.eqb Ascii.eqb Bool.eqb orb].
    destruct (IHcs (cs ++ [MkMatch "month" t])) as [rest Hrest].
    exists rest. rewrite <- app_assoc in Hrest. simpl in Hrest.
    unfold month_group. rewrite matcher_Group_eq, matcher_Alt_eq.
    apply orb_true_iff in Htok as [Hnum | Hname].
    - unfold short_numeral, numeral in Hnum.
      apply andb_true_iff in Hnum as [Hnum Hlen].
      apply andb_true_iff in Hnum as [Hnum _]. apply andb_true_iff in Hnum as [_ Hdig].
      erewrite matcher_one_or_two_digits; [reflexivity | exact Hdig | exact Hlen |].
      rewrite consumed_app. exact Hrest.
    - apply andb_true_iff in Hname as [Hname _].
      apply andb_true_iff in Hname as [Hled Hfirst]. apply negb_true_iff in Hled.
      rewrite (matcher_digits_refuse whole _ (Opt Digit) (t +:+ u) cs _ Hled).
      rewrite lookup_pattern_lower_names.
      erewrite matcher_names_first; [reflexivity | exact Hfirst |].
      cbv beta. rewrite consumed_app. exact Hrest. }
  destruct (String.eqb (type p) "day") eqn:Ed.
  { (* day *)
    apply String.eqb_eq in Ed. rewrite Ed.
    cbn [is_field existsb String.eqb Ascii.eqb Bool.eqb orb].
    unfold short_numeral, numeral in Htok.
    apply andb_true_iff in Htok as [Hnum Hlen].
    apply andb_true_iff in Hnum as [Hnum _]. apply andb_true_iff in Hnum as [_ Hdig].
    destruct (IHcs (cs ++ [MkMatch "day" t])) as [rest Hrest].
    exists rest. rewrite <- app_assoc in Hrest. simpl in Hrest.
    unfold day_group. rewrite matcher_Group_eq.
    erewrite matcher_one_or_two_digits; [reflexivity | exact Hdig | exact Hlen |].
    rewrite consumed_app. exact Hrest. }
  destruct (String.eqb (type p) "weekday") eqn:Ew.
  { (* weekday *)
    apply String.eqb_eq in Ew. rewrite Ew.
    cbn [is_field existsb String.eqb Ascii.eqb Bool.eqb orb].
    destruct (IHcs (cs ++ [MkMatch "weekday" t])) as [rest Hrest].
    exists rest. rewrite <- app_assoc in Hrest. simpl in Hrest.
    unfold weekday_group. rewrite matcher_Group_eq.
    rewrite lookup_pattern_lower_names.
    erewrite matcher_names_first; [reflexivity | exact Htok |].
    cbv beta. rewrite consumed_app. exact Hrest. }
  (* a separator *)
  pose proof (not_field_tests _ Ey Em Ed Ew) as Hp. rewrite Hp. cbn [app].
  apply andb_true_iff in Htok as [Htok Hinner].
  apply andb_true_iff in Htok as [Hne Hall].
  destruct (separator_token _ _ Hne Hall) as (negated & items & Hitems & Hclass).
  rewrite (separator_of_items _ _ _ Hitems).
  destruct parts as [|q parts].
  - destruct tokens; [|discriminate].
    destruct (matcher_last_separator whole _ negated items t u cs
                (fun s' cs' => matcher (Seqs (map piece [])) whole _ s' cs' at_end))
      as (x & Hx & s & Hs).
    + intros s. now exists (cs, s).
    + exact Hne.
    + exact Hclass.
    + simpl in Hs. injection Hs as <-. exists s. rewrite app_nil_r. exact Hx.
  - destruct (IHcs cs) as [rest Hrest]. exists rest.
    apply (matcher_separator whole _ negated items); [exact Hrest | exact Hne | exact Hclass |].
    cbn [head] in Hinner. rewrite forallb_forall in Hinner.
    apply Forall_forall. intros v Hv. apply list_elem_of_In in Hv.
    specialize (Hinner v Hv). apply negb_true_iff in Hinner.
    cbn [map]. rewrite Seqs_cons, matcher_Seq_eq.
    apply piece_refuses; [|exact Hinner].
    now apply (reads_head q parts tokens).
Qed.

(** *** From the captures to the date *)

Lemma digit_facts (c : ascii) :
  is_digit c = true ->
  is_white_space c = false /\ Ascii.eqb c "-" = false /\ Ascii.eqb c "+" = false
  /\ Ascii.eqb c "x" = false /\ Ascii.eqb c "X" = false.
Proof.
  destruct c as [[|] [|] [|] [|] [|] [|] [|] [|]]; vm_compute; intros H;
    repeat split; congruence.
Qed.

Lemma parseInt_numeral (t : string) (z : Z) :
  numeral t z = true -> parseInt (Some t) = Int z.
Proof.
  unfold numeral. intros H. apply andb_true_iff in H as [H Hval].
  apply andb_true_iff in H as [Hne Hdig].
  destruct t as [|c t]; [discriminate |].
  simpl in Hdig. apply andb_true_iff in Hdig as [Hc Hdig].
  destruct (digit_facts c Hc) as (Hsp & Hminus & Hplus & _).
  unfold parseInt. cbn [skip_spaces]. rewrite Hsp, Hminus, Hplus.
  assert (Hread : read_unsigned (String c t) = read_digits 10 digit_value None (String c t)).
  { unfold read_unsigned. destruct t as [|b t]; [reflexivity |].
    simpl in Hdig. apply andb_true_iff in Hdig as [Hb _].
    destruct (digit_facts b Hb) as (_ & _ & _ & Hx & HX).
    now rewrite Hx, HX, andb_false_r. }
  rewrite Hread.
  destruct (read_digits 10 digit_value None (String c t)) as [v|]; [|discriminate].
  apply Z.eqb_eq in Hval. now subst v.
Qed.

(** A month in digits resolves to its number. *)
Lemma Months_parse_numeral (t : string) (z : Z) :
  numeral t z = true -> Months_parse lower months_table t = Ok (MkDatum t z).
Proof. intros H. unfold Months_parse. now rewrite (parseInt_numeral _ _ H). Qed.

Lemma captures_ok (parts : list Part) :
  forall tokens,
    reads lower months_table weekdays_table y m d parts tokens = true ->
    Forall (capture_ok lower months_table y m d) (captures parts tokens).
Proof.
  induction parts as [|p parts IH]; intros tokens Hren; [constructor |].
  destruct tokens as [|t tokens]; [discriminate |].
  cbn [reads] in Hren. apply andb_true_iff in Hren as [Htok Hren].
  cbn [captures]. apply Forall_app. split; [|now apply IH].
  destruct (is_field (type p)); [|constructor].
  constructor; [|constructor]. unfold capture_ok, token_ok in *. simpl.
  destruct (String.eqb (type p) "year") eqn:Ey.
  { apply String.eqb_eq in Ey. rewrite Ey.
    apply andb_true_iff in Htok as [_ Hnum].
    repeat split; try discriminate. intros _. now apply parseInt_numeral. }
  destruct (String.eqb (type p) "month") eqn:Em.
  { apply String.eqb_eq in Em. rewrite Em.
    repeat split; try discriminate. intros _.
    apply orb_true_iff in Htok as [Hnum | Hname].
    - unfold short_numeral in Hnum. apply andb_true_iff in Hnum as [Hnum _].
      exists (MkDatum t m). split; [now apply Months_parse_numeral | reflexivity].
    - apply andb_true_iff in Hname as [_ Hres]. unfold resolves_to in Hres.
      destruct (Months_parse lower months_table t) as [dm|e]; [|discriminate].
      exists dm. split; [reflexivity | now apply Z.eqb_eq]. }
  destruct (String.eqb (type p) "day") eqn:Ed.
  { apply String.eqb_eq in Ed. rewrite Ed.
    unfold short_numeral in Htok. apply andb_true_iff in Htok as [Hnum _].
    repeat split; try discriminate. intros _. now apply parseInt_numeral. }
  apply String.eqb_neq in Ey, Em, Ed. repeat split; intros H; contradiction.
Qed.

Lemma group_names_names (l : list string) : group_names (Alts (map Text l)) = [].
Proof.
  induction l as [|n l IH]; [reflexivity |].
  cbn [map Alts]. destruct l as [|n2 l]; [reflexivity |].
  change (map Text (n2 :: l)) with (Text n2 :: map Text l). cbv iota beta.
  change (group_names (Alt (Text n) (Alts (Text n2 :: map Text l))))
    with (group_names (Text n) ++ group_names (Alts (map Text (n2 :: l)))).
  now rewrite IH.
Qed.

Lemma plain_group_names (r : re) : plain r = true -> group_names r = [].
Proof.
  induction r; simpl; intros H; try reflexivity; try discriminate;
    try (apply andb_true_iff in H as [Ha Hb]; now rewrite IHr1, IHr2); auto.
Qed.

Lemma group_names_separator (v : string) : group_names (separator v) = [].
Proof. apply plain_group_names. apply plain_bracketed, plain_Plus. Qed.

Lemma group_names_piece (p : Part) :
  group_names (piece p) = if is_field (type p) then [type p] else [].
Proof.
  unfold parser_piece.
  destruct (String.eqb (type p) "year") eqn:Ey.
  { apply String.eqb_eq in Ey. now rewrite Ey. }
  destruct (String.eqb (type p) "month") eqn:Em.
  { apply String.eqb_eq in Em. rewrite Em. unfold month_group.
    rewrite lookup_pattern_lower_names. cbn [group_names Digit Opt].
    now rewrite group_names_names. }
  destruct (String.eqb (type p) "day") eqn:Ed.
  { apply String.eqb_eq in Ed. now rewrite Ed. }
  destruct (String.eqb (type p) "weekday") eqn:Ew.
  { apply String.eqb_eq in Ew. rewrite Ew. unfold weekday_group.
    rewrite lookup_pattern_lower_names. cbn [group_names].
    now rewrite group_names_names. }
  rewrite (not_field_tests _ Ey Em Ed Ew). apply group_names_separator.
Qed.

Lemma captures_names (parts : list Part) :
  forall tokens,
    reads lower months_table weekdays_table y m d parts tokens = true ->
    map name (captures parts tokens) = group_names (Seqs (map piece parts)).
Proof.
  induction parts as [|p parts IH]; intros tokens Hren; [reflexivity |].
  destruct tokens as [|t tokens]; [discriminate |].
  cbn [reads] in Hren. apply andb_true_iff in Hren as [_ Hren].
  cbn [captures map]. rewrite Seqs_cons. cbn [group_names].
  rewrite map_app, (IH _ Hren), group_names_piece.
  now destruct (is_field (type p)).
Qed.

Lemma has_group (ty : string) (parts : list Part) :
  is_field ty = true -> has ty parts = true ->
  In ty (group_names (Seqs (map piece parts))).
Proof.
  intros Hty. induction parts as [|p parts IH]; [discriminate |].
  unfold has. cbn [existsb map]. rewrite Seqs_cons. cbn [group_names].
  rewrite group_names_piece. intros H. apply in_or_app.
  apply orb_true_iff in H as [H | H]; [left | right; now apply IH].
  apply String.eqb_eq in H. rewrite H, Hty. now left.
Qed.

Lemma last_index_in (n : string) (names : list string) :
  forall i found, In n names ->
    exists j, NamedRegExp.last_index n names i found = Some j.
Proof.
  induction names as [|x names IH]; intros i found Hin; [contradiction |].
  simpl. destruct (in_dec String.string_dec n names) as [Hrest | Hrest].
  - now apply IH.
  - destruct Hin as [-> | Hin]; [|contradiction].
    rewrite String.eqb_refl. clear IH.
    assert (Hkeep : forall l i found, ~ In n l ->
              NamedRegExp.last_index n l i found = found).
    { induction l as [|z l IHl]; intros i' f' Hn; [reflexivity |]. simpl.
      destruct (String.eqb z n) eqn:E.
      - apply String.eqb_eq in E. subst z. exfalso. apply Hn. now left.
      - apply IHl. intros H. apply Hn. now right. }
    rewrite Hkeep by exact Hrest. now exists i.
Qed.

(** The group the parser reads for a field holds a token of that field. *)
Lemma group_of_field (ty : string) (parts : list Part) (tokens : list string) :
  is_field ty = true -> has ty parts = true ->
  reads lower months_table weekdays_table y m d parts tokens = true ->
  exists c,
    group_at (NamedRegExp.names (Seqs (map piece parts)) ty) (captures parts tokens)
    = Some (mvalue c)
    /\ name c = ty /\ capture_ok lower months_table y m d c.
Proof.
  intros Hty Hhas Hren.
  destruct (last_index_in ty _ 1 None (has_group ty parts Hty Hhas)) as [j Hj].
  fold (NamedRegExp.names (Seqs (map piece parts)) ty) in Hj.
  destruct (names_found _ _ _ Hj) as (i & -> & Hi).
  rewrite <- (captures_names parts tokens Hren) in Hi.
  change (map name (captures parts tokens)) with (name <$> captures parts tokens) in Hi.
  apply list_lookup_fmap_Some_1 in Hi as (c & Hname & Hc).
  symmetry in Hname. exists c. rewrite Hj. simpl. rewrite Hc.
  split; [reflexivity |]. split; [exact Hname |].
  pose proof (captures_ok parts tokens Hren) as Hall.
  rewrite Forall_forall in Hall. apply Hall. now apply list_elem_of_lookup_2 in Hc.
Qed.

Lemma refused_names (l : list string) : refused (Alts (map Text l)) = None.
Proof.
  induction l as [|n l IH]; [reflexivity |].
  cbn [map Alts]. destruct l as [|n2 l]; [reflexivity |].
  change (map Text (n2 :: l)) with (Text n2 :: map Text l). cbv iota beta.
  change (refused (Alt (Text n) (Alts (Text n2 :: map Text l))))
    with (match refused (Text n) with
          | Some e => Some e
          | None => refused (Alts (map Text (n2 :: l)))
          end).
  exact IH.
Qed.

(** [new RegExp] takes the pattern of a schema whose separators make one
    class each. *)
Lemma refused_pieces (parts : list Part) :
  Forall one_class parts -> refused (Seqs (map piece parts)) = None.
Proof.
  induction 1 as [|p parts Hp _ IH]; [reflexivity |].
  cbn [map]. rewrite Seqs_cons. cbn [refused]. rewrite IH.
  assert (refused (piece p) = None) as ->; [|reflexivity].
  unfold parser_piece.
  destruct (String.eqb (type p) "year") eqn:Ey; [reflexivity |].
  destruct (String.eqb (type p) "month") eqn:Em.
  { unfold month_group. rewrite lookup_pattern_lower_names. cbn [refused Digit Opt].
    apply refused_names. }
  destruct (String.eqb (type p) "day") eqn:Ed; [reflexivity |].
  destruct (String.eqb (type p) "weekday") eqn:Ew.
  { unfold weekday_group. rewrite lookup_pattern_lower_names. cbn [refused].
    apply refused_names. }
  specialize (Hp (not_field_tests _ Ey Em Ed Ew)).
  destruct (separator_items (value p)) as [[negated items]|] eqn:E; [|contradiction].
  now rewrite (separator_of_items _ _ _ E).
Qed.

Lemma reads_one_class (parts : list Part) :
  forall tokens,
    reads lower months_table weekdays_table y m d parts tokens = true ->
    Forall one_class parts.
Proof.
  induction parts as [|p parts IH]; intros tokens H; [constructor |].
  constructor; [now apply (reads_head p parts tokens) |].
  destruct tokens as [|t tokens]; [discriminate |].
  cbn [reads] in H. apply andb_true_iff in H as [_ H]. now apply (IH tokens).
Qed.

End ReadBack.

(* ===================================================================== *)
(** ** The round trip *)
(* ===================================================================== *)

Section RoundTrip.
Import RegExp Spec StrFacts JS Dates.

Lemma search_in_here (r : re) (whole skipped s s' : string) (cs : Captures) :
  match_at r whole s = Some (cs, s') ->
  search_in r whole skipped s = Some (MkFound skipped cs (consumed s s') s').
Proof. intros H. destruct s; simpl; now rewrite H. Qed.

(** The parser made for a schema reads every text that is laid out like
    the schema for a date, and gives back that date. *)
Lemma regexParser_reads (env : Env) (b : RegexBuilder) (y m d : Z)
    (tokens : list string) (text : string) :
  dated (rb_formatted b) = true ->
  reads (toLocaleLowerCase env (rb_locale b))
        (Months_get env (rb_locale b)) (Weekdays_get env (rb_locale b)) y m d
        (rb_formatted b) tokens = true ->
  toLocaleLowerCase env (rb_locale b) text = Str.join tokens ->
  RegexBuilder_regexParser env b = Ok (regexParser env b)
  /\ RegexParser_parse env (regexParser env b) text = Ok (MkDate y m d).
Proof.
  set (lower := toLocaleLowerCase env (rb_locale b)).
  set (mt := Months_get env (rb_locale b)). set (wt := Weekdays_get env (rb_locale b)).
  intros Hdated Hren Hlow. unfold dated in Hdated.
  apply andb_true_iff in Hdated as [Hdated Hd].
  apply andb_true_iff in Hdated as [Hy Hm].
  pose proof (read_tokens lower mt wt y m d (Str.join tokens) (rb_formatted b) tokens
                Hren []) as [rest Hmatch].
  pose proof (group_of_field lower mt wt y m d "year" (rb_formatted b) tokens
                eq_refl Hy Hren) as (cy & Hgy & Hny & Hcy).
  pose proof (group_of_field lower mt wt y m d "month" (rb_formatted b) tokens
                eq_refl Hm Hren) as (cm & Hgm & Hnm & Hcm).
  pose proof (group_of_field lower mt wt y m d "day" (rb_formatted b) tokens
                eq_refl Hd Hren) as (cd & Hgd & Hnd & Hcd).
  split.
  { unfold RegexBuilder_regexParser, RegExp_new.
    unfold regexParser at 1. cbn [rp_regex]. fold lower mt wt.
    now rewrite (refused_pieces lower mt wt _ (reads_one_class lower mt wt y m d _ _ Hren)). }
  unfold RegexParser_parse.
  change (rp_locale (regexParser env b)) with (rb_locale b). fold lower. rewrite Hlow.
  unfold regexParser. cbn [rp_regex rp_groups rp_locale]. fold lower mt wt.
  unfold exec.
  rewrite (search_in_here _ _ _ _ _ _ Hmatch). cbn [fmap option_fmap option_map groups].
  unfold assemble. cbn [g_year g_month g_day app].
  unfold numeric, parseMonth, parse_datum.
  rewrite Hgy, Hgm, Hgd.
  destruct Hcy as (Hy' & _ & _). rewrite (Hy' Hny).
  destruct Hcm as (_ & Hm' & _). destruct (Hm' Hnm) as (dm & Hdm & Hnum). rewrite Hdm.
  destruct Hcd as (_ & _ & Hd'). rewrite (Hd' Hnd).
  simpl. now rewrite Hnum.
Qed.

(** C1, amended.  Take a locale, options and a date, and the schema the
    parser is made from: the parts of today's date.  When the schema has a
    year, a month and a day, and the text that [format] gives for the date,
    in lower case, is laid out like the schema token by token, each token
    one that the parser's pattern reads where it stands (the year in exactly
    four digits), then parsing that text with the same locale and options
    gives the date back. *)
Theorem parse_format_round_trip
    (env : Env) (locale : string) (options : Options) (native : bool)
    (y m d : Z) (schema : list Part) (text : string) (tokens : list string) :
  formatData env (now env) locale options native = Ok schema ->
  dated schema = true ->
  format env (MkDate y m d) locale (AsOptions options) = Ok text ->
  toLocaleLowerCase env locale text = Str.join tokens ->
  reads (toLocaleLowerCase env locale) (Months_get env locale) (Weekdays_get env locale)
        y m d schema tokens = true ->
  (try formatted <- format env (MkDate y m d) locale (AsOptions options) in
   parse env formatted locale (Some (AsOptions options)) native)
  = Ok (MkDate y m d).
Proof.
  intros Hschema Hdated Hfmt Hlow Hren. rewrite Hfmt. cbn [bind].
  unfold parse, parser, localeParser. cbn [not_given].
  unfold localeParser_for, RegexBuilder_create. rewrite Hschema. cbn [bind].
  destruct (regexParser_reads env (MkRegexBuilder locale options schema) y m d tokens text
              Hdated Hren Hlow) as [Hnew Hparse].
  rewrite Hnew. cbn [bind parse_ RegexParser_asDateParser]. exact Hparse.
Qed.

(** A host that writes "25 de enero de 2019": the separators hold letters
    that month names hold too, and the text goes there and back. *)
Lemma parse_format_round_trip_witness :
  (try formatted <- format (EsES.env true) (MkDate 2001 12 28) "es-ES"
                      (AsOptions EsES.long_options) in
   parse (EsES.env true) formatted "es-ES" (Some (AsOptions EsES.long_options)) true)
  = Ok (MkDate 2001 12 28).
Proof.
  apply (parse_format_round_trip (EsES.env true) "es-ES" EsES.long_options true
           2001 12 28
           [MkPart "day" "25"; MkPart "literal" " de "; MkPart "month" "enero";
            MkPart "literal" " de "; MkPart "year" "2019"]
           "28 de diciembre de 2001"
           ["28"; " de "; "diciembre"; " de "; "2001"]);
    vm_compute; reflexivity.
Defined.

Example round_trip_with_weekday :
  (try formatted <- format (EnGB.env true) (MkDate 2001 6 28) "en-GB"
                      (AsOptions EnGB.short_options) in
   parse (EnGB.env true) formatted "en-GB" (Some (AsOptions EnGB.short_options)) true)
  = Ok (MkDate 2001 6 28).
Proof. vm_compute. reflexivity. Qed.

(** C1, as stated, fails for a year of more than four digits: the host
    writes 25 January 12345 as "25/01/12345", the parser's year group takes
    four digits, and the date that comes back is in the year 1234. *)
Lemma round_trip_fails_for_long_year :
  format (EnGB.env true) (MkDate 12345 1 25) "en-GB" (AsOptions EnGB.numeric_options)
  = Ok "25/01/12345"
  /\ parse (EnGB.env true) "25/01/12345" "en-GB" (Some (AsOptions EnGB.numeric_options)) true
     = Ok (MkDate 1234 1 25).
Proof. split; vm_compute; reflexivity. Qed.

(** Nor for a year of fewer than four digits, where the parser refuses the
    text. *)
Example round_trip_fails_for_short_year :
  format (EnGB.env true) (MkDate 999 1 25) "en-GB" (AsOptions EnGB.numeric_options)
  = Ok "25/01/999"
  /\ returned (parse (EnGB.env true) "25/01/999" "en-GB"
                 (Some (AsOptions EnGB.numeric_options)) true) = false.
Proof. split; vm_compute; reflexivity. Qed.

(** Nor without a day among the options: the parser has no day to read,
    and gives the date that is none. *)
Example round_trip_fails_without_day :
  format (EnGB.env true) (MkDate 2019 1 25) "en-GB"
         (AsOptions [("year", "numeric"); ("month", "numeric")])
  = Ok "01/2019"
  /\ parse (EnGB.env true) "01/2019" "en-GB"
           (Some (AsOptions [("year", "numeric"); ("month", "numeric")])) true
     = Ok InvalidDate.
Proof. split; vm_compute; reflexivity. Qed.

(** Nor for a month whose name the lookup resolves to another month: with
    narrow names May is written M, which the months resolve to March. *)
Example round_trip_fails_for_narrow_month :
  format Narrow.env (MkDate 2019 5 6) "en" (AsOptions Narrow.options) = Ok "M 6 M 2019"
  /\ parse Narrow.env "M 6 M 2019" "en" (Some (AsOptions Narrow.options)) false
     = Ok (MkDate 2019 3 6).
Proof. split; vm_compute; reflexivity. Qed.

End RoundTrip.

(* ===================================================================== *)
(** * Further properties of the code *)
(* ===================================================================== *)

(** ** What a match takes and what it captures *)

Section DerivesFacts.
Import RegExp Spec Laws StrFacts.

(** A match takes a text the pattern derives from the front of the input,
    and adds captures of the pattern's groups to the ones made so far. *)
Lemma matcher_derives (r : re) :
  forall whole R s cs (k : string -> Captures -> option R) x,
    matcher r whole R s cs k = Some x ->
    exists t s' caps,
      s = t +:+ s'
      /\ derives r t
      /\ k s' (cs ++ caps) = Some x
      /\ Forall (fun c => In (name c) (group_names r)) caps
      /\ (plain r = true -> caps = []).
Proof.
  induction r as [| | negated items | w | a IHa b IHb | a IHa b IHb
                  | greedy a IHa | n a IHa | | | a IHa | e | ];
    intros whole R s cs k x H; simpl in H; try discriminate H.
  - exists "", s, []. rewrite app_nil_r. repeat split; auto. constructor.
  - destruct s as [|c s]; [discriminate |].
    destruct (is_newline c) eqn:E; [discriminate |].
    exists (String c ""), s, []. rewrite app_nil_r. repeat split; auto. now constructor.
  - destruct s as [|c s]; [discriminate |].
    destruct (xorb negated (in_class c items)) eqn:E; [|discriminate].
    exists (String c ""), s, []. rewrite app_nil_r. repeat split; auto. now constructor.
  - destruct (Str.strip_prefix w s) as [s'|] eqn:E; [|discriminate].
    apply strip_prefix_app in E.
    exists w, s', []. rewrite app_nil_r. repeat split; auto. constructor.
  - destruct (IHa _ _ _ _ _ _ H) as (t1 & s1 & caps1 & E1 & D1 & H1 & N1 & P1).
    destruct (IHb _ _ _ _ _ _ H1) as (t2 & s2 & caps2 & E2 & D2 & H2 & N2 & P2).
    exists (t1 +:+ t2), s2, (caps1 ++ caps2).
    rewrite sapp_assoc, <- E2, <- E1, app_assoc. repeat split; auto.
    + now constructor.
    + simpl. apply Forall_app. split.
      * eapply List.Forall_impl; [|exact N1]. intros c Hc. apply in_or_app. now left.
      * eapply List.Forall_impl; [|exact N2]. intros c Hc. apply in_or_app. now right.
    + simpl. intros Hp. apply andb_true_iff in Hp as [Ha Hb].
      now rewrite (P1 Ha), (P2 Hb).
  - destruct (matcher a whole R s cs k) as [y|] eqn:E.
    + injection H as ->.
      destruct (IHa _ _ _ _ _ _ E) as (t1 & s1 & caps1 & E1 & D1 & H1 & N1 & P1).
      exists t1, s1, caps1. repeat split; auto.
      * now apply derives_Alt_l.
      * simpl. eapply List.Forall_impl; [|exact N1]. intros c Hc. apply in_or_app. now left.
      * simpl. intros Hp. apply andb_true_iff in Hp as [Ha _]. auto.
    + destruct (IHb _ _ _ _ _ _ H) as (t1 & s1 & caps1 & E1 & D1 & H1 & N1 & P1).
      exists t1, s1, caps1. repeat split; auto.
      * now apply derives_Alt_r.
      * simpl. eapply List.Forall_impl; [|exact N1]. intros c Hc. apply in_or_app. now right.
      * simpl. intros Hp. apply andb_true_iff in Hp as [_ Hb]. auto.
  - revert H. generalize (String.length s). intros fuel. revert s cs.
    induction fuel as [|fuel IHfuel]; intros s cs H; simpl in H.
    + exists "", s, []. rewrite app_nil_r. repeat split; auto. constructor.
    + assert (Hagain :
                matcher a whole R s cs (fun s' cs' =>
                  if decide (String.length s' < String.length s)
                  then turns (matcher a whole R) greedy k fuel s' cs' else None) = Some x ->
                exists t s' caps,
                  s = t +:+ s' /\ derives (Star greedy a) t /\ k s' (cs ++ caps) = Some x
                  /\ Forall (fun c => In (name c) (group_names (Star greedy a))) caps
                  /\ (plain (Star greedy a) = true -> caps = [])).
      { intros Hy.
        destruct (IHa _ _ _ _ _ _ Hy) as (t1 & s1 & caps1 & E1 & D1 & H1 & N1 & P1).
        destruct (decide (String.length s1 < String.length s)); [|discriminate].
        destruct (IHfuel _ _ H1) as (t2 & s2 & caps2 & E2 & D2 & H2 & N2 & P2).
        exists (t1 +:+ t2), s2, (caps1 ++ caps2).
        rewrite sapp_assoc, <- E2, <- E1, app_assoc. repeat split; auto.
        - now constructor.
        - apply Forall_app. split; [exact N1 | exact N2].
        - simpl. intros Hp. simpl in P2. now rewrite (P1 Hp), (P2 Hp). }
      assert (Hstop : k s cs = Some x ->
                exists t s' caps,
                  s = t +:+ s' /\ derives (Star greedy a) t /\ k s' (cs ++ caps) = Some x
                  /\ Forall (fun c => In (name c) (group_names (Star greedy a))) caps
                  /\ (plain (Star greedy a) = true -> caps = [])).
      { intros Hy. exists "", s, []. rewrite app_nil_r. repeat split; auto. constructor. }
      destruct greedy.
      * destruct (matcher a whole R s cs _) as [y|] eqn:E.
        -- injection H as Hy. subst y. now apply Hagain.
        -- now apply Hstop.
      * destruct (k s cs) as [y|] eqn:E.
        -- injection H as Hy. subst y. now apply Hstop.
        -- now apply Hagain.
  - destruct (IHa _ _ _ _ _ _ H) as (t1 & s1 & caps1 & E1 & D1 & H1 & N1 & P1).
    exists t1, s1, (caps1 ++ [MkMatch n (consumed s s1)]).
    rewrite app_assoc. repeat split; auto.
    + now constructor.
    + apply Forall_app. split.
      * eapply List.Forall_impl; [|exact N1]. intros c Hc. simpl. now right.
      * constructor; [simpl; now left | constructor].
    + discriminate.
  - destruct (String.length s =? String.length whole); [|discriminate].
    exists "", s, []. rewrite app_nil_r. repeat split; auto. constructor.
  - destruct s; [|discriminate].
    exists "", "", []. rewrite app_nil_r. repeat split; auto. constructor.
  - destruct (matcher a whole unit s cs _); [|discriminate].
    exists "", s, []. rewrite app_nil_r. repeat split; auto. constructor.
Qed.

(** A group around a pattern without groups captures the text it takes. *)
Lemma matcher_group (n : string) (a : re) whole R s cs
    (k : string -> Captures -> option R) x :
  plain a = true ->
  matcher (Group n a) whole R s cs k = Some x ->
  exists t s', s = t +:+ s' /\ derives a t /\ k s' (cs ++ [MkMatch n t]) = Some x.
Proof.
  intros Hp H. simpl in H.
  destruct (matcher_derives _ _ _ _ _ _ _ H) as (t & s' & caps & E & D & Hk & _ & P).
  rewrite (P Hp), app_nil_r in Hk. subst s. rewrite consumed_app in Hk.
  now exists t, s'.
Qed.

Lemma match_at_derives (r : re) (whole s rest : string) (m : Captures) :
  match_at r whole s = Some (m, rest) ->
  exists t, s = t +:+ rest /\ derives r t
            /\ Forall (fun c => In (name c) (group_names r)) m.
Proof.
  unfold match_at. intros H.
  destruct (matcher_derives _ _ _ _ _ _ _ H) as (t & s' & caps & E & D & Hk & N & _).
  injection Hk as <- <-. now exists t.
Qed.

Lemma sapp_not_empty (t u : string) :
  Str.is_empty t = false \/ Str.is_empty u = false -> Str.is_empty (t +:+ u) = false.
Proof. destruct t; simpl; [now intros [|] | reflexivity]. Qed.

Lemma derives_consuming (r : re) (t : string) :
  derives r t -> consuming r = true -> Str.is_empty t = false.
Proof.
  induction 1; simpl; intros Hc; try discriminate; try reflexivity.
  - now destruct w.
  - apply sapp_not_empty. apply orb_true_iff in Hc as [Hc|Hc]; auto.
  - apply andb_true_iff in Hc as [Hc _]. auto.
  - apply andb_true_iff in Hc as [_ Hc]. auto.
  - auto.
Qed.

(** The steps of [iterate]: a match is a text the pattern derives, with the
    captures of a match there; a stretch between matches is not empty. *)
Lemma iterate_from_steps (r : re) (whole : string) (fuel : nat) :
  forall s,
    Forall (fun step =>
              match step with
              | NamedRegExp.Matched t m =>
                  derives r t /\ exists rest, match_at r whole (t +:+ rest) = Some (m, rest)
              | NamedRegExp.NotMatched t => Str.is_empty t = false
              end) (NamedRegExp.iterate_from fuel r whole s).
Proof.
  assert (Hnot : forall t, Forall (fun step =>
              match step with
              | NamedRegExp.Matched t m =>
                  derives r t /\ exists rest, match_at r whole (t +:+ rest) = Some (m, rest)
              | NamedRegExp.NotMatched t => Str.is_empty t = false
              end) (NamedRegExp.not_matched t)).
  { intros t. unfold NamedRegExp.not_matched. destruct (Str.is_empty t) eqn:E; auto. }
  induction fuel as [|fuel IH]; intros s; simpl; [apply Hnot |].
  destruct (search_in r whole "" s) as [f|] eqn:E; [|apply Hnot].
  destruct (search_in_found _ _ _ _ _ E) as (s1 & _ & Hm & Hc & Hs).
  apply Forall_app. split; [apply Hnot |]. constructor.
  - destruct (match_at_derives _ _ _ _ _ Hm) as (t & Et & D & _).
    assert (matched f = t) as -> by (rewrite Hc, Et; apply consumed_app).
    split; [exact D |]. exists (after f). now rewrite <- Et.
  - destruct (Str.is_empty (matched f)); [apply Hnot | apply IH].
Qed.

Lemma match_at_spells (r : re) (whole s s' : string) (cs : Captures) :
  match_at r whole s = Some (cs, s') -> s = consumed s s' +:+ s'.
Proof.
  intros H. unfold match_at in H.
  destruct (matcher_sound _ _ _ _ _ _ _ H) as (s1 & cs1 & Hs1 & [= _ <-] & _).
  now apply consumed_suffix.
Qed.

(** Where [search_in] finds nothing, the pattern matches at no point of the
    text. *)
Lemma search_in_none (r : re) (whole : string) :
  forall s sk,
    search_in r whole sk s = None ->
    forall skipped rest, s = skipped +:+ rest -> match_at r whole rest = None.
Proof.
  induction s as [|c s IH]; intros sk H skipped rest E; simpl in H.
  - destruct skipped; [|discriminate]. rewrite sapp_nil_l in E. subst rest.
    now destruct (match_at r whole "") as [[cs s']|].
  - destruct (match_at r whole (String c s)) as [[cs s']|] eqn:Hm; [discriminate |].
    destruct skipped as [|b skipped].
    + rewrite sapp_nil_l in E. now subst rest.
    + rewrite sapp_cons in E. injection E as _ E. now apply (IH _ H skipped).
Qed.

(** What [search_in] finds is the leftmost match: the pattern matches at no
    point before it. *)
Lemma search_in_leftmost (r : re) (whole : string) :
  forall s sk f,
    search_in r whole sk s = Some f ->
    exists skipped,
      before f = sk +:+ skipped
      /\ s = skipped +:+ matched f +:+ after f
      /\ match_at r whole (matched f +:+ after f) = Some (groups f, after f)
      /\ (forall front back,
            skipped = front +:+ back -> back <> "" ->
            match_at r whole (back +:+ matched f +:+ after f) = None).
Proof.
  assert (Hhere : forall s sk f cs s',
            match_at r whole s = Some (cs, s') ->
            f = MkFound sk cs (consumed s s') s' ->
            exists skipped,
              before f = sk +:+ skipped
              /\ s = skipped +:+ matched f +:+ after f
              /\ match_at r whole (matched f +:+ after f) = Some (groups f, after f)
              /\ (forall front back,
                    skipped = front +:+ back -> back <> "" ->
                    match_at r whole (back +:+ matched f +:+ after f) = None)).
  { intros s sk f cs s' Hm ->. exists "". cbn [before matched after groups].
    rewrite sapp_nil_r, sapp_nil_l, <- (match_at_spells _ _ _ _ _ Hm).
    repeat split; [exact Hm |].
    intros front back E Hback. destruct front, back; try discriminate.
    now contradiction Hback. }
  induction s as [|c s IH]; intros sk f H; simpl in H.
  - destruct (match_at r whole "") as [[cs s']|] eqn:Hm; [|discriminate].
    injection H as H. now apply (Hhere "" sk f cs s').
  - destruct (match_at r whole (String c s)) as [[cs s']|] eqn:Hm.
    + injection H as H. now apply (Hhere (String c s) sk f cs s').
    + destruct (IH _ _ H) as (skipped & Hb & Hs & Hat & Hnone).
      exists (String c skipped). rewrite Hb, sapp_assoc. repeat split.
      * rewrite sapp_cons. now f_equal.
      * exact Hat.
      * intros front back E Hback. destruct front as [|a front].
        -- rewrite sapp_nil_l in E. subst back. rewrite sapp_cons, <- Hs. exact Hm.
        -- rewrite sapp_cons in E. injection E as _ E. now apply (Hnone front).
Qed.

(** And the other way round: the leftmost match is what [search_in]
    finds. *)
Lemma search_in_finds (r : re) (whole : string) (here rest : string) (m : Captures) :
  match_at r whole (here +:+ rest) = Some (m, rest) ->
  forall skipped sk,
    (forall front back,
       skipped = front +:+ back -> back <> "" ->
       match_at r whole (back +:+ here +:+ rest) = None) ->
    search_in r whole sk (skipped +:+ here +:+ rest)
    = Some (MkFound (sk +:+ skipped) m here rest).
Proof.
  intros Hm. induction skipped as [|c skipped IH]; intros sk Hnone.
  - rewrite sapp_nil_l, sapp_nil_r, (search_in_here _ _ _ _ _ _ Hm).
    now rewrite consumed_app.
  - rewrite sapp_cons. cbn [search_in].
    rewrite <- sapp_cons, (Hnone "" (String c skipped) eq_refl) by discriminate.
    rewrite IH.
    + now rewrite sapp_assoc.
    + intros front back E Hback. apply (Hnone (String c front)); [|exact Hback].
      rewrite sapp_cons. now f_equal.
Qed.

(** A repetition that can always go on with what follows it never fails. *)
Lemma turns_total {R : Type}
    (step : string -> Captures -> (string -> Captures -> option R) -> option R)
    (greedy : bool) (k : string -> Captures -> option R) (fuel : nat) (s : string)
    (cs : Captures) :
  (forall s' cs', k s' cs' <> None) -> turns step greedy k fuel s cs <> None.
Proof.
  intros Hk. destruct fuel as [|fuel]; simpl; [apply Hk |].
  destruct greedy.
  - destruct (step s cs _); [discriminate | apply Hk].
  - destruct (k s cs) eqn:E; [discriminate | now apply Hk in E].
Qed.

Lemma mapM_app {A B} (f : A -> Result B) (l1 l2 : list A) :
  mapM f (l1 ++ l2)
  = (try a <- mapM f l1 in try b <- mapM f l2 in Ok (a ++ b)).
Proof.
  induction l1 as [|x l1 IH]; simpl.
  - now destruct (mapM f l2).
  - destruct (f x) as [y|e]; simpl; [|reflexivity].
    rewrite IH. destruct (mapM f l1) as [a|e]; simpl; [|reflexivity].
    now destruct (mapM f l2).
Qed.

End DerivesFacts.

(* ===================================================================== *)
(** ** collapseLiterals *)
(* ===================================================================== *)

Section CollapseMore.
Import Dates Spec Laws StrFacts.

Lemma absorb_app (a b : string) (rest : list Part) :
  absorb (a +:+ b) rest = (a +:+ fst (absorb b rest), snd (absorb b rest)).
Proof.
  revert b. induction rest as [|n rest IH]; intros b; simpl; [reflexivity |].
  destruct (is_literal n); [|reflexivity]. now rewrite sapp_assoc, IH.
Qed.

Lemma merged_field (p : Part) (rest : list Part) :
  is_literal p = false -> merged (p :: rest) = p :: merged rest.
Proof. intros Hp. simpl. rewrite Hp. now destruct (merged rest). Qed.

Lemma merged_literal (p : Part) (rest : list Part) :
  is_literal p = true ->
  merged (p :: rest)
  = MkPart (type p) (fst (absorb (value p) rest)) :: merged (snd (absorb (value p) rest)).
Proof.
  revert p. induction rest as [|n rest IH]; intros p Hp.
  - now destruct p.
  - change (absorb (value p) (n :: rest))
      with (if is_literal n then absorb (value p +:+ value n) rest
            else (value p, n :: rest)).
    destruct (is_literal n) eqn:Hn.
    + change (merged (p :: n :: rest))
        with (match merged (n :: rest) with
              | q :: tail =>
                  if is_literal p && is_literal q
                  then MkPart (type p) (value p +:+ value q) :: tail
                  else p :: q :: tail
              | [] => [p]
              end).
      rewrite (IH n Hn), Hp. unfold is_literal at 1. simpl type.
      fold (is_literal n). rewrite Hn. simpl. now rewrite absorb_app.
    + change (merged (p :: n :: rest))
        with (match merged (n :: rest) with
              | q :: tail =>
                  if is_literal p && is_literal q
                  then MkPart (type p) (value p +:+ value q) :: tail
                  else p :: q :: tail
              | [] => [p]
              end).
      rewrite (merged_field n rest Hn), Hn, andb_false_r. cbn [fst snd].
      rewrite (merged_field n rest Hn). now destruct p.
Qed.

(** The outer loop, started at index [length pre] with [l] still to visit,
    leaves the visited prefix and puts the merged [l] behind it. *)
Lemma collapse_for_merged (n : nat) :
  forall l pre fuel,
    length l <= n -> length l <= fuel ->
    collapse_for fuel (length pre) (pre ++ l) = pre ++ merged l.
Proof.
  induction n as [|n IH]; intros l pre fuel Hn Hf.
  - destruct l; [|simpl in Hn; lia].
    destruct fuel; simpl; [reflexivity |].
    rewrite app_nil_r. destruct (decide (length pre < length pre)); [lia | reflexivity].
  - destruct l as [|p rest].
    + destruct fuel; simpl; [reflexivity |].
      rewrite app_nil_r. destruct (decide (length pre < length pre)); [lia | reflexivity].
    + destruct fuel as [|fuel]; [simpl in Hf; lia |].
      simpl in Hn, Hf. cbn [collapse_for].
      destruct (decide (length pre < length (pre ++ p :: rest))) as [_|Hge].
      2:{ rewrite length_app in Hge. simpl in Hge. lia. }
      rewrite list_lookup_middle by reflexivity.
      destruct (is_literal p) eqn:Ep.
      * rewrite collapse_while_spec by (rewrite length_app; simpl; lia).
        rewrite (merged_literal p rest Ep).
        set (p' := MkPart (type p) (fst (absorb (value p) rest))).
        set (rest' := snd (absorb (value p) rest)).
        assert (Hlen : length rest' <= length rest) by apply absorb_length.
        pose proof (IH rest' (pre ++ [p']) fuel) as HR.
        rewrite length_app in HR. simpl in HR.
        rewrite <- app_assoc in HR. simpl in HR.
        rewrite HR by lia. now rewrite <- app_assoc.
      * rewrite (merged_field p rest Ep).
        pose proof (IH rest (pre ++ [p]) fuel) as HR.
        rewrite length_app in HR. simpl in HR.
        rewrite <- app_assoc in HR. simpl in HR.
        rewrite HR by lia. now rewrite <- app_assoc.
Qed.

Lemma collapseLiterals_is_merged (parts : list Part) :
  collapseLiterals parts = merged parts.
Proof.
  unfold collapseLiterals.
  apply (collapse_for_merged (length parts) parts [] (length parts)); lia.
Qed.

Lemma merged_fixed (l : list Part) : NoAdjacentLiterals l -> merged l = l.
Proof.
  induction l as [|p l IH]; [reflexivity |].
  destruct l as [|q l]; [reflexivity |].
  intros [Hpq Hl].
  change (merged (p :: q :: l))
    with (match merged (q :: l) with
          | q :: tail =>
              if is_literal p && is_literal q
              then MkPart (type p) (value p +:+ value q) :: tail
              else p :: q :: tail
          | [] => [p]
          end).
  now rewrite (IH Hl), Hpq.
Qed.

Lemma merged_fields (l : list Part) :
  filter (fun p => is_literal p = false) (merged l)
  = filter (fun p => is_literal p = false) l.
Proof.
  induction l as [|p l IH]; [reflexivity |].
  destruct (is_literal p) eqn:Ep.
  - rewrite (merged_literal p l Ep), !filter_cons.
    destruct (decide (is_literal (MkPart (type p) (fst (absorb (value p) l))) = false))
      as [Hno|_].
    { unfold is_literal in Hno, Ep. simpl in Hno. congruence. }
    destruct (decide (is_literal p = false)) as [Hno|_]; [congruence |].
    rewrite <- IH. clear IH.
    revert p Ep. induction l as [|n l IHl]; intros p Ep; [reflexivity |].
    simpl absorb. destruct (is_literal n) eqn:En.
    + rewrite absorb_app. simpl snd.
      rewrite (merged_literal n l En), filter_cons.
      destruct (decide (is_literal (MkPart (type n) (fst (absorb (value n) l))) = false))
        as [Hno|_].
      { unfold is_literal in Hno, En. simpl in Hno. congruence. }
      reflexivity.
    + reflexivity.
  - rewrite (merged_field p l Ep), !filter_cons.
    destruct (decide (is_literal p = false)); [|congruence]. now rewrite IH.
Qed.

Lemma merged_types (Q : string -> Prop) (l : list Part) :
  Forall (fun p => Q (type p)) l -> Forall (fun p => Q (type p)) (merged l).
Proof.
  induction 1 as [|p l Hp _ IH]; [constructor |].
  simpl. destruct (merged l) as [|q tail]; [now constructor |].
  apply Forall_cons in IH as [Hq Htail].
  destruct (is_literal p && is_literal q); repeat constructor; auto.
Qed.

(** X1.  [collapseLiterals], the loop that splices the array in place,
    gives the parts with every run of literals made one literal: the first
    of the run, holding the values of the run joined in order.  Parts that
    are not literals stay as they are. *)
Theorem collapseLiterals_merges_runs (parts : list Part) :
  collapseLiterals parts = merged parts.
Proof.
  unfold collapseLiterals.
  apply (collapse_for_merged (length parts) parts [] (length parts)); lia.
Qed.

(** X2.  [collapseLiterals] keeps the parts that are not literals, each as
    it was and in the order they had, and never gives more parts than it
    was given. *)
Theorem collapseLiterals_keeps_fields (parts : list Part) :
  filter (fun p => is_literal p = false) (collapseLiterals parts)
  = filter (fun p => is_literal p = false) parts
  /\ length (collapseLiterals parts) <= length parts.
Proof.
  split.
  - rewrite collapseLiterals_is_merged. apply merged_fields.
  - destruct (collapse_for_spec (length parts) parts [] (length parts))
      as (R & HR & _ & _ & _ & Hlen); [lia | lia |].
    unfold collapseLiterals. simpl in HR. now rewrite HR.
Qed.

(** X3.  [collapseLiterals] is idempotent: collapsing what it gave changes
    nothing. *)
Theorem collapseLiterals_idempotent (parts : list Part) :
  collapseLiterals (collapseLiterals parts) = collapseLiterals parts.
Proof.
  rewrite (collapseLiterals_is_merged (collapseLiterals parts)).
  apply merged_fixed. apply collapseLiterals_spec.
Qed.

End CollapseMore.

(* ===================================================================== *)
(** ** The emulation and the formatters *)
(* ===================================================================== *)

Section FormatterMore.
Import RegExp JS Dates Spec Laws StrFacts.

Lemma group_names_Alts_Text {A} (f : A -> string) (l : list A) :
  group_names (Alts (map (fun x => Text (f x)) l)) = [].
Proof.
  induction l as [|x l IH]; [reflexivity |].
  destruct l as [|y l]; [reflexivity |].
  change (group_names (Text (f x)) ++ group_names (Alts (map (fun x => Text (f x)) (y :: l)))
          = []).
  now rewrite IH.
Qed.

Lemma group_names_Seqs (l : list re) :
  group_names (Seqs l) = concat (map group_names l).
Proof.
  induction l as [|r l IH]; [reflexivity |].
  change (group_names r ++ group_names (Seqs l) = group_names r ++ concat (map group_names l)).
  now rewrite IH.
Qed.

Lemma actual_piece_names (env : Env) (locale : string) (options : Options)
    (v : NamedRegExp.MatchOrNot) (r : re) :
  actual_piece env locale options v = Ok r ->
  Forall (fun n => known_type n = true) (group_names r).
Proof.
  destruct v as [t | t m]; simpl.
  - intros [= <-]. cbn [group_names].
    rewrite (plain_group_names _ (plain_bracketed t (Plus false) (plain_Plus false))).
    repeat constructor.
  - destruct (map name _) as [|ty tys]; [discriminate |].
    destruct (negb (Boolean_string ty)); [discriminate |].
    destruct (String.eqb ty "year"); [intros [= <-]; simpl; repeat constructor |].
    destruct (String.eqb ty "day"); [intros [= <-]; simpl; repeat constructor |].
    destruct (String.eqb ty "month").
    { intros [= <-]. unfold month_group, lookup_pattern. simpl.
      rewrite group_names_names. repeat constructor. }
    destruct (String.eqb ty "weekday").
    { intros [= <-]. unfold weekday_group, lookup_pattern. simpl.
      rewrite group_names_names. repeat constructor. }
    intros [= <-]. constructor.
Qed.

Lemma actual_pieces_names (env : Env) (locale : string) (options : Options)
    (formatted : string) (pieces : list re) :
  actual_pieces env locale options formatted = Ok pieces ->
  Forall (fun n => known_type n = true) (concat (map group_names pieces)).
Proof.
  unfold actual_pieces. intros Hp. apply mapM_Ok in Hp.
  induction Hp as [|v r vs rs Hv _ IH]; [constructor |].
  simpl. apply Forall_app. split; [|exact IH].
  now apply (actual_piece_names env locale options v).
Qed.

Lemma getType_known (lower : string -> string) (months_table weekdays_table : DatumLookup)
    (ty v : string) :
  known_type ty = true ->
  known_type (getType lower months_table weekdays_table ty v) = true.
Proof.
  intros H. unfold getType.
  destruct (String.eqb ty "month" || String.eqb ty "weekday"); [|exact H].
  destruct (parsable _ v); [reflexivity |]. now destruct (parsable _ v).
Qed.

(** X4.  The parts the emulation's [formatToParts] gives have no other
    type than year, month, day, weekday and literal. *)
Theorem formatToParts_known_types
    (env : Env) (locale : string) (options : Options) (d : Date) (parts : list Part) :
  FormatToParts_formatToParts env locale options d = Ok parts ->
  Forall (fun p => known_type (type p) = true) parts.
Proof.
  unfold FormatToParts_formatToParts, actualNamesPattern. intros H.
  destruct (probe_formatted env locale options) as [formatted|e]; simpl in H; [|discriminate].
  destruct (actual_pieces env locale options formatted) as [pieces|e] eqn:Hp;
    simpl in H; [|discriminate].
  destruct (NamedRegExp.create _) as [regex|e] eqn:Hregex; simpl in H; [|discriminate].
  apply RegExp_new_Ok in Hregex. subst regex.
  destruct (Improved_format env locale options d) as [text|e]; simpl in H; [|discriminate].
  destruct (NamedRegExp.match_ _ text) as [m|] eqn:Hm; [|discriminate].
  injection H as <-.
  rewrite collapseLiterals_is_merged.
  apply (merged_types (fun ty => known_type ty = true)).
  unfold NamedRegExp.match_, exec in Hm.
  destruct (search_in _ text "" text) as [f|] eqn:Hf; [|discriminate].
  injection Hm as <-.
  destruct (search_in_found _ _ _ _ _ Hf) as (s1 & _ & Hat & _ & _).
  destruct (match_at_derives _ _ _ _ _ Hat) as (t & _ & _ & Hnames).
  assert (Hknown : Forall (fun n => known_type n = true)
                          (group_names (Seq AtStart (Seq (Seqs pieces) AtEnd)))).
  { simpl. rewrite app_nil_r, group_names_Seqs.
    now apply (actual_pieces_names env locale options formatted). }
  rewrite List.Forall_forall in Hknown.
  apply Forall_fmap. eapply List.Forall_impl; [|exact Hnames].
  intros c Hc. simpl. apply getType_known. now apply Hknown.
Qed.

Lemma formatToParts_known_types_witness :
  Forall (fun p => known_type (type p) = true)
    [MkPart "weekday" "Fri"; MkPart "literal" ", "; MkPart "day" "25";
     MkPart "literal" " "; MkPart "month" "Jan"; MkPart "literal" " ";
     MkPart "year" "2019"].
Proof.
  apply (formatToParts_known_types (EnGB.env false) "en-GB" EnGB.short_options
           (MkDate 2019 1 25)).
  vm_compute. reflexivity.
Defined.

(** *** The labels of the parts *)

Lemma typed_labelled (env : Env) (locale : string) (options : Options) (c : NamedMatch) :
  typed env locale options c
  = labelled (toLocaleLowerCase env locale) (Months_dataFor env locale options)
             (Weekdays_dataFor env locale options) c.
Proof.
  unfold typed, labelled, getType, label, parsable, probe_months, probe_weekdays.
  destruct (String.eqb (name c) "month" || String.eqb (name c) "weekday"); [|reflexivity].
  destruct (Months_parse _ _ (mvalue c)); [reflexivity |].
  now destruct (Weekdays_parse _ _ (mvalue c)).
Qed.

(** C4.  The parts the emulation's [formatToParts] gives for a date are the
    tokens that the generated pattern captures in the formatted text, each
    with the label that the lookups of the locale give it when the match is
    read, and runs of literals merged: a token of the month or the weekday
    group is a month if the months resolve it, else a weekday if the
    weekdays resolve it, else a literal, whatever the name of its group. *)
Theorem formatToParts_labels_tokens
    (env : Env) (locale : string) (options : Options) (d : Date) (parts : list Part) :
  FormatToParts_formatToParts env locale options d = Ok parts ->
  exists regex text m,
    actualNamesPattern env locale options = Ok regex
    /\ Improved_format env locale options d = Ok text
    /\ exec regex text = Some m
    /\ parts = merged (map (labelled (toLocaleLowerCase env locale)
                                     (Months_dataFor env locale options)
                                     (Weekdays_dataFor env locale options)) m).
Proof.
  unfold FormatToParts_formatToParts. intros H.
  destruct (actualNamesPattern env locale options) as [regex|e]; simpl in H; [|discriminate].
  destruct (Improved_format env locale options d) as [text|e]; simpl in H; [|discriminate].
  unfold NamedRegExp.match_ in H.
  destruct (exec regex text) as [m|] eqn:Hm; [|discriminate].
  injection H as <-. exists regex, text, m. repeat split; [exact Hm |].
  rewrite collapseLiterals_is_merged. apply (f_equal merged).
  apply map_ext. intros c. apply typed_labelled.
Qed.

(** On a host with narrow names, the M of Monday is captured by the
    weekday group and comes out as a month: the months resolve it. *)
Lemma formatToParts_labels_tokens_witness :
  exists regex text m,
    actualNamesPattern Narrow.env "en" Narrow.options = Ok regex
    /\ Improved_format Narrow.env "en" Narrow.options (MkDate 2019 3 4) = Ok text
    /\ exec regex text = Some m
    /\ [MkPart "month" "M"; MkPart "literal" " "; MkPart "day" "4"; MkPart "literal" " ";
        MkPart "month" "M"; MkPart "literal" " "; MkPart "year" "2019"]
       = merged (map (labelled (toLocaleLowerCase Narrow.env "en")
                               (Months_dataFor Narrow.env "en" Narrow.options)
                               (Weekdays_dataFor Narrow.env "en" Narrow.options)) m).
Proof.
  apply (formatToParts_labels_tokens Narrow.env "en" Narrow.options (MkDate 2019 3 4)).
  vm_compute. reflexivity.
Defined.

Example weekday_token_labelled_month :
  exec (default Eps (match actualNamesPattern Narrow.env "en" Narrow.options with
                     | Ok r => Some r
                     | Throw _ => None
                     end)) "M 4 M 2019"
  = Some [MkMatch "weekday" "M"; MkMatch "literal" " "; MkMatch "day" "4";
          MkMatch "literal" " "; MkMatch "month" "M"; MkMatch "literal" " ";
          MkMatch "year" "2019"]
  /\ label (toLocaleLowerCase Narrow.env "en") (Months_dataFor Narrow.env "en" Narrow.options)
           (Weekdays_dataFor Narrow.env "en" Narrow.options) (MkMatch "weekday" "M")
     = "month".
Proof. split; vm_compute; reflexivity. Qed.

(** X5.  [ImprovedDateTimeFormat.formatToParts] asks the host for the parts
    only when the host has [formatToParts] and gives at least one part for
    the date of the moment; when the host has none, or gives an empty
    array there, the parts are the emulation's. *)
Theorem Improved_formatToParts_falls_back
    (env : Env) (locale : string) (options kept : Options) (formatter : DateTimeFormat)
    (d : Date) :
  DateTimeFormat_new env locale (set_key "timeZone" "UTC" options) = Ok (kept, formatter) ->
  Improved_formatToParts env locale options d
  = match df_formatToParts formatter with
    | Some formatToParts =>
        if 0 <? length (formatToParts (now env)) then Ok (formatToParts d)
        else FormatToParts_formatToParts env locale options d
    | None => FormatToParts_formatToParts env locale options d
    end.
Proof.
  intros Hnew. unfold Improved_formatToParts, isNativelySupported.
  rewrite create_result, Hnew. simpl.
  unfold dateTimeFormat. rewrite dateTimeFormat_in_result.
  change (read [options] 0) with options. rewrite Hnew. simpl.
  destruct (df_formatToParts formatter) as [formatToParts|]; [|reflexivity].
  now destruct (0 <? length (formatToParts (now env))).
Qed.

Lemma Improved_formatToParts_falls_back_witness :
  Improved_formatToParts (EnGB.env false) "en-GB" EnGB.short_options (MkDate 2019 1 25)
  = FormatToParts_formatToParts (EnGB.env false) "en-GB" EnGB.short_options
      (MkDate 2019 1 25).
Proof.
  apply (Improved_formatToParts_falls_back (EnGB.env false) "en-GB" EnGB.short_options
           (set_key "timeZone" "UTC" EnGB.short_options)
           (EnGB.formatter false (set_key "timeZone" "UTC" EnGB.short_options))).
  reflexivity.
Defined.

(** X6.  [SimpleFormat.formatToParts] gives one part for every part of the
    template, of the same type and in the same order, and a literal of the
    template comes out with its own text. *)
Theorem Simple_formatToParts_follows_template
    (env : Env) (locale : string) (partsInOrder : list Part) (d : Date)
    (parts : list Part) :
  Simple_formatToParts env locale partsInOrder d = Ok parts ->
  Forall2 (fun p q => type q = type p /\ (type p = "literal" -> q = p))
          partsInOrder parts.
Proof.
  unfold Simple_formatToParts. intros H.
  destruct (FormatToParts_formatToParts env locale (optionsFrom partsInOrder) d)
    as [partsWithValues|e]; simpl in H; [|discriminate].
  apply mapM_Ok in H.
  eapply Forall2_impl; [exact H |].
  intros p q Hq. simpl in Hq. unfold valueFor in Hq.
  destruct (String.eqb (type p) "literal") eqn:E.
  - simpl in Hq. injection Hq as <-. split; [reflexivity |].
    intros _. now destruct p.
  - destruct (valueFromParts env partsWithValues (type p)) as [v|e]; simpl in Hq;
      [|discriminate].
    injection Hq as <-. split; [reflexivity |].
    intros Hl. rewrite Hl in E. discriminate.
Qed.

Lemma Simple_formatToParts_follows_template_witness :
  Forall2 (fun p q => type q = type p /\ (type p = "literal" -> q = p))
    [MkPart "day" "2-digit"; MkPart "literal" " "; MkPart "month" "short";
     MkPart "literal" " "; MkPart "year" "numeric"]
    [MkPart "day" "25"; MkPart "literal" " "; MkPart "month" "Jan";
     MkPart "literal" " "; MkPart "year" "2019"].
Proof.
  apply (Simple_formatToParts_follows_template (EnGB.env false) "en-GB"
           [MkPart "day" "2-digit"; MkPart "literal" " "; MkPart "month" "short";
            MkPart "literal" " "; MkPart "year" "numeric"] (MkDate 2019 1 25)).
  vm_compute. reflexivity.
Defined.

End FormatterMore.

(* ===================================================================== *)
(** ** Format templates *)
(* ===================================================================== *)

Section TemplateMore.
Import RegExp JS Dates Spec Laws StrFacts.

Lemma derives_star_text (greedy : bool) (c : ascii) (t : string) :
  derives (Star greedy (Text (String c ""))) t -> exists n, t = Str.replicate n c.
Proof.
  remember (Star greedy (Text (String c ""))) as r eqn:Er. intros H.
  induction H; try discriminate.
  - now exists 0.
  - injection Er as -> ->. destruct (IHderives2 eq_refl) as (n & ->).
    inversion H; subst. now exists (S n).
Qed.

Lemma derives_run (n : string) (greedy : bool) (c : ascii) (t : string) :
  derives (Group n (Plus greedy (Text (String c "")))) t ->
  exists k, t = Str.replicate (S k) c.
Proof.
  intros H. inversion H as [| | | | | | | | |? ? ? Hin| | |]; subst.
  unfold Plus in Hin.
  inversion Hin as [| | | |? ? ? ? Ha Hb| | | | | | | |]; subst.
  inversion Ha; subst. destruct (derives_star_text _ _ _ Hb) as (k & ->). now exists k.
Qed.

(** What [formatRegex] matches: a run of one of the letters y, M, d, E. *)
Lemma derives_formatRegex (t : string) :
  derives formatRegex t ->
  exists c k, t = Str.replicate (S k) c
              /\ (c = "y" \/ c = "M" \/ c = "d" \/ c = "E")%char.
Proof.
  unfold formatRegex. cbn [Alts]. intros H.
  inversion H as [| | | | |? ? ? H1|? ? ? H1| | | | | |]; subst.
  { destruct (derives_run _ _ _ _ H1) as (k & ->). exists "y"%char, k. auto. }
  inversion H1 as [| | | | |? ? ? H2|? ? ? H2| | | | | |]; subst.
  { destruct (derives_run _ _ _ _ H2) as (k & ->). exists "M"%char, k. auto. }
  inversion H2 as [| | | | |? ? ? H3|? ? ? H3| | | | | |]; subst.
  { destruct (derives_run _ _ _ _ H3) as (k & ->). exists "d"%char, k. auto. }
  destruct (derives_run _ _ _ _ H3) as (k & ->). exists "E"%char, k. auto.
Qed.

Lemma contains_replicate (c c' : ascii) (n : nat) :
  contains c (Str.replicate (S n) c') = Ascii.eqb c c'.
Proof.
  unfold contains. induction n as [|n IH]; simpl in *.
  - apply orb_false_r.
  - rewrite IH. now destruct (Ascii.eqb c c').
Qed.

Lemma length_replicate (n : nat) (c : ascii) : String.length (Str.replicate n c) = n.
Proof. induction n; simpl; congruence. Qed.

(** [typeFrom] on a run of a letter of the templates. *)
Lemma typeFrom_run (c : ascii) (k : nat) :
  (c = "y" \/ c = "M" \/ c = "d" \/ c = "E")%char ->
  exists ty, typeFrom (Str.replicate (S k) c) = Ok ty
             /\ is_field ty = true /\ letter ty = c.
Proof.
  unfold typeFrom. rewrite !contains_replicate.
  intros [-> | [-> | [-> | ->]]]; simpl; eexists; repeat split; reflexivity.
Qed.

Lemma is_field_cases (ty : string) :
  is_field ty = true -> ty = "year" \/ ty = "month" \/ ty = "day" \/ ty = "weekday".
Proof.
  unfold is_field. simpl. rewrite !orb_true_iff, !String.eqb_eq. intuition discriminate.
Qed.

(** [formatFrom]: the style it gives is one of the type and is as wide as
    the run; what it throws names the type and the width. *)
Lemma formatFrom_width (ty : string) (n : nat) (v : string) :
  is_field ty = true -> formatFrom ty n = Ok v ->
  width ty v = n /\ style_ok ty v = true.
Proof.
  intros Hty. unfold formatFrom.
  generalize (illegal_argument (ty +:+ " " +:+ pretty n)). intros err.
  apply is_field_cases in Hty.
  destruct Hty as [-> | [-> | [-> | ->]]];
    cbn [String.eqb Ascii.eqb Bool.eqb andb];
    repeat match goal with
           | |- context [Nat.eqb n ?k] =>
               destruct (Nat.eqb_spec n k);
               [subst n; intros [= <-]; split; reflexivity |]
           end;
    discriminate.
Qed.

Lemma formatFrom_throws (ty : string) (n : nat) (e : Error) :
  formatFrom ty n = Throw e -> e = illegal_argument (ty +:+ " " +:+ pretty n).
Proof.
  unfold formatFrom.
  generalize (illegal_argument (ty +:+ " " +:+ pretty n)). intros err.
  repeat (match goal with |- context [if ?b then _ else _] => destruct b end;
          [discriminate |]).
  now intros [= <-].
Qed.

Lemma mapM_Throw {A B} (f : A -> Result B) (l : list A) (e : Error) :
  mapM f l = Throw e -> exists a, In a l /\ f a = Throw e.
Proof.
  induction l as [|a l IH]; simpl; [discriminate |].
  destruct (f a) as [b|e'] eqn:E; simpl.
  - destruct (mapM f l) as [bs|e'']; simpl; [discriminate |].
    intros [= <-]. destruct (IH eq_refl) as (a' & Hin & Ha'). exists a'. auto.
  - intros [= <-]. exists a. auto.
Qed.

(** The step of [partsFrom] on a step of [iterate] over [formatRegex]. *)
Lemma part_from_step (whole : string) (step : NamedRegExp.MatchOrNot) :
  match step with
  | NamedRegExp.Matched t m =>
      derives formatRegex t /\ exists rest, match_at formatRegex whole (t +:+ rest) = Some (m, rest)
  | NamedRegExp.NotMatched t => Str.is_empty t = false
  end ->
  match part_from step with
  | Ok p => template_part p = true /\ letters p = text_of step
  | Throw e =>
      exists ty n, is_field ty = true /\ formatFrom ty n = Throw e
                   /\ e = illegal_argument (ty +:+ " " +:+ pretty n)
  end.
Proof.
  destruct step as [a | t m]; simpl.
  - intros Ha. unfold template_part, letters. simpl. now rewrite Ha.
  - intros [D _]. destruct (derives_formatRegex _ D) as (c & k & -> & Hc).
    destruct (typeFrom_run c k Hc) as (ty & -> & Hty & Hletter). cbn [bind].
    rewrite length_replicate.
    destruct (formatFrom ty (S k)) as [v|e] eqn:Ev; simpl.
    + destruct (formatFrom_width _ _ _ Hty Ev) as [Hw Hs].
      assert (Hlit : is_literal (MkPart ty v) = false).
      { apply is_field_cases in Hty. now destruct Hty as [-> | [-> | [-> | ->]]]. }
      unfold template_part, letters. rewrite Hlit. simpl. now rewrite Hs, Hw, Hletter.
    + exists ty, (S k). repeat split; auto. now apply formatFrom_throws.
Qed.

(** X7.  [partsFrom] and the way back: every part is a literal with some
    text or a field with a style of its type, and writing every field as
    its letter, as many times as its style is wide, gives the template
    back. *)
Theorem partsFrom_round_trip (format : string) (parts : list Part) :
  partsFrom format = Ok parts ->
  Forall (fun p => template_part p = true) parts
  /\ Str.join (map letters parts) = format.
Proof.
  unfold partsFrom. intros H. apply mapM_Ok in H.
  rewrite <- (iterate_spells formatRegex format).
  pose proof (iterate_from_steps formatRegex format (S (String.length format)) format)
    as Hsteps.
  fold (NamedRegExp.iterate formatRegex format) in Hsteps.
  induction H as [|step p steps ps Hstep _ IH]; [split; [constructor | reflexivity] |].
  apply Forall_cons in Hsteps as [Hhere Hsteps].
  destruct (IH Hsteps) as [IH1 IH2].
  pose proof (part_from_step format step Hhere) as Hp. rewrite Hstep in Hp.
  destruct Hp as [Hp1 Hp2]. split; [now constructor |].
  simpl. now rewrite !join_cons, IH2, Hp2.
Qed.

Lemma partsFrom_round_trip_witness :
  Forall (fun p => template_part p = true)
    [MkPart "day" "2-digit"; MkPart "literal" " "; MkPart "month" "short";
     MkPart "literal" " "; MkPart "year" "numeric"]
  /\ Str.join (map letters
       [MkPart "day" "2-digit"; MkPart "literal" " "; MkPart "month" "short";
        MkPart "literal" " "; MkPart "year" "numeric"]) = "dd MMM yyyy".
Proof.
  apply (partsFrom_round_trip "dd MMM yyyy"). vm_compute. reflexivity.
Defined.

(** *** Where [partsFrom] throws *)

Lemma matcher_letter (whole : string) (R : Type) (c a : ascii) (s : string)
    (cs : Captures) (k : string -> Captures -> option R) :
  matcher (Text (String c "")) whole R (String a s) cs k
  = if Ascii.eqb c a then k s cs else None.
Proof. cbn [matcher Str.strip_prefix]. now destruct (Ascii.eqb c a). Qed.

Lemma matcher_letter_empty (whole : string) (R : Type) (c : ascii)
    (cs : Captures) (k : string -> Captures -> option R) :
  matcher (Text (String c "")) whole R "" cs k = None.
Proof. reflexivity. Qed.

(** A greedy run of one letter before a pattern that always goes on takes
    every such letter that stands there. *)
Lemma turns_text_greedy (whole : string) (R : Type) (c : ascii)
    (k : string -> Captures -> option R) (x : R) :
  (forall s cs, k s cs <> None) ->
  forall fuel s cs,
    String.length s <= fuel ->
    turns (matcher (Text (String c "")) whole R) true k fuel s cs = Some x ->
    exists j s', s = Str.replicate j c +:+ s' /\ led_by c s' = false /\ k s' cs = Some x.
Proof.
  intros Hk. induction fuel as [|fuel IH]; intros s cs Hlen H.
  - destruct s; [|simpl in Hlen; lia]. simpl in H. now exists 0, "".
  - cbn [turns] in H. destruct s as [|a s].
    + rewrite matcher_letter_empty in H. now exists 0, "".
    + rewrite matcher_letter in H. destruct (Ascii.eqb c a) eqn:Ec.
      * apply Ascii.eqb_eq in Ec. subst a.
        destruct (decide (String.length s < String.length (String c s))) as [_|Hn];
          [|simpl in Hn; lia].
        destruct (turns (matcher (Text (String c "")) whole R) true k fuel s cs)
          as [y|] eqn:E.
        -- injection H as ->.
           assert (Hs : String.length s <= fuel) by (simpl in Hlen; lia).
           destruct (IH s cs Hs E) as (j & s' & -> & Hled & Hx).
           now exists (S j), s'.
        -- now apply (turns_total _ true k fuel s cs) in E.
      * exists 0, (String a s). simpl. now rewrite Ec.
Qed.

(** A match of a group around a run of one letter. *)
Lemma run_match (n : string) (c : ascii) (whole s rest : string) (cs m : Captures) :
  matcher (Group n (Plus true (Text (String c "")))) whole _ s cs at_end = Some (m, rest) ->
  exists k, s = Str.replicate (S k) c +:+ rest /\ led_by c rest = false.
Proof.
  unfold Plus. rewrite matcher_Group_eq, matcher_Seq_eq.
  destruct s as [|a s]; [rewrite matcher_letter_empty; discriminate |].
  rewrite matcher_letter.
  destruct (Ascii.eqb c a) eqn:Ec; [|discriminate].
  apply Ascii.eqb_eq in Ec. subst a. rewrite matcher_Star_eq. intros H.
  apply turns_text_greedy in H as (j & s' & -> & Hled & Hx);
    [| intros s0 cs0 Hx; unfold at_end in Hx; discriminate Hx | lia].
  unfold at_end in Hx. injection Hx as _ <-. now exists j.
Qed.

Lemma run_matches (n : string) (c : ascii) (whole s : string) (cs : Captures) :
  matcher (Group n (Plus true (Text (String c "")))) whole _ (String c s) cs at_end <> None.
Proof.
  unfold Plus. rewrite matcher_Group_eq, matcher_Seq_eq, matcher_letter.
  rewrite Ascii.eqb_refl, matcher_Star_eq. apply turns_total.
  intros s0 cs0 Hx; unfold at_end in Hx; discriminate Hx.
Qed.

Lemma field_letter_cases (c : ascii) :
  field_letter c = true <-> (c = "y" \/ c = "M" \/ c = "d" \/ c = "E")%char.
Proof.
  unfold field_letter. simpl. rewrite !orb_true_iff, !Ascii.eqb_eq. intuition discriminate.
Qed.

(** What a match of [formatRegex] takes: a whole run of a letter of a
    field. *)
Lemma formatRegex_match (whole s rest : string) (m : Captures) :
  match_at formatRegex whole s = Some (m, rest) ->
  exists c k, field_letter c = true
              /\ s = Str.replicate (S k) c +:+ rest /\ led_by c rest = false.
Proof.
  unfold match_at, formatRegex. cbn [Alts].
  change (fun (s' : string) (cs : Captures) => Some (cs, s')) with at_end.
  rewrite matcher_Alt_eq.
  destruct (matcher (Group "1" _) whole _ s [] at_end) as [y|] eqn:E1.
  { intros [= ->]. apply run_match in E1 as (k & -> & Hled). now exists "y"%char, k. }
  rewrite matcher_Alt_eq.
  destruct (matcher (Group "2" _) whole _ s [] at_end) as [y|] eqn:E2.
  { intros [= ->]. apply run_match in E2 as (k & -> & Hled). now exists "M"%char, k. }
  rewrite matcher_Alt_eq.
  destruct (matcher (Group "3" _) whole _ s [] at_end) as [y|] eqn:E3.
  { intros [= ->]. apply run_match in E3 as (k & -> & Hled). now exists "d"%char, k. }
  intros E4. apply run_match in E4 as (k & -> & Hled). now exists "E"%char, k.
Qed.

(** [formatRegex] matches wherever a letter of a field stands. *)
Lemma formatRegex_at_letter (whole : string) (c : ascii) (s : string) :
  field_letter c = true -> match_at formatRegex whole (String c s) <> None.
Proof.
  intros Hc. unfold match_at, formatRegex. cbn [Alts].
  change (fun (s' : string) (cs : Captures) => Some (cs, s')) with at_end.
  apply field_letter_cases in Hc.
  rewrite matcher_Alt_eq.
  destruct (matcher (Group "1" _) whole _ (String c s) [] at_end) as [y|] eqn:E1;
    [discriminate |].
  destruct Hc as [-> | Hc]; [now apply run_matches in E1 |].
  rewrite matcher_Alt_eq.
  destruct (matcher (Group "2" _) whole _ (String c s) [] at_end) as [y|] eqn:E2;
    [discriminate |].
  destruct Hc as [-> | Hc]; [now apply run_matches in E2 |].
  rewrite matcher_Alt_eq.
  destruct (matcher (Group "3" _) whole _ (String c s) [] at_end) as [y|] eqn:E3;
    [discriminate |].
  destruct Hc as [-> | ->]; [now apply run_matches in E3 |].
  apply run_matches.
Qed.

(** What the search for [formatRegex] skips holds no letter of a field. *)
Lemma skipped_has_no_letter (whole tail : string) :
  forall skipped,
    (forall front back,
       skipped = front +:+ back -> back <> "" ->
       match_at formatRegex whole (back +:+ tail) = None) ->
    no_field_letter skipped = true.
Proof.
  induction skipped as [|c skipped IH]; intros Hnone; [reflexivity |].
  unfold no_field_letter. cbn [Str.characters forallb]. fold (no_field_letter skipped).
  rewrite IH.
  - rewrite andb_true_r. destruct (field_letter c) eqn:Hc; [|reflexivity].
    exfalso. apply (formatRegex_at_letter whole c (skipped +:+ tail) Hc).
    rewrite <- sapp_cons. now apply (Hnone "" (String c skipped)).
  - intros front back E Hback. apply (Hnone (String c front)); [|exact Hback].
    rewrite sapp_cons. now f_equal.
Qed.

Lemma letter_of_field (ty : string) : is_field ty = true -> field_letter (letter ty) = true.
Proof.
  intros H. apply is_field_cases in H. now destruct H as [-> | [-> | [-> | ->]]].
Qed.

Lemma field_not_literal (ty : string) : is_field ty = true -> String.eqb ty "literal" = false.
Proof.
  intros H. apply is_field_cases in H. now destruct H as [-> | [-> | [-> | ->]]].
Qed.

Lemma led_by_replicate (c : ascii) (k : nat) (s : string) :
  led_by c (Str.replicate (S k) c +:+ s) = true.
Proof. simpl. apply Ascii.eqb_refl. Qed.

(** The first run that [partsFrom] has no style for: what stands before it
    was cut into parts, each a whole run of a letter with a style or a
    stretch without such a letter. *)
Lemma partsFrom_first_throw (whole : string) (fuel : nat) :
  forall s e,
    String.length s < fuel ->
    mapM part_from (NamedRegExp.iterate_from fuel formatRegex whole s) = Throw e ->
    exists parts_before ty n rest,
      s = Str.join (map letters parts_before) +:+ Str.replicate n (letter ty) +:+ rest
      /\ Forall (fun p => cut_part p = true) parts_before
      /\ types_alternate (parts_before ++ [MkPart ty ""]) = true
      /\ is_field ty = true /\ 0 < n /\ led_by (letter ty) rest = false
      /\ formatFrom ty n = Throw e
      /\ match parts_before ++ [MkPart ty ""] with
         | p :: _ => is_literal p = false -> led_by (letter (type p)) s = true
         | [] => True
         end.
Proof.
  assert (Hnot : forall t,
            mapM part_from (NamedRegExp.not_matched t)
            = Ok (if Str.is_empty t then [] else [MkPart "literal" t])).
  { intros t. unfold NamedRegExp.not_matched. now destruct (Str.is_empty t). }
  induction fuel as [|fuel IH]; intros s e Hlen H; [lia |].
  cbn [NamedRegExp.iterate_from] in H.
  destruct (search_in formatRegex whole "" s) as [f|] eqn:E.
  2:{ rewrite Hnot in H. discriminate. }
  destruct (search_in_leftmost _ _ _ _ _ E) as (skipped & Hb & Hs & Hat & Hnone).
  rewrite sapp_nil_l in Hb.
  destruct (formatRegex_match _ _ _ _ Hat) as (c & k & Hc & Erun & Hled).
  apply sapp_inv_tail_here in Erun.
  pose proof (skipped_has_no_letter whole _ skipped Hnone) as Hskipped.
  destruct (typeFrom_run c k (proj1 (field_letter_cases c) Hc))
    as (ty & Hty & Hfield & Hletter).
  rewrite mapM_app, Hnot, Hb in H. cbn [bind mapM part_from] in H.
  rewrite Erun, Hty in H. cbn [bind] in H. rewrite length_replicate in H.
  set (lit := if Str.is_empty skipped then [] else [MkPart "literal" skipped]) in *.
  assert (Hlit : Forall (fun p => cut_part p = true) lit
                 /\ Str.join (map letters lit) = skipped).
  { unfold lit. destruct (Str.is_empty skipped) eqn:Ee.
    - split; [constructor |]. now destruct skipped.
    - split; [|cbn [map]; rewrite join_cons, join_nil, sapp_nil_r; reflexivity].
      repeat constructor. unfold cut_part, template_part, is_literal. cbn [type value].
      now rewrite String.eqb_refl, Ee, Hskipped. }
  destruct Hlit as [Hlit1 Hlit2].
  assert (Hhead : forall (q : Part) (l : list Part),
            type q = ty ->
            match lit ++ q :: l with
            | p :: _ => is_literal p = false -> led_by (letter (type p)) s = true
            | [] => True
            end).
  { intros q l Hq. unfold lit. destruct (Str.is_empty skipped) eqn:Ee; cbn [app].
    - intros _. destruct skipped; [|discriminate].
      rewrite Hs, sapp_nil_l, Erun, Hq, Hletter. apply led_by_replicate.
    - discriminate. }
  assert (Halt : forall (q : Part) (l : list Part),
            type q = ty -> types_alternate (q :: l) = true ->
            types_alternate (lit ++ q :: l) = true).
  { intros q l Hq Hl. unfold lit. destruct (Str.is_empty skipped); [exact Hl |].
    change (negb (String.eqb "literal" (type q)) && types_alternate (q :: l) = true).
    rewrite Hl, Hq, String.eqb_sym, (field_not_literal _ Hfield). reflexivity. }
  destruct (formatFrom ty (S k)) as [v|e'] eqn:Ev; cbn [bind] in H.
  - (* this run has a style: the throw comes later *)
    assert (Hne : Str.is_empty (Str.replicate (S k) c) = false) by reflexivity.
    rewrite Hne in H.
    destruct (mapM part_from (NamedRegExp.iterate_from fuel formatRegex whole (after f)))
      as [more|e''] eqn:Hmore; cbn [bind] in H; [discriminate |].
    injection H as <-.
    assert (Hlt : String.length (after f) < fuel).
    { rewrite Hs, Erun, !slength_app, length_replicate in Hlen. lia. }
    destruct (IH _ _ Hlt Hmore)
      as (before' & ty' & n & rest & Es' & Hcut & Halt' & Hfield' & Hn & Hled' & Hthrow
          & Hhead').
    destruct (formatFrom_width _ _ _ Hfield Ev) as [Hw Hstyle].
    exists (lit ++ MkPart ty v :: before'), ty', n, rest.
    repeat split; try assumption.
    + rewrite map_app, join_app, Hlit2. cbn [map]. rewrite join_cons.
      unfold letters at 1. cbn [type value]. unfold is_literal. cbn [type].
      rewrite (field_not_literal _ Hfield), Hw, Hletter, !sapp_assoc, <- Es'.
      now rewrite Hs, Erun.
    + apply Forall_app. split; [exact Hlit1 |]. constructor; [|exact Hcut].
      unfold cut_part, template_part, is_literal. cbn [type value].
      now rewrite (field_not_literal _ Hfield), Hstyle.
    + rewrite <- app_assoc. cbn [app]. apply Halt; [reflexivity |].
      destruct (before' ++ [MkPart ty' ""]) as [|p' l'] eqn:El;
        [now destruct before' |].
      change (negb (String.eqb ty (type p')) && types_alternate (p' :: l') = true).
      rewrite Halt', andb_true_r. apply negb_true_iff. apply String.eqb_neq.
      intros Heq. destruct (is_literal p') eqn:Hp'.
      * unfold is_literal in Hp'. rewrite <- Heq, (field_not_literal _ Hfield) in Hp'.
        discriminate.
      * specialize (Hhead' eq_refl). rewrite <- Heq, Hletter in Hhead'. congruence.
    + rewrite <- app_assoc. cbn [app]. now apply Hhead.
  - (* this run has none *)
    injection H as <-.
    exists lit, ty, (S k), (after f).
    repeat split; try assumption; try lia.
    + now rewrite Hlit2, Hletter, Hs, Erun.
    + now apply Halt.
    + now rewrite Hletter.
    + now apply Hhead.
Qed.

(** X8.  [partsFrom] throws for one reason only, and at one place: the
    first run of y, M, d or E of a width that [formatFrom] has no style
    for.  What stands before that run was cut into parts as a template is,
    a whole run of a letter with its style or a stretch without such a
    letter; the run itself is whole too; and the error is
    [Illegal Argument: type width] for its type and width. *)
Theorem partsFrom_throws_for_a_width (format : string) (e : Error) :
  partsFrom format = Throw e ->
  exists parts_before ty n rest,
    format = Str.join (map letters parts_before) +:+ Str.replicate n (letter ty) +:+ rest
    /\ Forall (fun p => cut_part p = true) parts_before
    /\ types_alternate (parts_before ++ [MkPart ty ""]) = true
    /\ is_field ty = true /\ 0 < n /\ led_by (letter ty) rest = false
    /\ formatFrom ty n = Throw e
    /\ e = illegal_argument (ty +:+ " " +:+ pretty n).
Proof.
  unfold partsFrom, NamedRegExp.iterate. intros H.
  destruct (partsFrom_first_throw format _ format e (Nat.lt_succ_diag_r _) H)
    as (parts_before & ty & n & rest & E & Hcut & Halt & Hfield & Hn & Hled & Hthrow & _).
  exists parts_before, ty, n, rest.
  repeat split; try assumption. now apply formatFrom_throws.
Qed.

Lemma partsFrom_throws_for_a_width_witness :
  exists parts_before ty n rest,
    "dd/MM/yyy to d" = Str.join (map letters parts_before) +:+ Str.replicate n (letter ty) +:+ rest
    /\ Forall (fun p => cut_part p = true) parts_before
    /\ types_alternate (parts_before ++ [MkPart ty ""]) = true
    /\ is_field ty = true /\ 0 < n /\ led_by (letter ty) rest = false
    /\ formatFrom ty n = Throw (illegal_argument "year 3")
    /\ illegal_argument "year 3" = illegal_argument (ty +:+ " " +:+ pretty n).
Proof.
  apply (partsFrom_throws_for_a_width "dd/MM/yyy to d"). vm_compute. reflexivity.
Defined.

(** *** optionsFrom *)

Lemma read_key_set_key (k key v : string) (o : Options) :
  read_key k (set_key key v o) = if String.eqb key k then Some v else read_key k o.
Proof.
  unfold read_key. induction o as [|[k' x] o IH]; simpl.
  - now destruct (String.eqb key k).
  - destruct (String.eqb k' key) eqn:E; simpl.
    + apply String.eqb_eq in E. subst k'. now destruct (String.eqb key k).
    + destruct (String.eqb k' k) eqn:E'; simpl.
      * apply String.eqb_eq in E'. subst k'. now rewrite String.eqb_sym, E.
      * exact IH.
Qed.

Lemma keys_set_key (key v : string) (o : Options) :
  keys (set_key key v o) = if decide (key ∈ keys o) then keys o else keys o ++ [key].
Proof.
  unfold keys. induction o as [|[k x] o IH]; simpl.
  - destruct (decide (key ∈ [])) as [Hin|_]; [|reflexivity].
    now apply elem_of_nil in Hin.
  - destruct (String.eqb k key) eqn:E; simpl.
    + apply String.eqb_eq in E. subst k.
      destruct (decide (key ∈ key :: map fst o)) as [_|Hn]; [reflexivity |].
      contradiction Hn. apply list_elem_of_here.
    + apply String.eqb_neq in E. rewrite IH.
      destruct (decide (key ∈ map fst o)) as [Hin|Hout];
        destruct (decide (key ∈ k :: map fst o)) as [Hin'|Hout']; try reflexivity.
      * contradiction Hout'. now apply list_elem_of_further.
      * apply elem_of_cons in Hin' as [->|Hin']; [now contradiction E | now contradiction Hout].
Qed.

Lemma fold_set_key (k : string) (l : list Part) :
  forall o,
    read_key k (foldl (fun a p => set_key (type p) (value p) a) o l)
    = match last (filter (fun p => String.eqb (type p) k = true) l) with
      | Some p => Some (value p)
      | None => read_key k o
      end
    /\ (NoDup (keys o) ->
        NoDup (keys (foldl (fun a p => set_key (type p) (value p) a) o l))).
Proof.
  induction l as [|p l IH]; intros o; simpl; [auto |].
  destruct (IH (set_key (type p) (value p) o)) as (IH1 & IH2).
  split.
  - rewrite IH1, filter_cons, read_key_set_key.
    destruct (decide (String.eqb (type p) k = true)) as [E|E].
    + rewrite E, last_cons. now destruct (last _).
    + apply not_true_is_false in E. now rewrite E.
  - intros Hnd. apply IH2. rewrite keys_set_key.
    destruct (decide (type p ∈ keys o)) as [Hin|Hout]; [exact Hnd |].
    apply NoDup_app. split; [exact Hnd |]. split; [|apply NoDup_singleton].
    intros x Hx Hx'. apply list_elem_of_singleton in Hx'. now subst x.
Qed.

Lemma filter_option_keys (ty : string) (parts : list Part) :
  filter (fun p => String.eqb (type p) ty = true)
         (filter (fun p => is_option_key (type p) = true) parts)
  = if is_option_key ty then filter (fun p => String.eqb (type p) ty = true) parts else [].
Proof.
  induction parts as [|p parts IH]; [now destruct (is_option_key ty) |].
  rewrite (filter_cons _ p parts).
  destruct (decide (is_option_key (type p) = true)) as [Hk|Hk].
  - rewrite !filter_cons, IH.
    destruct (decide (String.eqb (type p) ty = true)) as [E|E]; [|reflexivity].
    apply String.eqb_eq in E. rewrite <- E, Hk. reflexivity.
  - rewrite IH, filter_cons.
    destruct (decide (String.eqb (type p) ty = true)) as [E|E]; [|reflexivity].
    apply String.eqb_eq in E. rewrite <- E.
    apply not_true_is_false in Hk. now rewrite Hk.
Qed.

(** X9.  [optionsFrom]: the options have a key for a type only when it is
    year, month, day or weekday; the value under it is the value of the
    last part of that type; no key comes twice. *)
Theorem optionsFrom_last_wins (parts : list Part) (ty : string) :
  read_key ty (optionsFrom parts)
  = (if is_option_key ty then last_of ty parts else None)
  /\ NoDup (keys (optionsFrom parts)).
Proof.
  unfold optionsFrom, last_of.
  destruct (fold_set_key ty (filter (fun p => is_option_key (type p) = true) parts) [])
    as (H1 & H2).
  split; [|apply H2; constructor].
  rewrite H1, filter_option_keys.
  destruct (is_option_key ty); [|reflexivity].
  now destruct (last _).
Qed.

End TemplateMore.

(* ===================================================================== *)
(** ** The parsers *)
(* ===================================================================== *)

Section ParserMore.
Import RegExp JS Dates Spec Laws StrFacts.

Lemma parseAll_turns_starts (p : RegexParser) (whole : string) (fuel : nat) :
  forall s result l,
    parseAll_turns fuel p whole s result = Ok l -> exists more, l = result ++ more.
Proof.
  induction fuel as [|fuel IH]; intros s result l H; simpl in H.
  - injection H as <-. exists []. now rewrite app_nil_r.
  - destruct (search_in (rp_regex p) whole "" s) as [f|].
    + destruct (assemble (rp_groups p) (groups f)) as [d|e]; simpl in H; [|discriminate].
      destruct (IH _ _ _ H) as (more & ->). exists (d :: more).
      now rewrite <- app_assoc.
    + injection H as <-. exists []. now rewrite app_nil_r.
Qed.

(** X10.  [RegexParser.parse] and [RegexParser.parseAll] agree on the
    first match: when [parseAll] gives dates, the first of them is what
    [parse] gives, and when it gives none, [parse] throws. *)
Theorem parseAll_starts_with_parse
    (env : Env) (p : RegexParser) (v : string) (l : list Date) :
  RegexParser_parseAll env p v = Ok l ->
  match l with
  | [] => throws (RegexParser_parse env p v)
  | d :: _ => RegexParser_parse env p v = Ok d
  end.
Proof.
  unfold RegexParser_parseAll, RegexParser_parse, exec. cbn [parseAll_turns].
  destruct (search_in (rp_regex p) _ "" _) as [f|]; cbn [fmap option_fmap option_map].
  - destruct (assemble (rp_groups p) (groups f)) as [d|e]; cbn [bind]; [|discriminate].
    intros H. destruct (parseAll_turns_starts _ _ _ _ _ _ H) as (more & ->). reflexivity.
  - intros [= <-]. eexists. reflexivity.
Qed.

Lemma parseAll_starts_with_parse_witness :
  RegexParser_parse (EnGB.env true) EnGB.short_parser "25 Jan 2019 to 3 Feb 2019"
  = Ok (MkDate 2019 1 25).
Proof.
  apply (parseAll_starts_with_parse (EnGB.env true) EnGB.short_parser
           "25 Jan 2019 to 3 Feb 2019"
           [MkDate 2019 1 25; MkDate 2019 2 3]).
  vm_compute. reflexivity.
Defined.

(** *** The occurrences that [parseAll] goes through *)

(** The turns of [parseAll] go through the occurrences of the pattern. *)
Lemma parseAll_turns_occurrences (p : RegexParser) (whole : string) :
  consuming (rp_regex p) = true ->
  forall fuel s result l,
    String.length s < fuel ->
    parseAll_turns fuel p whole s result = Ok l ->
    exists ms dates,
      occurrences (rp_regex p) whole s ms
      /\ mapM (assemble (rp_groups p)) ms = Ok dates
      /\ l = result ++ dates.
Proof.
  intros Hc. induction fuel as [|fuel IH]; intros s result l Hfuel H; [lia |].
  cbn [parseAll_turns] in H.
  destruct (search_in (rp_regex p) whole "" s) as [f|] eqn:Hf.
  - destruct (assemble (rp_groups p) (groups f)) as [d|e] eqn:Hd; cbn [bind] in H;
      [|discriminate].
    pose proof (consuming_found _ _ _ _ Hc Hf) as Hne.
    pose proof (found_shortens _ _ _ _ Hf Hne) as Hlt.
    assert (Hleft : String.length (after f) < fuel) by lia.
    destruct (IH _ _ _ Hleft H) as (ms & dates & Hocc & Hdates & ->).
    destruct (search_in_leftmost _ _ _ _ _ Hf) as (skipped & _ & Hs & Hat & Hnone).
    exists (groups f :: ms), (d :: dates). split; [|split].
    + rewrite Hs. apply occurrences_next; [exact Hnone | exact Hat | | exact Hocc].
      intros E. rewrite E in Hne. discriminate.
    + cbn [mapM]. rewrite Hd. cbn [bind]. now rewrite Hdates.
    + now rewrite <- app_assoc.
  - injection H as <-. exists [], []. split; [|split].
    + apply occurrences_end. now apply (search_in_none _ _ _ _ Hf).
    + reflexivity.
    + now rewrite app_nil_r.
Qed.

Lemma occurrences_parseAll_turns (p : RegexParser) (whole : string) (s : string)
    (ms : list Captures) :
  occurrences (rp_regex p) whole s ms ->
  forall dates fuel result,
    mapM (assemble (rp_groups p)) ms = Ok dates ->
    String.length s < fuel ->
    parseAll_turns fuel p whole s result = Ok (result ++ dates).
Proof.
  induction 1 as [s Hnone | skipped here rest m ms Hnone Hat Hne _ IH];
    intros dates fuel result Hdates Hfuel;
    (destruct fuel as [|fuel]; [lia |]); cbn [parseAll_turns].
  - injection Hdates as <-. rewrite app_nil_r.
    destruct (search_in (rp_regex p) whole "" s) as [f|] eqn:Hf; [|reflexivity].
    destruct (search_in_leftmost _ _ _ _ _ Hf) as (skipped & _ & Hs & Hat & _).
    rewrite (Hnone skipped _ Hs) in Hat. discriminate.
  - rewrite (search_in_finds _ _ _ _ _ Hat skipped "" Hnone). cbn [groups after].
    cbn [mapM] in Hdates.
    destruct (assemble (rp_groups p) m) as [d|e]; cbn [bind] in Hdates; [|discriminate].
    destruct (mapM (assemble (rp_groups p)) ms) as [ds|e]; cbn [bind] in Hdates;
      [|discriminate].
    injection Hdates as <-. cbn [bind].
    rewrite (IH ds fuel (result ++ [d]) eq_refl).
    + now rewrite <- app_assoc.
    + rewrite !slength_app in Hfuel. destruct here; [now contradiction Hne |].
      simpl in Hfuel. lia.
Qed.

(** What one parser's [parseAll] returns. *)
Lemma RegexParser_parseAll_occurrences (env : Env) (p : RegexParser) (v : string)
    (dates : list Date) :
  consuming (rp_regex p) = true ->
  RegexParser_parseAll env p v = Ok dates <->
  exists ms,
    occurrences (rp_regex p) (toLocaleLowerCase env (rp_locale p) v)
                (toLocaleLowerCase env (rp_locale p) v) ms
    /\ mapM (assemble (rp_groups p)) ms = Ok dates.
Proof.
  intros Hc. unfold RegexParser_parseAll. split.
  - intros H.
    destruct (parseAll_turns_occurrences p _ Hc _ _ _ _ (Nat.lt_succ_diag_r _) H)
      as (ms & ds & Hocc & Hds & ->).
    now exists ms.
  - intros (ms & Hocc & Hds).
    now rewrite (occurrences_parseAll_turns p _ _ ms Hocc dates _ [] Hds) by lia.
Qed.

(** C5, amended.  [CompositeDateParser.parseAll] over parsers whose
    patterns match no empty text returns, for every candidate in the order
    of the list, the value of every occurrence of that candidate's pattern
    in the lower-cased document, in the order of the text: the leftmost
    match, then the leftmost match in what that one left, and so on to the
    end, so that no two occurrences of one candidate overlap.  The lists of
    the candidates are concatenated in candidate order and nothing is
    removed: a span that two candidates match gives its value twice. *)
Theorem parseAll_returns_every_occurrence
    (env : Env) (ps : list RegexParser) (v : string) (all : list Date) :
  Forall (fun p => consuming (rp_regex p) = true) ps ->
  Composite_parseAll (map (RegexParser_asDateParser env) ps) v = Ok all <->
  exists found,
    all = concat found
    /\ Forall2 (fun p dates =>
                  exists ms,
                    occurrences (rp_regex p) (toLocaleLowerCase env (rp_locale p) v)
                                (toLocaleLowerCase env (rp_locale p) v) ms
                    /\ mapM (assemble (rp_groups p)) ms = Ok dates)
               ps found.
Proof.
  intros Hc. unfold Composite_parseAll, flatten. split.
  - intros H.
    destruct (mapM _ (map (RegexParser_asDateParser env) ps)) as [found|e] eqn:Hfound;
      cbn [bind] in H; [|discriminate].
    injection H as <-. exists found. split; [reflexivity |].
    apply mapM_Ok in Hfound. apply Forall2_fmap_l in Hfound.
    revert Hc. induction Hfound as [|p dates ps found Hp _ IH]; intros Hc; [constructor |].
    apply Forall_cons in Hc as [Hhere Hc]. constructor; [|now apply IH].
    now apply (RegexParser_parseAll_occurrences env p v dates Hhere).
  - intros (found & -> & Hall).
    assert (Hfound : mapM (fun p => parseAll_ p v) (map (RegexParser_asDateParser env) ps)
                     = Ok found).
    { apply mapM_Forall2. apply Forall2_fmap_l.
      revert Hc. induction Hall as [|p dates ps found Hp _ IH]; intros Hc; [constructor |].
      apply Forall_cons in Hc as [Hhere Hc]. constructor; [|now apply IH].
      now apply (RegexParser_parseAll_occurrences env p v dates Hhere). }
    now rewrite Hfound.
Qed.

Lemma parseAll_returns_every_occurrence_witness :
  exists found,
    [MkDate 2019 1 25; MkDate 2019 2 3; MkDate 2019 1 25; MkDate 2019 2 3] = concat found
    /\ Forall2 (fun p dates =>
                  exists ms,
                    occurrences (rp_regex p)
                      (toLocaleLowerCase (EnGB.env true) (rp_locale p)
                         "25 Jan 2019 to 3 Feb 2019")
                      (toLocaleLowerCase (EnGB.env true) (rp_locale p)
                         "25 Jan 2019 to 3 Feb 2019") ms
                    /\ mapM (assemble (rp_groups p)) ms = Ok dates)
               [EnGB.short_parser; EnGB.short_parser] found.
Proof.
  apply (proj1 (parseAll_returns_every_occurrence (EnGB.env true)
                  [EnGB.short_parser; EnGB.short_parser] "25 Jan 2019 to 3 Feb 2019"
                  [MkDate 2019 1 25; MkDate 2019 2 3; MkDate 2019 1 25; MkDate 2019 2 3]
                  ltac:(repeat constructor))).
  vm_compute. reflexivity.
Defined.

(** *** Composites of composites *)

Lemma Composite_parse_app (l1 l2 : list DateParser) (v : string) :
  Composite_parse (l1 ++ l2) v
  = match Composite_parse l1 v with
    | Ok d => Ok d
    | Throw _ => Composite_parse l2 v
    end.
Proof.
  induction l1 as [|q l1 IH]; [reflexivity |].
  simpl. destruct (parse_ q v); [reflexivity | exact IH].
Qed.

(** X12.  A composite of composites is the composite of all their parsers
    in order: [parse] gives the same date or the same error, and
    [parseAll] the same dates or the same error. *)
Theorem parsers_of_parsers (ls : list (list DateParser)) (v : string) :
  parse_ (parsers (map parsers ls)) v = parse_ (parsers (concat ls)) v
  /\ parseAll_ (parsers (map parsers ls)) v = parseAll_ (parsers (concat ls)) v.
Proof.
  simpl. split.
  - induction ls as [|l ls IH]; [reflexivity |].
    simpl. rewrite Composite_parse_app, IH.
    now destruct (Composite_parse l v).
  - unfold Composite_parseAll, flatten.
    induction ls as [|l ls IH]; [reflexivity |].
    simpl. rewrite mapM_app. unfold Composite_parseAll, flatten.
    destruct (mapM (fun p => parseAll_ p v) l) as [a|e]; simpl; [|reflexivity].
    destruct (mapM (fun p => parseAll_ p v) (map parsers ls)) as [rs|e1];
      destruct (mapM (fun p => parseAll_ p v) (concat ls)) as [b|e2];
      simpl in *; try discriminate.
    + injection IH as IH. now rewrite concat_app, IH.
    + exact IH.
Qed.

End ParserMore.

(* ===================================================================== *)
(** ** Money: the parts of a text *)
(* ===================================================================== *)

Section MoneyMore.
Import RegExp JS Money Spec Laws StrFacts.

Lemma characters_app (t u : string) :
  Str.characters (t +:+ u) = Str.characters t ++ Str.characters u.
Proof. induction t as [|c t IH]; [reflexivity |]. rewrite sapp_cons. simpl. now rewrite IH. Qed.

Lemma derives_star_digits (greedy : bool) (t : string) :
  derives (Star greedy Digit) t -> all_digits t = true.
Proof.
  remember (Star greedy Digit) as r eqn:Er. intros H.
  induction H; try discriminate.
  - reflexivity.
  - injection Er as -> ->. specialize (IHderives2 eq_refl).
    unfold Digit in H. inversion H as [| |? ? ? Hx| | | | | | | | | |]; subst.
    unfold all_digits in *. rewrite characters_app, forallb_app.
    rewrite IHderives2, andb_true_r. cbn in Hx |- *.
    rewrite orb_false_r in Hx. now rewrite Hx.
Qed.

Lemma derives_digits (greedy : bool) (t : string) :
  derives (Plus greedy Digit) t -> all_digits t = true /\ Str.is_empty t = false.
Proof.
  intros H. split; [|apply (derives_consuming _ _ H); reflexivity].
  unfold Plus in H. inversion H as [| | | |? ? ? ? Ha Hb| | | | | | | |]; subst.
  apply derives_star_digits in Hb.
  unfold Digit in Ha. inversion Ha as [| |? ? ? Hx| | | | | | | | | |]; subst.
  unfold all_digits in *. rewrite characters_app, forallb_app, Hb.
  cbn in Hx |- *. rewrite orb_false_r in Hx. now rewrite Hx.
Qed.

(** [(?<integer>\d+)] matches wherever a digit stands. *)
Lemma digits_match_at_digit (whole : string) (c : ascii) (s : string) :
  is_digit c = true -> match_at digits whole (String c s) <> None.
Proof.
  intros Hc. unfold match_at, digits, Plus, Digit.
  rewrite matcher_Group_eq, matcher_Seq_eq.
  cbn [matcher in_class existsb item_has xorb]. rewrite Hc. cbn [orb].
  apply turns_total. discriminate.
Qed.

Lemma no_digit_app (t u : string) : no_digit (t +:+ u) = no_digit t && no_digit u.
Proof. unfold no_digit. now rewrite characters_app, forallb_app. Qed.

Lemma search_digits_none (whole : string) :
  forall s skipped, search_in digits whole skipped s = None -> no_digit s = true.
Proof.
  induction s as [|c s IH]; intros skipped H; [reflexivity |].
  cbn [search_in] in H.
  destruct (match_at digits whole (String c s)) as [[cs s']|] eqn:E; [discriminate |].
  unfold no_digit. simpl. fold (no_digit s). rewrite (IH _ H), andb_true_r.
  destruct (is_digit c) eqn:Hc; [|reflexivity].
  now apply (digits_match_at_digit whole c s) in Hc.
Qed.

Lemma search_digits_before (whole : string) :
  forall s skipped f,
    search_in digits whole skipped s = Some f ->
    exists pre, before f = skipped +:+ pre /\ no_digit pre = true.
Proof.
  induction s as [|c s IH]; intros skipped f H; cbn [search_in] in H.
  - destruct (match_at digits whole "") as [[cs s']|]; [|discriminate].
    injection H as <-. exists "". now rewrite sapp_nil_r.
  - destruct (match_at digits whole (String c s)) as [[cs s']|] eqn:E.
    + injection H as <-. exists "". now rewrite sapp_nil_r.
    + destruct (IH _ _ H) as (pre & Hb & Hpre).
      exists (String c pre). rewrite Hb, sapp_assoc. split; [reflexivity |].
      unfold no_digit. simpl. fold (no_digit pre). rewrite Hpre, andb_true_r.
      destruct (is_digit c) eqn:Hc; [|reflexivity].
      now apply (digits_match_at_digit whole c s) in Hc.
Qed.

(** The steps of [iterate] over [(?<integer>\d+)]: runs of digits, each
    captured whole, and between them stretches without a digit. *)
Lemma iterate_digits (whole : string) (fuel : nat) :
  forall s,
    String.length s < fuel ->
    Forall (fun step =>
              match step with
              | NamedRegExp.Matched t m =>
                  m = [MkMatch "integer" t] /\ all_digits t = true
                  /\ Str.is_empty t = false
              | NamedRegExp.NotMatched t => no_digit t = true /\ Str.is_empty t = false
              end) (NamedRegExp.iterate_from fuel digits whole s).
Proof.
  assert (Hnot : forall t, no_digit t = true ->
            Forall (fun step =>
              match step with
              | NamedRegExp.Matched t m =>
                  m = [MkMatch "integer" t] /\ all_digits t = true
                  /\ Str.is_empty t = false
              | NamedRegExp.NotMatched t => no_digit t = true /\ Str.is_empty t = false
              end) (NamedRegExp.not_matched t)).
  { intros t Ht. unfold NamedRegExp.not_matched. destruct (Str.is_empty t) eqn:E; auto. }
  induction fuel as [|fuel IH]; intros s Hlen; [lia |].
  cbn [NamedRegExp.iterate_from].
  destruct (search_in digits whole "" s) as [f|] eqn:E.
  2:{ apply Hnot. now apply (search_digits_none whole s ""). }
  destruct (search_digits_before _ _ _ _ E) as (pre & Hb & Hpre).
  rewrite sapp_nil_l in Hb.
  destruct (search_in_found _ _ _ _ _ E) as (s1 & _ & Hm & Hc & Hs).
  unfold match_at, digits in Hm.
  destruct (matcher_group "integer" (Plus true Digit) _ _ _ _ _ _ eq_refl Hm)
    as (t & s' & Es & D & Hk).
  injection Hk as Hg Hs'. subst s'.
  assert (matched f = t) as Ht by (rewrite Hc, Es; apply consumed_app).
  destruct (derives_digits _ _ D) as [Hall Hne].
  apply Forall_app. split; [apply Hnot; now rewrite Hb |].
  constructor.
  - rewrite Ht, <- Hg. auto.
  - rewrite Ht, Hne. apply IH.
    assert (Hlt : String.length (after f) < String.length s).
    { apply (found_shortens _ _ _ _ E). now rewrite Ht. }
    lia.
Qed.

Lemma mapM_total {A B} (f : A -> Result B) (P : A -> Prop) (Q : B -> Prop) (l : list A) :
  Forall P l ->
  (forall a, P a -> exists b, f a = Ok b /\ Q b) ->
  exists bs, mapM f l = Ok bs /\ Forall Q bs.
Proof.
  intros Hl Hf. induction Hl as [|a l Ha _ (bs & Hbs & HQ)]; [now exists [] |].
  destruct (Hf a Ha) as (b & Hb & Qb).
  exists (b :: bs). simpl. rewrite Hb, Hbs. auto.
Qed.

Lemma digits_parse_total (v : string) :
  exists parts,
    IntegerGroupParser_parse digits v = Ok parts
    /\ joined parts = v
    /\ Forall (fun p => digits_part p = true) parts.
Proof.
  pose proof (iterate_digits v (S (String.length v)) v (Nat.lt_succ_diag_r _)) as Hsteps.
  destruct (mapM_total integer_or_group _ (fun p => digits_part p = true) _ Hsteps)
    as (parts & Hparts & Hall).
  2:{ exists parts. split; [exact Hparts |]. split; [|exact Hall].
      now apply (IntegerGroupParser_spells "integer" (Plus true Digit)). }
  intros [t | t m]; cbn beta iota.
  - intros [Hno Hne]. exists (MkPart "group" t). split; [reflexivity |].
    unfold digits_part. simpl. now rewrite Hne, Hno.
  - intros (-> & Hall & Hne). exists (MkPart "integer" t). split; [reflexivity |].
    unfold digits_part. simpl. now rewrite Hne, Hall.
Qed.

(** A greedy [\d*] before a pattern that always goes on leaves no digit
    behind. *)
Lemma turns_digits_greedy (whole : string) (R : Type)
    (k : string -> Captures -> option R) (x : R) :
  (forall s cs, k s cs <> None) ->
  forall fuel s cs,
    String.length s <= fuel ->
    turns (matcher Digit whole R) true k fuel s cs = Some x ->
    exists s' cs', k s' cs' = Some x /\ digit_led s' = false.
Proof.
  intros Hk. induction fuel as [|fuel IH]; intros s cs Hlen H.
  - destruct s; [|simpl in Hlen; lia]. simpl in H. now exists "", cs.
  - cbn [turns] in H. destruct s as [|c s].
    + rewrite matcher_Digit_empty in H. now exists "", cs.
    + rewrite matcher_Digit in H. destruct (is_digit c) eqn:Hc.
      * destruct (decide (String.length s < String.length (String c s))) as [_|Hn];
          [|simpl in Hn; lia].
        destruct (turns (matcher Digit whole R) true k fuel s cs) as [y|] eqn:E.
        -- injection H as ->. apply (IH s cs); [simpl in Hlen; lia | exact E].
        -- now apply (turns_total _ true k fuel s cs) in E.
      * exists (String c s), cs. split; [exact H |]. simpl. exact Hc.
Qed.

(** A match of [(?<integer>\d+)] takes every digit that stands there. *)
Lemma digits_match_is_whole (whole s rest : string) (m : Captures) :
  match_at digits whole s = Some (m, rest) ->
  digit_led s = true /\ digit_led rest = false.
Proof.
  unfold match_at, digits, Plus. rewrite matcher_Group_eq, matcher_Seq_eq.
  destruct s as [|c s]; [rewrite matcher_Digit_empty; discriminate |].
  rewrite matcher_Digit. destruct (is_digit c) eqn:Hc; [|discriminate].
  cbn [matcher]. intros H. split; [exact Hc |].
  apply turns_digits_greedy in H as (s' & cs' & Hk & Hled); [| discriminate | lia].
  now injection Hk as _ <-.
Qed.

(** The steps of [iterate] over [(?<integer>\d+)] take turns: after a run
    of digits comes a stretch without one, and the other way round. *)
Lemma iterate_digits_alternate (whole : string) (fuel : nat) :
  forall s parts,
    String.length s < fuel ->
    mapM integer_or_group (NamedRegExp.iterate_from fuel digits whole s) = Ok parts ->
    types_alternate parts = true
    /\ (digit_led s = false ->
        match parts with
        | p :: _ => type p = "group"
        | [] => True
        end).
Proof.
  assert (Hnot : forall t parts,
            mapM integer_or_group (NamedRegExp.not_matched t) = Ok parts ->
            parts = [] \/ parts = [MkPart "group" t]).
  { intros t parts. unfold NamedRegExp.not_matched.
    destruct (Str.is_empty t); simpl; intros [= <-]; auto. }
  induction fuel as [|fuel IH]; intros s parts Hlen H; [lia |].
  cbn [NamedRegExp.iterate_from] in H.
  destruct (search_in digits whole "" s) as [f|] eqn:E.
  2:{ destruct (Hnot _ _ H) as [-> | ->]; split; auto. }
  rewrite mapM_app in H.
  destruct (mapM integer_or_group (NamedRegExp.not_matched (before f))) as [pre|e] eqn:Hpre;
    cbn [bind] in H; [|discriminate].
  cbn [mapM] in H.
  destruct (integer_or_group (NamedRegExp.Matched (matched f) (groups f)))
    as [here|e] eqn:Hhere; cbn [bind] in H; [|discriminate].
  destruct (search_in_found _ _ _ _ _ E) as (s1 & E1 & Hm & Hc & Hs).
  rewrite sapp_nil_l in E1.
  destruct (digits_match_is_whole _ _ _ _ Hm) as [Hled Hrest].
  assert (Hne : Str.is_empty (matched f) = false).
  { destruct (matched f) eqn:Em; [|reflexivity].
    rewrite Hs, sapp_nil_l in Hled. congruence. }
  rewrite Hne in H.
  destruct (mapM integer_or_group (NamedRegExp.iterate_from fuel digits whole (after f)))
    as [more|e] eqn:Hmore; cbn [bind] in H; [|discriminate].
  injection H as <-.
  assert (Hlt : String.length (after f) < fuel).
  { pose proof (found_shortens _ _ _ _ E Hne). lia. }
  destruct (IH _ _ Hlt Hmore) as [Halt Hhead]. specialize (Hhead Hrest).
  assert (Hty : type here = "integer").
  { simpl in Hhere. destruct (groups f); [discriminate |]. now injection Hhere as <-. }
  assert (Htail : types_alternate (here :: more) = true).
  { cbn [types_alternate]. destruct more as [|q more]; [reflexivity |].
    rewrite Hty, Hhead. now rewrite Halt. }
  destruct (Hnot _ _ Hpre) as [-> | ->]; cbn [app].
  - split; [exact Htail |]. intros Hs0.
    unfold NamedRegExp.not_matched in Hpre.
    destruct (before f) eqn:Eb; [|discriminate].
    rewrite sapp_nil_l in E1. subst s1. congruence.
  - split; [|reflexivity].
    change (negb (String.eqb "group" (type here)) && types_alternate (here :: more)
            = true).
    now rewrite Hty, Htail.
Qed.

(** X13.  [IntegerGroupParser.digits] never throws, and cuts a text into
    its runs of digits, each an integer part, and the stretches between
    them, each a group part: the parts spell the text, none is empty, an
    integer has digits only and a group has none, and integers and groups
    take turns, so that every integer is a whole run of digits. *)
Theorem IntegerGroupParser_digits_splits (v : string) :
  exists parts,
    IntegerGroupParser_parse digits v = Ok parts
    /\ joined parts = v
    /\ Forall (fun p => digits_part p = true) parts
    /\ types_alternate parts = true.
Proof.
  destruct (digits_parse_total v) as (parts & H1 & H2 & H3).
  exists parts. repeat split; try assumption.
  now apply (iterate_digits_alternate v (S (String.length v)) v parts
               (Nat.lt_succ_diag_r _)).
Qed.

(** *** convert *)

Lemma mapM_total_rel {A B} (f : A -> Result B) (P : A -> Prop) (Q : A -> B -> Prop)
    (l : list A) :
  Forall P l ->
  (forall a, P a -> exists b, f a = Ok b /\ Q a b) ->
  exists bs, mapM f l = Ok bs /\ Forall2 Q l bs.
Proof.
  intros Hl Hf. induction Hl as [|a l Ha _ (bs & Hbs & HQ)]; [now exists [] |].
  destruct (Hf a Ha) as (b & Hb & Qb).
  exists (b :: bs). simpl. rewrite Hb, Hbs. auto.
Qed.

Lemma Forall_filter_here {A} (P : A -> bool) (l : list A) :
  Forall (fun a => P a = true) (filter (fun a => P a = true) l).
Proof.
  induction l as [|a l IH]; [constructor |].
  rewrite filter_cons. destruct (decide (P a = true)); [now constructor | exact IH].
Qed.

Lemma digits_part_value (p : Part) : digits_part p = true -> Str.is_empty (value p) = false.
Proof.
  unfold digits_part. intros H. apply andb_true_iff in H as [H _].
  now apply negb_true_iff in H.
Qed.

(** X14.  [NumberFormatPartParser.convert] never throws; its parts spell
    the captures it was given, and none of them has an empty value. *)
Theorem convert_gives_no_empty_part (matches : Captures) :
  exists parts,
    convert matches = Ok parts
    /\ joined parts = Str.join (map mvalue matches)
    /\ Forall (fun p => Str.is_empty (value p) = false) parts.
Proof.
  unfold convert.
  destruct (mapM_total convert_match _
              (Forall (fun p => Str.is_empty (value p) = false)) _
              (Forall_filter_here (fun m => Boolean_string (mvalue m)) matches))
    as (ls & Hls & Hall).
  - intros m Hm. unfold convert_match.
    destruct (String.eqb (name m) "integer-group").
    + destruct (digits_parse_total (mvalue m)) as (parts & Hparts & _ & Hdigits).
      exists parts. split; [exact Hparts |].
      eapply List.Forall_impl; [|exact Hdigits]. intros p. apply digits_part_value.
    + exists [part_of m]. split; [reflexivity |]. constructor; [|constructor].
      simpl. unfold Boolean_string in Hm. now apply negb_true_iff in Hm.
  - exists (concat ls). split; [now rewrite Hls |]. split.
    + apply convert_spells. unfold convert. now rewrite Hls.
    + now apply Forall_concat.
Qed.

(** *** PartsFromFormat *)

Lemma sapp_inv_tail (a b c : string) : a +:+ c = b +:+ c -> a = b.
Proof.
  intros H. rewrite <- (consumed_app a c), <- (consumed_app b c). now rewrite H.
Qed.

(** [IntegerGroupParser.parse] over one group around a pattern without
    groups never throws, and its parts spell the text. *)
Lemma group_parse_total (n : string) (a : re) (v : string) :
  plain a = true ->
  exists parts, IntegerGroupParser_parse (Group n a) v = Ok parts /\ joined parts = v.
Proof.
  intros Hp.
  pose proof (proj2 (iterate_from_spec (Group n a) v (S (String.length v)) v)) as Hsteps.
  destruct (mapM_total integer_or_group _ (fun _ => True) _ Hsteps) as (parts & Hparts & _).
  - intros [t | t m]; cbn beta iota.
    + intros _. now exists (MkPart "group" t).
    + intros (s1 & rest & Hm & _). rewrite (match_at_group _ _ _ _ _ _ Hp Hm).
      now eexists.
  - exists parts. split; [exact Hparts |].
    now apply (IntegerGroupParser_spells n a).
Qed.

(** What a match of the template pattern captures: the integer group, the
    decimal separator and the fraction, or the currency; each with some
    text, and together the text of the match. *)
Lemma format_regex_match (whole s rest : string) (m : Captures) :
  match_at format_regex whole s = Some (m, rest) ->
  (exists t1 t2 t3,
     m = [MkMatch "integer-group" t1; MkMatch "decimal" t2; MkMatch "fraction" t3]
     /\ s = (t1 +:+ t2 +:+ t3) +:+ rest
     /\ Str.is_empty t1 = false /\ Str.is_empty t2 = false /\ Str.is_empty t3 = false)
  \/ (exists t, m = [MkMatch "currency" t] /\ s = t +:+ rest /\ Str.is_empty t = false).
Proof.
  unfold match_at, format_regex. rewrite matcher_Alt_eq.
  destruct (matcher (Seq _ _) whole _ s [] _) as [y|] eqn:E.
  - intros [= ->]. left.
    rewrite matcher_Seq_eq in E.
    apply matcher_group in E as (t1 & s1 & -> & D1 & E); [|reflexivity].
    rewrite matcher_Seq_eq in E.
    apply matcher_group in E as (t2 & s2 & -> & D2 & E); [|reflexivity].
    apply matcher_group in E as (t3 & s3 & -> & D3 & E); [|reflexivity].
    injection E as <- <-.
    exists t1, t2, t3. rewrite !sapp_assoc.
    repeat split; eapply derives_consuming; eauto.
  - intros H. right.
    apply matcher_group in H as (t & s1 & -> & D & H); [|reflexivity].
    injection H as <- <-. exists t.
    repeat split; eapply derives_consuming; eauto.
Qed.

Lemma filter_all {A} (P : A -> bool) (l : list A) :
  Forall (fun a => P a = true) l -> filter (fun a => P a = true) l = l.
Proof.
  induction 1 as [|a l Ha _ IH]; [reflexivity |].
  rewrite filter_cons, IH. now destruct (decide (P a = true)).
Qed.

Lemma Boolean_string_not_empty (t : string) :
  Str.is_empty t = false -> Boolean_string t = true.
Proof. unfold Boolean_string. now intros ->. Qed.

(** X15.  [PartsFromFormat.format], the reader of money templates, never
    throws, and the parts it gives spell the template. *)
Theorem PartsFromFormat_format_spells (template : string) :
  exists parts, PartsFromFormat_format template = Ok parts /\ joined parts = template.
Proof.
  unfold PartsFromFormat_format, PartsFromFormat_parse.
  pose proof (iterate_from_steps format_regex template (S (String.length template))
                template) as Hsteps.
  fold (NamedRegExp.iterate format_regex template) in Hsteps.
  destruct (mapM_total_rel (parts_of_match integerFormat) _
              (fun step parts => joined parts = text_of step) _ Hsteps)
    as (ls & Hls & Hall).
  - intros [t | t m]; cbn beta iota.
    + intros _. exists [MkPart "literal" t]. split; [reflexivity |].
      unfold joined, values. simpl. now rewrite join_cons, sapp_nil_r.
    + intros (_ & rest & Hm).
      apply format_regex_match in Hm
        as [(t1 & t2 & t3 & -> & Es & H1 & H2 & H3) | (t1 & -> & Es & H1)];
        apply sapp_inv_tail in Es; subst t; cbn [parts_of_match].
      * rewrite filter_all
          by (repeat constructor; now apply Boolean_string_not_empty).
        cbn [name String.eqb Ascii.eqb Bool.eqb mvalue].
        destruct (group_parse_total "integer" (Plus true (Text "i")) t1 eq_refl)
          as (igs & Higs & Hj).
        unfold integerFormat. rewrite Higs. cbn [bind].
        eexists. split; [reflexivity |].
        rewrite joined_app, Hj. unfold joined, values. simpl.
        now rewrite !join_cons, sapp_nil_r.
      * rewrite filter_all
          by (repeat constructor; now apply Boolean_string_not_empty).
        cbn [name String.eqb Ascii.eqb Bool.eqb].
        eexists. split; [reflexivity |].
        unfold joined, values. simpl. now rewrite join_cons, sapp_nil_r.
  - exists (concat ls). rewrite Hls. split; [reflexivity |].
    rewrite joined_concat, <- (iterate_spells format_regex template).
    clear Hls Hsteps. induction Hall as [|step ps steps pss Hps _ IH]; [reflexivity |].
    simpl. now rewrite !join_cons, Hps, IH.
Qed.

End MoneyMore.

(* ===================================================================== *)
(** ** Money: from parts to money *)
(* ===================================================================== *)

Section MoneyFromMore.
Import JS MoneyParse Spec Laws StrFacts.
Context {Amount Strategy : Type}.
Variable host : @Symbols Amount Strategy.

Lemma filter_filter_sub {A} (P Q : A -> bool) (l : list A) :
  (forall a, P a = true -> Q a = true) ->
  filter (fun a => P a = true) (filter (fun a => Q a = true) l)
  = filter (fun a => P a = true) l.
Proof.
  intros Hsub. induction l as [|a l IH]; [reflexivity |].
  rewrite (filter_cons _ a l).
  destruct (decide (Q a = true)) as [Hq|Hq].
  - now rewrite !filter_cons, IH.
  - rewrite IH, filter_cons.
    destruct (decide (P a = true)) as [Hp|Hp]; [|reflexivity].
    now apply Hsub in Hp.
Qed.

(** A decimal part with a point for its value; any other part as it is. *)
Lemma pointed_parts (l : list Part) :
  filter (fun p => is_currency p = true)
         (map (fun p => if String.eqb (type p) "decimal" then MkPart "decimal" "." else p) l)
  = filter (fun p => is_currency p = true) l
  /\ map amount_text
       (filter (fun p => is_amount_part p = true)
          (map (fun p => if String.eqb (type p) "decimal" then MkPart "decimal" "." else p) l))
     = map amount_text (filter (fun p => is_amount_part p = true) l).
Proof.
  induction l as [|p l [IH1 IH2]]; [split; reflexivity |].
  cbn [map]. destruct (String.eqb (type p) "decimal") eqn:E.
  - apply String.eqb_eq in E.
    assert (Hc : is_currency p = false) by (unfold is_currency; now rewrite E).
    assert (Ha : is_amount_part p = true) by (unfold is_amount_part; now rewrite E).
    rewrite !filter_cons, IH1, Hc, Ha.
    destruct (decide (is_currency (MkPart "decimal" ".") = true)) as [Hd|_];
      [discriminate |].
    destruct (decide (false = true)) as [Hd|_]; [discriminate |].
    destruct (decide (is_amount_part (MkPart "decimal" ".") = true)) as [_|Hd];
      [|now contradiction Hd].
    destruct (decide (true = true)) as [_|Hd]; [|now contradiction Hd].
    split; [reflexivity |]. cbn [map]. rewrite IH2. f_equal.
    unfold amount_text. now rewrite E.
  - rewrite !filter_cons, IH1. split; [reflexivity |].
    destruct (decide (is_amount_part p = true)); [|exact IH2].
    cbn [map]. now rewrite IH2.
Qed.

(** X16.  [moneyFrom] reads the currency, integer, decimal and fraction
    parts only: parts of any other type (a group separator, a literal, a
    minus sign) change nothing, and neither does the text of the decimal
    separator. *)
Theorem moneyFrom_reads_four_types (parts : list Part) (locale : option string)
    (strategy : option Strategy) :
  moneyFrom host
    (filter (fun p => is_currency p || is_amount_part p = true) parts) locale strategy
  = moneyFrom host parts locale strategy
  /\ moneyFrom host
       (map (fun p => if String.eqb (type p) "decimal" then MkPart "decimal" "." else p)
            parts) locale strategy
     = moneyFrom host parts locale strategy.
Proof.
  unfold moneyFrom. split.
  - rewrite (filter_filter_sub is_currency (fun p => is_currency p || is_amount_part p))
      by (intros p ->; reflexivity).
    rewrite (filter_filter_sub is_amount_part (fun p => is_currency p || is_amount_part p))
      by (intros p ->; apply orb_true_r).
    reflexivity.
  - destruct (pointed_parts parts) as [-> ->]. reflexivity.
Qed.

(** X17.  Without a part of type currency [moneyFrom] throws
    "No currency found", whatever the other parts are and before the
    currency lookup is asked anything. *)
Theorem moneyFrom_needs_a_currency (parts : list Part) (locale : option string)
    (strategy : option Strategy) :
  Forall (fun p => type p <> "currency") parts ->
  moneyFrom host parts locale strategy = Throw no_currency.
Proof.
  intros H. unfold moneyFrom.
  replace (filter (fun p => is_currency p = true) parts) with (@nil Part); [reflexivity |].
  induction H as [|p l Hp _ IH]; [reflexivity |].
  rewrite filter_cons, <- IH.
  destruct (decide (is_currency p = true)) as [Hc|_]; [|reflexivity].
  unfold is_currency in Hc. now apply String.eqb_eq in Hc.
Qed.

End MoneyFromMore.

Section MoneyParseMore.
Import RegExp JS Money MoneyParse Spec Laws StrFacts.
Context {Amount Strategy : Type}.
Variable host : @Symbols Amount Strategy.
Variable env : @Money.Env Amount.

(** X22.  [parse(value, locale, options)] of money does not read
    [options.format]: it takes the parts from [parseToParts(value, locale)],
    and so gives what the parser made by [parser(locale, options)] gives
    when the options have no template. *)
Theorem money_parse_ignores_format
    (v : string) (locale : option string) (options : option ParseOptions) :
  parse host env v locale options
  = parser_parse host env locale (without_format options) v.
Proof.
  unfold parse, parser_parse, parseToParts, parseToParts_with.
  destruct options as [[strategy template]|]; reflexivity.
Qed.

(** What follows a match of the money pattern: white space, or nothing. *)
Lemma lookahead_space_or_end (whole s : string) (cs : Captures) (R : Type)
    (k : string -> Captures -> option R) (x : R) :
  matcher (LookAhead (Alt (Class false [ISpace]) AtEnd)) whole R s cs k = Some x ->
  k s cs = Some x
  /\ match s with
     | EmptyString => True
     | String c _ => is_white_space c = true
     end.
Proof.
  cbn [matcher]. destruct s as [|c s]; cbn [in_class existsb item_has xorb orb].
  - auto.
  - rewrite orb_false_r. destruct (is_white_space c); [auto | discriminate].
Qed.

(** X23.  The money pattern of [RegexBuilder.buildFrom] ends in a
    lookahead: wherever it matches, the text after the match is empty or
    starts with a character that [\s] takes, which the no-break space is
    too. *)
Theorem money_match_ends_at_space
    (parts : list Part) (locale : option string) (text : string) (f : Found) :
  search_in (buildFrom env parts locale) text "" text = Some f ->
  match after f with
  | EmptyString => True
  | String c _ => JS.is_white_space c = true
  end.
Proof.
  intros H. destruct (search_in_found _ _ _ _ _ H) as (s1 & _ & Hm & _ & _).
  unfold match_at, buildFrom in Hm. rewrite matcher_Seq_eq in Hm.
  destruct (matcher_derives _ _ _ _ _ _ _ Hm) as (t & s' & caps & _ & _ & Hk & _).
  apply lookahead_space_or_end in Hk as [Hk Hs].
  injection Hk as _ <-. exact Hs.
Qed.

End MoneyParseMore.

Section MoneyParseExample.
Import RegExp Money.

Lemma money_match_ends_at_space_witness :
  match
    after (MkFound "" [MkMatch "currency" "GBP"; MkMatch "literal" " ";
                       MkMatch "integer-group" "12"; MkMatch "decimal" "";
                       MkMatch "fraction" ""] "GBP 12" " and more")
  with
  | EmptyString => True
  | String c _ => JS.is_white_space c = true
  end.
Proof.
  apply (money_match_ends_at_space MoneyExample.env
           [MkPart "currency" "GBP"; MkPart "literal" " "; MkPart "integer" "111";
            MkPart "group" ","; MkPart "integer" "222"; MkPart "decimal" ".";
            MkPart "fraction" "33"] None "GBP 12 and more").
  vm_compute. reflexivity.
Defined.

End MoneyParseExample.

Section MoneyFromExample.
Import MoneyParse.

Lemma moneyFrom_needs_a_currency_witness :
  moneyFrom (MkSymbols (fun text => text) (fun locale text strategy => Ok text))
    [MkPart "integer" "1"; MkPart "group" ","; MkPart "integer" "234"] None (@None unit)
  = Throw no_currency.
Proof.
  apply moneyFrom_needs_a_currency.
  repeat constructor; discriminate.
Defined.

End MoneyFromExample.

(* ===================================================================== *)
(** ** The generator of the currency table *)
(* ===================================================================== *)

Section GenerateMore.
Import Generate Laws.
Context {V : Type}.
Variable Number_of : string -> V.
Variable zero : V.

Lemma read_key_assign (k key : string) (v : V) (o : list (string * V)) :
  read_key k (assign key v o) = if String.eqb key k then Some v else read_key k o.
Proof.
  unfold read_key. induction o as [|[k' x] o IH]; simpl.
  - now destruct (String.eqb key k).
  - destruct (String.eqb k' key) eqn:E; simpl.
    + apply String.eqb_eq in E. subst k'. now destruct (String.eqb key k).
    + destruct (String.eqb k' k) eqn:E'; simpl.
      * apply String.eqb_eq in E'. subst k'. now rewrite String.eqb_sym, E.
      * exact IH.
Qed.

Lemma keys_assign (key : string) (v : V) (o : list (string * V)) :
  map fst (assign key v o)
  = if decide (key ∈ map fst o) then map fst o else map fst o ++ [key].
Proof.
  induction o as [|[k x] o IH]; simpl.
  - destruct (decide (key ∈ [])) as [Hin|_]; [|reflexivity].
    now apply elem_of_nil in Hin.
  - destruct (String.eqb k key) eqn:E; simpl.
    + apply String.eqb_eq in E. subst k.
      destruct (decide (key ∈ key :: map fst o)) as [_|Hn]; [reflexivity |].
      contradiction Hn. apply list_elem_of_here.
    + apply String.eqb_neq in E. rewrite IH.
      destruct (decide (key ∈ map fst o)) as [Hin|Hout];
        destruct (decide (key ∈ k :: map fst o)) as [Hin'|Hout']; try reflexivity.
      * contradiction Hout'. now apply list_elem_of_further.
      * apply elem_of_cons in Hin' as [->|Hin']; [now contradiction E | now contradiction Hout].
Qed.

Lemma fold_add_country (code : string) (countries : list Country) :
  forall a,
    read_key code (foldl (add_country Number_of zero) a countries)
    = match last_decimals (decimals_of Number_of zero) code countries with
      | Some v => Some v
      | None => read_key code a
      end
    /\ (NoDup (map fst a) ->
        NoDup (map fst (foldl (add_country Number_of zero) a countries))).
Proof.
  unfold last_decimals.
  induction countries as [|c countries IH]; intros a; [split; auto |].
  cbn [foldl]. destruct (IH (add_country Number_of zero a c)) as [IH1 IH2].
  split.
  - rewrite IH1, filter_cons. unfold add_country.
    destruct (Ccy c) as [currency|] eqn:Ec.
    2:{ destruct (decide (None = Some code /\ CcyMnrUnts c <> None)) as [[Hn _]|_];
          [discriminate | reflexivity]. }
    destruct (CcyMnrUnts c) as [text|] eqn:Et.
    2:{ destruct (decide (Some currency = Some code /\ None <> None)) as [[_ Hn]|_];
          [now contradiction Hn | reflexivity]. }
    rewrite read_key_assign.
    destruct (decide (Some currency = Some code /\ Some text <> None)) as [[Hc _]|Hn].
    + injection Hc as ->. rewrite String.eqb_refl, last_cons.
      destruct (last _); [reflexivity |]. simpl. now rewrite Et.
    + destruct (String.eqb currency code) eqn:E; [|reflexivity].
      apply String.eqb_eq in E. subst currency. contradiction Hn. split; [reflexivity | discriminate].
  - intros Hnd. apply IH2. unfold add_country.
    destruct (Ccy c) as [currency|]; [|exact Hnd].
    destruct (CcyMnrUnts c) as [text|]; [|exact Hnd].
    rewrite keys_assign.
    destruct (decide (currency ∈ map fst a)) as [Hin|Hout]; [exact Hnd |].
    apply NoDup_app. split; [exact Hnd |]. split; [|apply NoDup_singleton].
    intros x Hx Hx'. apply list_elem_of_singleton in Hx'. now subst x.
Qed.

(** X18.  The table the generator makes has one entry for a code, with the
    decimals of the last element of the list that has that code and its
    minor units, "N.A." counting as 0; an element without a code or without
    minor units adds nothing. *)
Theorem data_last_wins (countries : list Country) (code : string) :
  read_key code (data Number_of zero countries)
  = last_decimals (decimals_of Number_of zero) code countries
  /\ NoDup (map fst (data Number_of zero countries)).
Proof.
  unfold data. destruct (fold_add_country code countries []) as [H1 H2].
  split; [|apply H2; constructor].
  rewrite H1. now destruct (last_decimals _ code countries).
Qed.

End GenerateMore.

(* ===================================================================== *)
(** ** The parser's pattern and its host *)
(* ===================================================================== *)

Section PatternMore.
Import RegExp JS Dates Spec Laws StrFacts.

Lemma unique_keeps (c : ascii) (l : list ascii) :
  forall seen,
    existsb (Ascii.eqb c) (unique seen l)
    = existsb (Ascii.eqb c) l && negb (existsb (Ascii.eqb c) seen).
Proof.
  induction l as [|x l IH]; intros seen; [reflexivity |].
  cbn [unique]. destruct (existsb (Ascii.eqb x) seen) eqn:Ex.
  - rewrite IH. cbn [existsb]. destruct (Ascii.eqb c x) eqn:E; [|reflexivity].
    apply Ascii.eqb_eq in E. subst x. rewrite Ex. cbn. now rewrite andb_false_r.
  - cbn [existsb]. rewrite IH. cbn [existsb].
    destruct (Ascii.eqb c x) eqn:E.
    + apply Ascii.eqb_eq in E. subst x. now rewrite Ex.
    + reflexivity.
Qed.

(** *** The class of a separator *)

Lemma class_syntax_tests (a : ascii) :
  class_syntax a = false ->
  Ascii.eqb a "^" = false /\ Ascii.eqb a "-" = false /\ Ascii.eqb a "]" = false
  /\ Ascii.eqb a backslash = false.
Proof.
  unfold class_syntax. cbn [existsb]. rewrite !orb_false_iff. tauto.
Qed.

(** The atoms of a text without class syntax are its characters. *)
Lemma atoms_plain (l : list ascii) :
  Forall (fun a => class_syntax a = false) l ->
  atoms (string_of l) = (map One l, Ends).
Proof.
  induction 1 as [|a l Ha _ IH]; [reflexivity |].
  destruct (class_syntax_tests a Ha) as (_ & Hdash & Hclose & Hback).
  cbn [string_of atoms]. rewrite Hclose, Hback, Hdash, IH. reflexivity.
Qed.

Lemma in_items_One (c : ascii) (l : list ascii) :
  existsb (item_has c) (map atom_item (map One l)) = existsb (Ascii.eqb c) l.
Proof.
  induction l as [|a l IH]; [reflexivity |].
  cbn [map existsb atom_item item_has]. now rewrite IH, Ascii.eqb_sym.
Qed.

(** The atoms of the characters of a separator, with the first space made
    [\s]: no dash among them, and they stand for the characters and, when a
    space was there, for white space. *)
Lemma atoms_replace_space (l : list ascii) :
  Forall (fun a => class_syntax a = false) l ->
  exists atoms_of,
    atoms (replace_space (string_of l)) = (atoms_of, Ends)
    /\ Forall (fun a => a <> Dash) atoms_of
    /\ forall c,
         existsb (item_has c) (map atom_item atoms_of)
         = (existsb (Ascii.eqb " ") l && is_white_space c) || existsb (Ascii.eqb c) l.
Proof.
  induction 1 as [|a l Ha Hl (rest & Hrest & Hnodash & Hitems)].
  - exists []. split; [reflexivity | split; [constructor | intros c; reflexivity]].
  - destruct (class_syntax_tests a Ha) as (_ & Hdash & Hclose & Hback).
    cbn [string_of replace_space]. destruct (Ascii.eqb a " ") eqn:Ea.
    + apply Ascii.eqb_eq in Ea. subst a.
      exists (Escaped ISpace :: map One l). split; [|split].
      * cbn [atoms]. change (Ascii.eqb backslash "]") with false.
        rewrite Ascii.eqb_refl. cbn [Ascii.eqb Bool.eqb andb].
        change (String "s" (string_of l)) with (String "s"%char (string_of l)).
        rewrite (atoms_plain l Hl). reflexivity.
      * constructor; [discriminate |]. apply Forall_fmap, Forall_forall. discriminate.
      * intros c. cbn [map existsb atom_item item_has]. rewrite in_items_One.
        cbn [Ascii.eqb Bool.eqb andb orb].
        destruct (is_white_space c) eqn:Hw; cbn [orb andb].
        -- reflexivity.
        -- destruct (Ascii.eqb c " ") eqn:Ec; [|reflexivity].
           apply Ascii.eqb_eq in Ec. subst c. discriminate.
    + exists (One a :: rest). split; [|split].
      * cbn [atoms]. rewrite Hclose, Hback, Hdash, Hrest. reflexivity.
      * constructor; [discriminate | exact Hnodash].
      * intros c. cbn [map existsb atom_item item_has]. rewrite Hitems.
        rewrite (Ascii.eqb_sym " " a), Ea, (Ascii.eqb_sym a c). cbn [orb].
        now destruct (Ascii.eqb c a), (existsb (Ascii.eqb " ") l && is_white_space c).
Qed.

(** Atoms without a dash make no range. *)
Lemma ranges_without_dash (l : list atom) :
  Forall (fun a => a <> Dash) l -> ranges l = Some (map atom_item l).
Proof.
  induction 1 as [|a l Ha Hl IH]; [reflexivity |].
  cbn [ranges]. destruct Hl as [|b l Hb Hl]; [reflexivity |].
  rewrite IH. destruct b; [reflexivity | now contradiction Hb | reflexivity].
Qed.

Lemma unique_plain (l : list ascii) :
  forall seen,
    Forall (fun a => class_syntax a = false) l ->
    Forall (fun a => class_syntax a = false) (unique seen l).
Proof.
  induction l as [|a l IH]; intros seen H; [constructor |].
  apply Forall_cons in H as [Ha H]. cbn [unique].
  destruct (existsb (Ascii.eqb a) seen); [now apply IH |].
  constructor; [exact Ha | now apply IH].
Qed.

(** X19.  In the parser's pattern the separator made of a literal without
    [^], [-], []] and backslash is one class, [[...]+?], that accepts a
    character exactly when it is white space or occurs in the literal. *)
Theorem separator_accepts (v : string) :
  plain_text v = true ->
  exists items,
    separator v = Plus false (Class false items)
    /\ forall c,
         in_class c items = is_white_space c || existsb (Ascii.eqb c) (Str.characters v).
Proof.
  intros Hv. unfold plain_text in Hv.
  assert (Hall : Forall (fun a => class_syntax a = false)
                        (unique [] (Str.characters (v +:+ " ")))).
  { apply unique_plain. rewrite characters_app. apply Forall_app. split.
    - apply Forall_forall. intros a Ha. rewrite forallb_forall in Hv.
      apply negb_true_iff. apply Hv. now apply list_elem_of_In.
    - repeat constructor. }
  destruct (atoms_replace_space _ Hall) as (atoms_of & Hatoms & Hnodash & Hitems).
  exists (map atom_item atoms_of). split.
  - unfold separator, bracketed, read_class, separator_chars.
    assert (Hfirst :
      match replace_space (string_of (unique [] (Str.characters (v +:+ " ")))) with
      | String c s' =>
          if Ascii.eqb c "^"
          then (true, s')
          else (false, replace_space (string_of (unique [] (Str.characters (v +:+ " ")))))
      | EmptyString =>
          (false, replace_space (string_of (unique [] (Str.characters (v +:+ " ")))))
      end = (false, replace_space (string_of (unique [] (Str.characters (v +:+ " ")))))).
    { destruct Hall as [|a l Ha _]; [reflexivity |].
      cbn [string_of replace_space]. destruct (Ascii.eqb a " "); [reflexivity |].
      now rewrite (proj1 (class_syntax_tests a Ha)). }
    rewrite Hfirst, Hatoms, (ranges_without_dash _ Hnodash). reflexivity.
  - intros c. unfold in_class. rewrite Hitems, !unique_keeps.
    cbn [existsb negb]. rewrite !andb_true_r, characters_app, !existsb_app.
    cbn [Str.characters existsb]. rewrite Ascii.eqb_refl, orb_true_r, orb_false_r.
    cbn [andb].
    destruct (Ascii.eqb c " ") eqn:E.
    + apply Ascii.eqb_eq in E. subst c. now rewrite orb_true_r.
    + now rewrite orb_false_r.
Qed.

Lemma separator_accepts_witness :
  exists items,
    separator " de " = Plus false (Class false items)
    /\ forall c,
         in_class c items
         = is_white_space c || existsb (Ascii.eqb c) (Str.characters " de ").
Proof. apply separator_accepts. reflexivity. Defined.

(** The characters that are syntax there are read as syntax: [+-/] is a
    range and takes the comma, a literal that begins with []] closes its
    class at once, and a range from a character to one before it is
    refused. *)
Example separator_with_a_range :
  separator "+-/" = Plus false (Class false [IRange "+" "/"; ISpace])
  /\ in_class "," [IRange "+" "/"; ISpace] = true.
Proof. split; reflexivity. Qed.

Example separator_closed_early :
  exec (separator "] ") " ]" = None /\ exec (separator "a]b") "ab ]]" = Some [].
Proof. split; vm_compute; reflexivity. Qed.

Example separator_refused :
  refused (separator "z-a") = Some range_out_of_order.
Proof. reflexivity. Qed.


(** X20.  [CompositeDateParser.parseAll] has no [try]: when the parsers
    before one return and that one throws, the composite throws its
    error, whatever the parsers after it would find. *)
Theorem Composite_parseAll_throws
    (front back : list DateParser) (q : DateParser) (v : string) (e : Error) :
  Forall (fun p => returned (parseAll_ p v) = true) front ->
  parseAll_ q v = Throw e ->
  Composite_parseAll (front ++ q :: back) v = Throw e.
Proof.
  intros Hfront Hq. unfold Composite_parseAll. rewrite mapM_app.
  assert (Hok : exists rs, mapM (fun p => parseAll_ p v) front = Ok rs).
  { induction Hfront as [|p l Hp _ (rs & IH)]; [now exists [] |].
    simpl. destruct (parseAll_ p v) as [r|]; [|discriminate].
    exists (r :: rs). now rewrite IH. }
  destruct Hok as (rs & ->). simpl. now rewrite Hq.
Qed.

Lemma Composite_parseAll_throws_witness :
  Composite_parseAll
    ([RegexParser_asDateParser (EnGB.env true) EnGB.short_parser]
     ++ MkDateParser (fun v => Throw (MkError "closed")) (fun v => Throw (MkError "closed"))
     :: [RegexParser_asDateParser (EnGB.env true) EnGB.short_parser])
    "25 Jan 2019"
  = Throw (MkError "closed").
Proof.
  apply Composite_parseAll_throws; [|reflexivity].
  constructor; [vm_compute; reflexivity | constructor].
Defined.

(** X21.  A parser for a template asks the host's date formatter for
    nothing: it is made from the template, the names of the months and
    weekdays and the lower-casing of the locale alone, so two hosts that
    agree on these parse alike, with or without a native [formatToParts]. *)
Theorem template_parser_asks_no_host
    (env env' : Env) (locale format : string) (native native' : bool) (v : string) :
  Months_get env locale = Months_get env' locale ->
  Weekdays_get env locale = Weekdays_get env' locale ->
  toLocaleLowerCase env locale = toLocaleLowerCase env' locale ->
  parse env v locale (Some (AsFormat format)) native
  = parse env' v locale (Some (AsFormat format)) native'.
Proof.
  intros Hm Hw Hl.
  unfold parse, parser, simpleParser, RegexBuilder_create, formatBuilder.
  destruct (partsFrom format) as [parts|e]; [|reflexivity].
  cbn [bind]. unfold RegexBuilder_regexParser, regexParser.
  cbn [rb_locale rb_formatted rp_regex rp_groups rp_locale].
  rewrite Hm, Hw, Hl.
  destruct (RegExp_new _) as [r|e]; [|reflexivity].
  cbn [bind parse_ RegexParser_asDateParser].
  unfold RegexParser_parse. cbn [rp_regex rp_groups rp_locale].
  now rewrite Hl.
Qed.

Lemma template_parser_asks_no_host_witness :
  parse (EnGB.env true) "25 Jan 2019" "en-GB" (Some (AsFormat "dd MMM yyyy")) true
  = parse OldHost.env "25 Jan 2019" "en-GB" (Some (AsFormat "dd MMM yyyy")) false.
Proof.
  apply template_parser_asks_no_host; reflexivity.
Defined.

End PatternMore.

(* ===================================================================== *)
(** ** What the parser reads for the year and the day *)
(* ===================================================================== *)

Section BoundsMore.
Import RegExp JS Dates Spec Laws StrFacts.

Lemma plain_bodies (r : re) : plain r = true -> group_bodies r = [].
Proof.
  induction r; simpl; intros H; try reflexivity; try discriminate; auto.
  - apply andb_true_iff in H as [Ha Hb]. now rewrite IHr1, IHr2.
  - apply andb_true_iff in H as [Ha Hb]. now rewrite IHr1, IHr2.
Qed.

Lemma names_of_bodies (r : re) : map fst (group_bodies r) = group_names r.
Proof.
  induction r; simpl; try reflexivity; auto.
  - now rewrite map_app, IHr1, IHr2.
  - now rewrite map_app, IHr1, IHr2.
  - now rewrite IHr.
Qed.

Lemma plain_flat (r : re) : plain r = true -> flat r = true.
Proof.
  induction r; simpl; intros H; auto.
  - apply andb_true_iff in H as [Ha Hb]. now rewrite IHr1, IHr2.
  - discriminate.
Qed.

(** A match of a flat pattern captures every group once, in order, each
    with a text its body derives. *)
Lemma matcher_flat (r : re) :
  forall whole R s cs (k : string -> Captures -> option R) x,
    flat r = true ->
    matcher r whole R s cs k = Some x ->
    exists s' caps,
      k s' (cs ++ caps) = Some x
      /\ Forall2 (fun c g => name c = fst g /\ derives (snd g) (mvalue c))
                 caps (group_bodies r).
Proof.
  induction r as [| | negated items | w | a IHa b IHb | a IHa b IHb
                  | greedy a IHa | n a IHa | | | a IHa | e | ];
    intros whole R s cs k x Hflat H;
    try (destruct (matcher_derives _ _ _ _ _ _ _ H) as (t & s' & caps & _ & _ & Hk & _ & P);
         rewrite (P Hflat) in Hk; exists s', [];
         rewrite plain_bodies by exact Hflat; split; [exact Hk | constructor]).
  - simpl in Hflat. apply andb_true_iff in Hflat as [Ha Hb].
    rewrite matcher_Seq_eq in H.
    destruct (IHa _ _ _ _ _ _ Ha H) as (s1 & caps1 & H1 & F1).
    destruct (IHb _ _ _ _ _ _ Hb H1) as (s2 & caps2 & H2 & F2).
    exists s2, (caps1 ++ caps2). rewrite app_assoc. split; [exact H2 |].
    simpl. now apply Forall2_app.
  - simpl in Hflat.
    destruct (matcher_group _ _ _ _ _ _ _ _ Hflat H) as (t & s' & _ & D & Hk).
    exists s', [MkMatch n t]. split; [exact Hk |].
    simpl. rewrite (plain_bodies a Hflat). repeat constructor. exact D.
Qed.

Lemma flat_Seqs (l : list re) : Forall (fun r => flat r = true) l -> flat (Seqs l) = true.
Proof.
  induction 1 as [|r l Hr _ IH]; [reflexivity |].
  change (flat r && flat (Seqs l) = true). now rewrite Hr, IH.
Qed.

Lemma bodies_Seqs (l : list re) : group_bodies (Seqs l) = concat (map group_bodies l).
Proof.
  induction l as [|r l IH]; [reflexivity |].
  change (group_bodies r ++ group_bodies (Seqs l)
          = group_bodies r ++ concat (map group_bodies l)).
  now rewrite IH.
Qed.

Lemma plain_lookup_lower (lower : string -> string) (table : DatumLookup) :
  plain (lookup_pattern_lower lower table) = true.
Proof.
  unfold lookup_pattern_lower. apply plain_Alts.
  induction (pattern_names table); constructor; auto.
Qed.

Lemma plain_separator (v : string) : plain (separator v) = true.
Proof. apply plain_bracketed, plain_Plus. Qed.

(** The pieces of the parser's pattern: flat, with four digits for a year
    and one or two for a day. *)
Lemma parser_piece_flat (lower : string -> string)
    (months_table weekdays_table : DatumLookup) (part : Part) :
  flat (parser_piece lower months_table weekdays_table part) = true
  /\ Forall (fun g => (fst g = "year" -> snd g = Times 4 Digit)
                      /\ (fst g = "day" -> snd g = Seq Digit (Opt Digit)))
            (group_bodies (parser_piece lower months_table weekdays_table part)).
Proof.
  unfold parser_piece.
  destruct (String.eqb (type part) "year").
  { split; [reflexivity |]. repeat constructor; simpl; intros; discriminate. }
  destruct (String.eqb (type part) "month").
  { unfold month_group. simpl. rewrite plain_lookup_lower. split; [reflexivity |].
    rewrite (plain_bodies _ (plain_lookup_lower lower months_table)).
    repeat constructor; simpl; intros; discriminate. }
  destruct (String.eqb (type part) "day").
  { split; [reflexivity |]. repeat constructor; simpl; intros; discriminate. }
  destruct (String.eqb (type part) "weekday").
  { unfold weekday_group. simpl. rewrite plain_lookup_lower. split; [reflexivity |].
    rewrite (plain_bodies _ (plain_lookup_lower lower weekdays_table)).
    repeat constructor; simpl; intros; discriminate. }
  split; [apply plain_flat, plain_separator |].
  rewrite (plain_bodies _ (plain_separator (value part))). constructor.
Qed.

Lemma derives_digit (t : string) :
  derives Digit t -> all_digits t = true /\ String.length t = 1.
Proof.
  unfold Digit. intros H. inversion H as [| |? ? ? Hx| | | | | | | | | |]; subst.
  cbn in Hx. rewrite orb_false_r in Hx. unfold all_digits. simpl. now rewrite Hx.
Qed.

Lemma all_digits_app (t u : string) :
  all_digits (t +:+ u) = all_digits t && all_digits u.
Proof. unfold all_digits. now rewrite characters_app, forallb_app. Qed.

Lemma derives_Times_digits (n : nat) (t : string) :
  derives (Times n Digit) t -> all_digits t = true /\ String.length t = n.
Proof.
  revert t. induction n as [|n IH]; intros t H; simpl in H.
  - inversion H; subst. split; reflexivity.
  - inversion H as [| | | |? ? ? ? Ha Hb| | | | | | | |]; subst.
    destruct (derives_digit _ Ha) as [Ha1 Ha2]. destruct (IH _ Hb) as [Hb1 Hb2].
    rewrite all_digits_app, slength_app, Ha1, Hb1, Ha2, Hb2. split; reflexivity.
Qed.

Lemma derives_one_or_two_digits (t : string) :
  derives (Seq Digit (Opt Digit)) t ->
  all_digits t = true /\ 1 <= String.length t <= 2.
Proof.
  intros H. inversion H as [| | | |? ? ? ? Ha Hb| | | | | | | |]; subst.
  destruct (derives_digit _ Ha) as [Ha1 Ha2].
  rewrite all_digits_app, slength_app, Ha1, Ha2.
  unfold Opt in Hb. inversion Hb as [| | | | |? ? ? Hc|? ? ? Hc| | | | | |]; subst.
  - destruct (derives_digit _ Hc) as [Hc1 Hc2]. rewrite Hc1, Hc2. split; [reflexivity | lia].
  - inversion Hc; subst. split; [reflexivity | simpl; lia].
Qed.

Lemma digit_value_bound (c : ascii) :
  is_digit c = true -> exists n, digit_value c = Some n /\ (0 <= n <= 9)%Z.
Proof.
  unfold is_digit, digit_value. intros H. rewrite H.
  apply andb_true_iff in H as [H1 H2].
  apply Nat.leb_le in H1, H2. eexists. split; [reflexivity | lia].
Qed.

Lemma read_digits_bound (t : string) :
  forall a,
    all_digits t = true -> (0 <= a)%Z ->
    exists z, read_digits 10 digit_value (Some a) t = Some z
              /\ (a * 10 ^ Z.of_nat (String.length t) <= z
                  < (a + 1) * 10 ^ Z.of_nat (String.length t))%Z.
Proof.
  induction t as [|c t IH]; intros a Hd Ha.
  - exists a. split; [reflexivity |]. simpl. lia.
  - unfold all_digits in Hd. simpl in Hd. apply andb_true_iff in Hd as [Hc Hd].
    destruct (digit_value_bound c Hc) as (n & Hn & Hb).
    cbn [read_digits]. rewrite Hn. cbn [default].
    destruct (IH (10 * a + n)%Z Hd ltac:(lia)) as (z & Hz & Hbound).
    exists z. split; [exact Hz |].
    replace (Z.of_nat (String.length (String c t)))
      with (Z.succ (Z.of_nat (String.length t))) by (simpl; lia).
    rewrite Z.pow_succ_r by lia. nia.
Qed.

(** [parseInt] of a text of digits. *)
Lemma parseInt_digits (t : string) (y : Z) :
  all_digits t = true -> Str.is_empty t = false ->
  parseInt (Some t) = Int y ->
  (0 <= y < 10 ^ Z.of_nat (String.length t))%Z.
Proof.
  intros Hd Hne Hy. destruct t as [|c t]; [discriminate |].
  assert (Hread : exists z, read_digits 10 digit_value None (String c t) = Some z
                            /\ (0 <= z < 10 ^ Z.of_nat (String.length (String c t)))%Z).
  { unfold all_digits in Hd. simpl in Hd. apply andb_true_iff in Hd as [Hc Hd].
    destruct (digit_value_bound c Hc) as (n & Hn & Hb).
    cbn [read_digits]. rewrite Hn. cbn [default].
    destruct (read_digits_bound t (10 * 0 + n)%Z Hd ltac:(lia)) as (z & Hz & Hbound).
    exists z. split; [exact Hz |].
    replace (Z.of_nat (String.length (String c t)))
      with (Z.succ (Z.of_nat (String.length t))) by (simpl; lia).
    rewrite Z.pow_succ_r by lia. nia. }
  destruct Hread as (z & Hz & Hbound).
  assert (Hnum : numeral (String c t) z = true).
  { unfold numeral. rewrite Hz, Z.eqb_refl. unfold all_digits in Hd. now rewrite Hd. }
  rewrite (parseInt_numeral _ _ Hnum) in Hy. injection Hy as <-. exact Hbound.
Qed.

(** What a group handler reads: the capture of the last group of its
    name. *)
Lemma numeric_reads (r : re) (whole s rest : string) (m : Captures) (n : string) (y : Z) :
  flat r = true ->
  match_at r whole s = Some (m, rest) ->
  numeric (NamedRegExp.names r n) m = Ok (Int y) ->
  exists text body,
    In (n, body) (group_bodies r) /\ derives body text /\ parseInt (Some text) = Int y.
Proof.
  intros Hflat Hm Hy. unfold match_at in Hm.
  destruct (matcher_flat _ _ _ _ _ _ _ Hflat Hm) as (s' & caps & Hk & Hall).
  injection Hk as <- _. unfold numeric in Hy. injection Hy as Hy.
  destruct (NamedRegExp.names r n) as [j|] eqn:Hj; [|discriminate].
  destruct (names_found _ _ _ Hj) as (i & -> & Hi).
  cbn [group_at] in Hy.
  destruct (caps !! i) as [c|] eqn:Hc; [|discriminate].
  destruct (Forall2_lookup_l _ _ _ _ _ Hall Hc) as ([n' body] & Hg & Hname & D).
  rewrite <- names_of_bodies, list_lookup_fmap, Hg in Hi. injection Hi as ->.
  exists (mvalue c), body. split; [|split; [exact D | exact Hy]].
  apply list_elem_of_In. eapply list_elem_of_lookup_2. exact Hg.
Qed.

(** X24.  What a parser made by [regexParser] reads from a match: a year
    of four digits and a day of one or two, so a year from 0 to 9999 and a
    day from 0 to 99. *)
Theorem year_and_day_are_bounded
    (env : Env) (b : RegexBuilder) (text : string) (m : Captures) :
  exec (rp_regex (regexParser env b)) text = Some m ->
  (forall y, g_year (rp_groups (regexParser env b)) m = Ok (Int y) -> (0 <= y <= 9999)%Z)
  /\ (forall d, g_day (rp_groups (regexParser env b)) m = Ok (Int d) -> (0 <= d <= 99)%Z).
Proof.
  unfold exec. intros H.
  destruct (search_in _ text "" text) as [f|] eqn:Hf; [|discriminate].
  injection H as <-.
  destruct (search_in_found _ _ _ _ _ Hf) as (s1 & _ & Hm & _ & _).
  cbn [regexParser rp_regex rp_groups g_year g_day] in *.
  set (lower := toLocaleLowerCase env (rb_locale b)) in *.
  set (months_table := Months_get env (rb_locale b)) in *.
  set (weekdays_table := Weekdays_get env (rb_locale b)) in *.
  set (pattern := Seqs (map (parser_piece lower months_table weekdays_table)
                            (rb_formatted b))) in *.
  assert (Hflat : flat pattern = true).
  { apply flat_Seqs. apply Forall_fmap. apply Forall_forall. intros p _.
    apply parser_piece_flat. }
  assert (Hbodies : Forall (fun g => (fst g = "year" -> snd g = Times 4 Digit)
                                     /\ (fst g = "day" -> snd g = Seq Digit (Opt Digit)))
                           (group_bodies pattern)).
  { unfold pattern. rewrite bodies_Seqs. apply Forall_concat, Forall_fmap, Forall_fmap.
    apply Forall_forall. intros p _. apply parser_piece_flat. }
  rewrite List.Forall_forall in Hbodies.
  split.
  - intros y Hy.
    destruct (numeric_reads _ _ _ _ _ _ _ Hflat Hm Hy) as (t & body & Hin & D & Hp).
    destruct (Hbodies _ Hin) as [Hyear _]. cbn [fst snd] in Hyear. rewrite (Hyear eq_refl) in D.
    destruct (derives_Times_digits _ _ D) as [Hd Hlen].
    assert (Hne : Str.is_empty t = false) by (destruct t; [discriminate | reflexivity]).
    pose proof (parseInt_digits _ _ Hd Hne Hp) as Hb. rewrite Hlen in Hb.
    change (10 ^ Z.of_nat 4)%Z with 10000%Z in Hb. lia.
  - intros d Hd.
    destruct (numeric_reads _ _ _ _ _ _ _ Hflat Hm Hd) as (t & body & Hin & D & Hp).
    destruct (Hbodies _ Hin) as [_ Hday]. cbn [fst snd] in Hday. rewrite (Hday eq_refl) in D.
    destruct (derives_one_or_two_digits _ D) as [Hdig Hlen].
    assert (Hne : Str.is_empty t = false) by (destruct t; [simpl in Hlen; lia | reflexivity]).
    pose proof (parseInt_digits _ _ Hdig Hne Hp) as Hb.
    assert (10 ^ Z.of_nat (String.length t) <= 100)%Z.
    { destruct Hlen as [H1 H2].
      assert (String.length t = 1 \/ String.length t = 2) as [-> | ->] by lia;
        vm_compute; discriminate. }
    lia.
Qed.

Lemma year_and_day_are_bounded_witness :
  (forall y, g_year (rp_groups EnGB.short_parser)
               [MkMatch "day" "25"; MkMatch "month" "jan"; MkMatch "year" "2019"]
             = Ok (Int y) -> (0 <= y <= 9999)%Z)
  /\ (forall d, g_day (rp_groups EnGB.short_parser)
                  [MkMatch "day" "25"; MkMatch "month" "jan"; MkMatch "year" "2019"]
                = Ok (Int d) -> (0 <= d <= 99)%Z).
Proof.
  apply (year_and_day_are_bounded (EnGB.env true)
           (MkRegexBuilder "en-GB" [("year", "numeric"); ("month", "short"); ("day", "numeric")]
              [MkPart "day" "25"; MkPart "literal" " "; MkPart "month" "Jan";
               MkPart "literal" " "; MkPart "year" "2019"])
           "on 25 jan 2019").
  vm_compute. reflexivity.
Defined.

(** X25.  A pattern made by [regexParser] from at least one part never
    matches the empty text, when the lookups of the locale have names and
    none of them is empty: so every turn of the loop in
    [RegexParser.parseAll] moves on in the text, and the loop ends. *)
Theorem regexParser_matches_take_text
    (env : Env) (b : RegexBuilder) (whole s : string) (f : Found) :
  nonempty (rb_formatted b) = true ->
  named (toLocaleLowerCase env (rb_locale b)) (Months_get env (rb_locale b)) = true ->
  named (toLocaleLowerCase env (rb_locale b)) (Weekdays_get env (rb_locale b)) = true ->
  search_in (rp_regex (regexParser env b)) whole "" s = Some f ->
  Str.is_empty (matched f) = false /\ String.length (after f) < String.length s.
Proof.
  intros Hne Hm Hw Hf.
  assert (Hempty : Str.is_empty (matched f) = false).
  { apply (consuming_found (rp_regex (regexParser env b)) whole s f); [|exact Hf].
    cbn [regexParser rp_regex].
    destruct (rb_formatted b) as [|p parts]; [discriminate |].
    change (consuming (parser_piece (toLocaleLowerCase env (rb_locale b))
                         (Months_get env (rb_locale b))
                         (Weekdays_get env (rb_locale b)) p)
            || consuming (Seqs (map (parser_piece (toLocaleLowerCase env (rb_locale b))
                                       (Months_get env (rb_locale b))
                                       (Weekdays_get env (rb_locale b))) parts)) = true).
    now rewrite consuming_piece. }
  split; [exact Hempty |]. now apply (found_shortens _ _ _ _ Hf).
Qed.

Lemma regexParser_matches_take_text_witness :
  Str.is_empty
    (matched (MkFound "on " [MkMatch "day" "25"; MkMatch "month" "jan"; MkMatch "year" "2019"]
                      "25 jan 2019" " at noon")) = false
  /\ String.length
       (after (MkFound "on " [MkMatch "day" "25"; MkMatch "month" "jan"; MkMatch "year" "2019"]
                       "25 jan 2019" " at noon"))
     < String.length "on 25 jan 2019 at noon".
Proof.
  apply (regexParser_matches_take_text (EnGB.env true)
           (MkRegexBuilder "en-GB" [("year", "numeric"); ("month", "short"); ("day", "numeric")]
              [MkPart "day" "25"; MkPart "literal" " "; MkPart "month" "Jan";
               MkPart "literal" " "; MkPart "year" "2019"])
           "on 25 jan 2019 at noon" "on 25 jan 2019 at noon");
    vm_compute; reflexivity.
Defined.

End BoundsMore.
